(** * Weak-entropy replication tooling: a shallow embedding of the Python sources

    The development follows the repository's Python scripts, one module per
    class or script:
    - [tests/validate_parity.py]: [V8Mwc1616], [JavaLcg], [SafariCrt],
      [ARC4], the object store [Store], [Parity] (key extraction) and
      [ParityMain] (the validation run);
    - [scripts/generate_test_vectors_option_a.py]: [VulnerablePRNG], over
      the float model [Float];
    - [crates/.../scans/randstorm/sim_sha.py]: [SimSha];
    - [milksad-reference/.../python-bloom-filter-util/bloom-util.py]:
      [BloomUtil], over [BloomFilter] and the output monad [IO];
    - [scripts/generate_ripemd160_wgsl.py]: [RipemdGen].
    The modules [PoolSpec], [ValidatorSpec] and [TimestampHashSpec] restate
    the behaviour in the words of the specification; the theorems compare
    the code with them.  [ParityRuns], [OptionA], [BloomBulk] and
    [RipemdSubst] hold further functions of the same scripts and the
    notions their properties are stated with.  All definitions come first,
    the theorems follow.

    Python integers are unbounded, so they are embedded as [Z]; the bit
    operators [&], [|], [^], [~], [<<], [>>] are [Z.land], [Z.lor], [Z.lxor],
    [Z.lnot], [Z.shiftl], [Z.shiftr], which agree with Python's two's
    complement reading of negative numbers, and [%] with a positive
    right operand is [Z.modulo].  Every operation that can raise in
    Python returns an [outcome]. *)

From Stdlib Require Import ZArith Lia Ascii String DecimalString.
From Stdlib Require PrimFloat FloatOps SpecFloat Uint63.
From stdpp Require Import base option list strings gmap.

Local Open Scope Z_scope.

(** ** Python runtime: exceptions, outcomes, list indexing *)

Module Py.

Inductive exn : Type :=
| IndexError
| ValueError
| KeyError
| NameError (name : string)
| AttributeError
| TypeError
| ReferenceError
| OverflowError
| ZeroDivisionError
| FileNotFoundError
| UnpicklingError.

(** [Raise e] is an uncaught exception; [Diverge] is only produced when a
    [while] loop exhausts the fuel given to its embedding. *)
Inductive outcome (A : Type) : Type :=
| Ret (a : A)
| Raise (e : exn)
| Diverge.

Arguments Ret {A} a.
Arguments Raise {A} e.
Arguments Diverge {A}.

Definition bind {A B} (m : outcome A) (k : A -> outcome B) : outcome B :=
  match m with
  | Ret a => k a
  | Raise e => Raise e
  | Diverge => Diverge
  end.

#[global] Instance outcome_ret : MRet outcome := fun _ a => Ret a.
#[global] Instance outcome_bind : MBind outcome := fun _ _ k m => bind m k.
#[global] Instance outcome_fmap : FMap outcome :=
  fun _ _ f m => bind m (fun a => Ret (f a)).

(** [l[i]] for a Python list: negative indices count from the end, and an
    index outside the list raises [IndexError]. *)
Definition getitem {A} (l : list A) (i : Z) : outcome A :=
  let n := Z.of_nat (length l) in
  let j := if i <? 0 then i + n else i in
  if (0 <=? j) && (j <? n)
  then match l !! Z.to_nat j with Some x => Ret x | None => Raise IndexError end
  else Raise IndexError.

(** [l[i] = x]. *)
Definition setitem {A} (l : list A) (i : Z) (x : A) : outcome (list A) :=
  let n := Z.of_nat (length l) in
  let j := if i <? 0 then i + n else i in
  if (0 <=? j) && (j <? n)
  then Ret (<[Z.to_nat j := x]> l)
  else Raise IndexError.

(** [range(lo, hi)] as the list of its values. *)
Definition range (lo hi : Z) : list Z :=
  map (fun k => lo + Z.of_nat k) (seq 0 (Z.to_nat (hi - lo))).

(** [for x in xs: s = body(x, s)] with exceptions propagating. *)
Fixpoint for_each {A S} (xs : list A) (body : A -> S -> outcome S) (s : S)
  : outcome S :=
  match xs with
  | [] => Ret s
  | x :: xs' => s' ← body x s; for_each xs' body s'
  end.

(** [bytes(l)]: every element must be in [range(256)]. *)
Definition is_byte (x : Z) : bool := (0 <=? x) && (x <? 256).

Definition bytes_of_ints (l : list Z) : outcome (list Z) :=
  if forallb is_byte l then Ret l else Raise ValueError.

(** [n.to_bytes(len, 'little')] for a non-negative [n] that fits. *)
Definition to_bytes_little (len : nat) (n : Z) : outcome (list Z) :=
  if (0 <=? n) && (n <? 2 ^ (8 * Z.of_nat len))
  then Ret (map (fun k => Z.land (Z.shiftr n (8 * Z.of_nat k)) 255) (seq 0 len))
  else Raise OverflowError.

(** [str(n)] for an integer. *)
Definition str_of_int (n : Z) : string := NilZero.string_of_int (Z.to_int n).

End Py.

Import Py.

(** ** [sim_sha.py]: the 256-bit reference compression function *)

Module SimSha.

Definition rotr (x n : Z) : Z :=
  Z.lor (Z.shiftr (Z.land x 0xffffffff) n)
        (Z.land (Z.shiftl x (32 - n)) 0xffffffff).

Definition sigma0 (x : Z) : Z :=
  Z.lxor (Z.lxor (rotr x 2) (rotr x 13)) (rotr x 22).

Definition sigma1 (x : Z) : Z :=
  Z.lxor (Z.lxor (rotr x 6) (rotr x 11)) (rotr x 25).

Definition delta0 (x : Z) : Z :=
  Z.lxor (Z.lxor (rotr x 7) (rotr x 18)) (Z.shiftr x 3).

Definition delta1 (x : Z) : Z :=
  Z.lxor (Z.lxor (rotr x 17) (rotr x 19)) (Z.shiftr x 10).

Definition ch (x y z : Z) : Z :=
  Z.lxor (Z.land x y) (Z.land (Z.lnot x) z).

Definition maj (x y z : Z) : Z :=
  Z.lxor (Z.lxor (Z.land x y) (Z.land x z)) (Z.land y z).

(** The table [K], one source line (eight entries) per row. *)
Definition K : list Z :=
  [0x428a2f98; 0x71374491; 0xb5c0fbcf; 0xe9b5dba5; 0x3956c25b; 0x59f111f1; 0x923f82a4; 0xab1c5ed5] ++
  [0xd807aa98; 0x12835b01; 0x243185be; 0x550c7dc3; 0x72be5d74; 0x80deb1fe; 0x9bdc06a7; 0xc19bf174] ++
  [0xe49b69c1; 0xefbe4786; 0x0fc19dc6; 0x240ca1cc; 0x2de92c6f; 0x4a7484aa; 0x5cb0a9dc; 0x76f988da] ++
  [0x983e5152; 0xa831c66d; 0xb00327c8; 0xbf597fc7; 0xc6e00bf3; 0xd5a79147; 0x06ca6351; 0x14292967] ++
  [0x27b70a85; 0x2e1b2138; 0x4d2c6dfc; 0x53380d13; 0x650a7354; 0x766a0abb; 0x81c2c92e; 0x92722c85] ++
  [0xa2bfe8a1; 0xa81a664b; 0xc24b8b70; 0xc76c51a3; 0xd192e819; 0xd6990624; 0xf40e3585; 0x106aa070] ++
  [0x19a4c116; 0x1e376c08; 0x2748774c; 0x34b0bcb5; 0x391c0cb3; 0x4ed8aa4a; 0x5b9cca4f; 0x682e6ff3] ++
  [0x748f82ee; 0x78a5636f; 0x84c87814; 0x8cc70208; 0x90beffda; 0xa4506ceb; 0xbef9a3f7; 0xc67178f2].

(** The eight working variables [a .. h] of the round loop. *)
Record working := Working {
  wa : Z; wb : Z; wc : Z; wd : Z; we : Z; wf : Z; wg : Z; wh : Z
}.

(** [for i in range(16): m[i] = data[i]] *)
Definition copy_block (data : list Z) (m : list Z) : outcome (list Z) :=
  for_each (range 0 16)
    (fun i m => x ← getitem data i; setitem m i x) m.

(** [for i in range(16, 64): m[i] = (delta1(m[i-2]) + m[i-7] + delta0(m[i-15]) + m[i-16]) & 0xffffffff] *)
Definition extend_schedule (m : list Z) : outcome (list Z) :=
  for_each (range 16 64)
    (fun i m =>
       m2 ← getitem m (i - 2);
       m7 ← getitem m (i - 7);
       m15 ← getitem m (i - 15);
       m16 ← getitem m (i - 16);
       setitem m i (Z.land (delta1 m2 + m7 + delta0 m15 + m16) 0xffffffff)) m.

(** One iteration of the round loop, reading the round constant from the
    table [k] (the module's global [K] in the source). *)
Definition round (k m : list Z) (i : Z) (w : working) : outcome working :=
  ki ← getitem k i;
  mi ← getitem m i;
  let t1 := Z.land (wh w + sigma1 (we w) + ch (we w) (wf w) (wg w) + ki + mi) 0xffffffff in
  let t2 := Z.land (sigma0 (wa w) + maj (wa w) (wb w) (wc w)) 0xffffffff in
  Ret {| wh := wg w; wg := wf w; wf := we w;
         we := Z.land (wd w + t1) 0xffffffff;
         wd := wc w; wc := wb w; wb := wa w;
         wa := Z.land (t1 + t2) 0xffffffff |}.

(** [a, b, c, d, e, f, g, h = state] *)
Definition unpack8 (state : list Z) : outcome working :=
  match state with
  | [a; b; c; d; e; f; g; h] => Ret (Working a b c d e f g h)
  | _ => Raise ValueError
  end.

(** The body of [transform(state, data)], which updates [state] in place;
    the embedding returns the list [state] holds afterwards. *)
Definition transform_with (k state data : list Z) : outcome (list Z) :=
  m ← copy_block data (replicate 64 0);
  m ← extend_schedule m;
  w0 ← unpack8 state;
  w ← for_each (range 0 64) (round k m) w0;
  s0 ← getitem state 0; state ← setitem state 0 (Z.land (s0 + wa w) 0xffffffff);
  s1 ← getitem state 1; state ← setitem state 1 (Z.land (s1 + wb w) 0xffffffff);
  s2 ← getitem state 2; state ← setitem state 2 (Z.land (s2 + wc w) 0xffffffff);
  s3 ← getitem state 3; state ← setitem state 3 (Z.land (s3 + wd w) 0xffffffff);
  s4 ← getitem state 4; state ← setitem state 4 (Z.land (s4 + we w) 0xffffffff);
  s5 ← getitem state 5; state ← setitem state 5 (Z.land (s5 + wf w) 0xffffffff);
  s6 ← getitem state 6; state ← setitem state 6 (Z.land (s6 + wg w) 0xffffffff);
  s7 ← getitem state 7; setitem state 7 (Z.land (s7 + wh w) 0xffffffff).

(** [transform] as the module defines it, over its own table [K]. *)
Definition transform (state data : list Z) : outcome (list Z) :=
  transform_with K state data.

(** The inputs of the module's own top-level call and of [check_lib.py]:
    the standard initial state and the padded one-block message "abc". *)
Definition initial_state : list Z :=
  [0x6a09e667; 0xbb67ae85; 0x3c6ef372; 0xa54ff53a; 0x510e527f; 0x9b05688c; 0x1f83d9ab; 0x5be0cd19].

Definition abc_block : list Z :=
  <[15%nat := 24]> (<[0%nat := 0x61626380]> (replicate 16 0)).

(** The digest [hashlib.sha256(b'abc')] that [check_lib.py] prints next to
    the result of [transform], as eight 32-bit words. *)
Definition abc_digest : list Z :=
  [0xba7816bf; 0x8f01cfea; 0x414140de; 0x5dae2223;
   0xb00361a3; 0x96177a9c; 0xb410ff61; 0xf20015ad].

(** The round-constant table of the 256-bit hash standard: it differs
    from [K] at index 60 only. *)
Definition K_standard : list Z := <[60%nat := 0x90befffa]> K.

End SimSha.

(** ** [tests/validate_parity.py]: generators, stream cipher, key extraction *)

Module V8Mwc1616.

Record t := Build { s1 : Z; s2 : Z }.

(** [__init__(self, seed)] *)
Definition init (seed : Z) : t :=
  let s1 := Z.land seed 0xFFFFFFFF in
  let s2 := Z.land (Z.shiftr seed 32) 0xFFFFFFFF in
  let s1 := if s1 =? 0 then 1 else s1 in
  let s2 := if s2 =? 0 then 1 else s2 in
  Build s1 s2.

(** [next_u16(self)]: the returned value and the updated instance. *)
Definition next_u16 (self : t) : Z * t :=
  let s1 := Z.land (18000 * Z.land (s1 self) 0xFFFF + Z.shiftr (s1 self) 16) 0xFFFFFFFF in
  let s2 := Z.land (30903 * Z.land (s2 self) 0xFFFF + Z.shiftr (s2 self) 16) 0xFFFFFFFF in
  let combined := Z.land (Z.shiftl s1 16 + s2) 0xFFFFFFFF in
  (Z.land (Z.shiftr combined 16) 0xFFFF, Build s1 s2).

(** The values returned by [n] successive calls of [next_u16]. *)
Fixpoint outputs (n : nat) (self : t) : list Z :=
  match n with
  | O => []
  | S n' => let '(v, self') := next_u16 self in v :: outputs n' self'
  end.

End V8Mwc1616.

Module JavaLcg.

Record t := Build { state : Z }.

Definition init (seed : Z) : t := Build (Z.land seed (Z.shiftl 1 48 - 1)).

Definition next_u16 (self : t) : Z * t :=
  let state := Z.land (state self * 0x5DEECE66D + 0xB) (Z.shiftl 1 48 - 1) in
  (Z.land (Z.shiftr state 16) 0xFFFF, Build state).

End JavaLcg.

Module SafariCrt.

Record t := Build { state : Z }.

Definition init (seed : Z) : t := Build (Z.land seed 0xFFFFFFFF).

Definition next_u16 (self : t) : Z * t :=
  let state := Z.land (state self * 214013 + 2531011) 0xFFFFFFFF in
  let r1 := Z.land (Z.shiftr state 16) 0x7FFF in
  let state := Z.land (state * 214013 + 2531011) 0xFFFFFFFF in
  let r2 := Z.land (Z.shiftr state 16) 0x7FFF in
  let combined := Z.lor (Z.shiftl r1 15) r2 in
  (Z.land (Z.shiftr combined 14) 0xFFFF, Build state).

End SafariCrt.

Module ARC4.

Record t := Build { s : list Z; i : Z; j : Z }.

(** [a % b] on Python integers. *)
Definition pymod (a b : Z) : outcome Z :=
  if b =? 0 then Raise ZeroDivisionError else Ret (a mod b).

(** [s[i], s[j] = s[j], s[i]]: both right-hand sides are read first, then
    [s[i]] and [s[j]] are stored in that order. *)
Definition swap (s : list Z) (i j : Z) : outcome (list Z) :=
  sj ← getitem s j;
  si ← getitem s i;
  s ← setitem s i sj;
  setitem s j si.

(** One iteration of the key-scheduling loop of [__init__]. *)
Definition init_step (key : list Z) (i : Z) (sj : list Z * Z)
  : outcome (list Z * Z) :=
  let '(s, j) := sj in
  si ← getitem s i;
  k ← pymod i (Z.of_nat (length key));
  ki ← getitem key k;
  let j := (j + si + ki) mod 256 in
  s ← swap s i j;
  Ret (s, j).

(** [__init__(self, key)]: [self.i] and [self.j] are set to 0 before the
    loop, which works on a local [j]. *)
Definition init (key : list Z) : outcome t :=
  '(s, _) ← for_each (range 0 256) (init_step key) (range 0 256, 0);
  Ret (Build s 0 0).

(** [next_byte(self)] *)
Definition next_byte (self : t) : outcome (Z * t) :=
  let i := (i self + 1) mod 256 in
  si ← getitem (s self) i;
  let j := (j self + si) mod 256 in
  s ← swap (s self) i j;
  si ← getitem s i;
  sj ← getitem s j;
  out ← getitem s ((si + sj) mod 256);
  Ret (out, Build s i j).

End ARC4.

(** Instances live in the interpreter's object store and are reached
    through references; a method call updates the instance in place. *)
Module Store.

Inductive instance : Type :=
| V8 (o : V8Mwc1616.t)
| Java (o : JavaLcg.t)
| Safari (o : SafariCrt.t)
| Arc4 (o : ARC4.t).

Abbreviation store := (list instance).
Abbreviation ref := nat.

(** Computations over the store. *)
Definition M (A : Type) : Type := store -> outcome (A * store).

Definition ret {A} (a : A) : M A := fun h => Ret (a, h).

Definition bind {A B} (m : M A) (k : A -> M B) : M B :=
  fun h => match m h with
           | Ret (a, h') => k a h'
           | Raise e => Raise e
           | Diverge => Diverge
           end.

#[global] Instance M_ret : MRet M := @ret.
#[global] Instance M_bind : MBind M := fun _ _ k m => bind m k.

Definition lift {A} (m : outcome A) : M A :=
  fun h => match m with
           | Ret a => Ret (a, h)
           | Raise e => Raise e
           | Diverge => Diverge
           end.

(** Object creation: a fresh reference, the store grows by one object. *)
Definition new (o : instance) : M ref :=
  fun h => Ret (length h, h ++ [o]).

(** A method call on the object behind [r]. *)
Definition call {A} (r : ref) (method : instance -> outcome (A * instance))
  : M A :=
  fun h => match h !! r with
           | Some o =>
               match method o with
               | Ret (a, o') => Ret (a, <[r := o']> h)
               | Raise e => Raise e
               | Diverge => Diverge
               end
           | None => Raise ReferenceError
           end.

(** [obj.next_u16()], resolved on the class of the object. *)
Definition next_u16 (o : instance) : outcome (Z * instance) :=
  match o with
  | V8 p => let '(v, p') := V8Mwc1616.next_u16 p in Ret (v, V8 p')
  | Java p => let '(v, p') := JavaLcg.next_u16 p in Ret (v, Java p')
  | Safari p => let '(v, p') := SafariCrt.next_u16 p in Ret (v, Safari p')
  | Arc4 _ => Raise AttributeError
  end.

(** [obj.next_byte()] *)
Definition next_byte (o : instance) : outcome (Z * instance) :=
  match o with
  | Arc4 a => '(v, a') ← ARC4.next_byte a; Ret (v, Arc4 a')
  | _ => Raise AttributeError
  end.

End Store.

Module Parity.

Import Store.

(** The pool-filling loop, written three times in the source with a
    different generator class each time:
<<
    while len(pool) < 256:
        val = prng.next_u16()
        pool.append((val >> 8) & 0xFF)
        if len(pool) < 256:
            pool.append(val & 0xFF)
>>
    [fuel] bounds the number of times the loop condition is tested. *)
Fixpoint fill_pool (fuel : nat) (prng : ref) (pool : list Z) : M (list Z) :=
  match fuel with
  | O => fun _ => Diverge
  | S fuel' =>
      if Z.of_nat (length pool) <? 256 then
        val ← call prng next_u16;
        let pool := pool ++ [Z.land (Z.shiftr val 8) 0xFF] in
        let pool := if Z.of_nat (length pool) <? 256
                    then pool ++ [Z.land val 0xFF] else pool in
        fill_pool fuel' prng pool
      else mret pool
  end.

(** Enough fuel for a loop that appends at least one byte per iteration. *)
Definition pool_fuel : nat := 257.

(** [for i in range(4): pool[i] ^= ts_bytes[i]] *)
Definition xor_timestamp (ts : Z) (pool : list Z) : outcome (list Z) :=
  let ts_bytes := [ Z.land ts 0xFF;
                    Z.land (Z.shiftr ts 8) 0xFF;
                    Z.land (Z.shiftr ts 16) 0xFF;
                    Z.land (Z.shiftr ts 24) 0xFF ] in
  for_each (range 0 4)
    (fun i pool =>
       p ← getitem pool i;
       b ← getitem ts_bytes i;
       setitem pool i (Z.lxor p b)) pool.

(** [[arc4.next_byte() for _ in range(32)]] *)
Fixpoint keystream (n : nat) (arc4 : ref) : M (list Z) :=
  match n with
  | O => mret []
  | S n' => b ← call arc4 next_byte; bs ← keystream n' arc4; mret (b :: bs)
  end.

(** The statements of [derive_privkey_python] after the [if]/[elif]
    chain: XOR with the timestamp, stream cipher, 32 bytes. *)
Definition whiten_and_extract (ts : Z) (pool : list Z) : M (option (list Z)) :=
  pool ← lift (xor_timestamp ts pool);
  a ← lift (ARC4.init pool);
  arc4 ← new (Arc4 a);
  ks ← keystream 32 arc4;
  privkey ← lift (bytes_of_ints ks);
  mret (Some privkey).

(** [derive_privkey_python(ts, engine_type)]: the [if]/[elif] chain
    fills [pool] or returns [None] for any other engine name; the code
    after the chain whitens the pool and extracts the key. *)
Definition derive_privkey_python (ts : Z) (engine_type : string)
  : M (option (list Z)) :=
  filled ←
    (if String.eqb engine_type "v8" then
       prng ← new (V8 (V8Mwc1616.init ts));
       pool ← fill_pool pool_fuel prng []; mret (Some pool)
     else if String.eqb engine_type "java" || String.eqb engine_type "ie" then
       prng ← new (Java (JavaLcg.init ts));
       pool ← fill_pool pool_fuel prng []; mret (Some pool)
     else if String.eqb engine_type "safari-win" then
       prng ← new (Safari (SafariCrt.init ts));
       pool ← fill_pool pool_fuel prng []; mret (Some pool)
     else mret None);
  match filled with
  | None => mret None
  | Some pool => whiten_and_extract ts pool
  end.

(** The engine names for which a key is derived. *)
Definition supported_engines : list string := ["v8"; "java"; "ie"; "safari-win"].

End Parity.

(** ** The pool-whiten-then-stream-cipher family as the specification words it

    Total, store-free definitions that follow the specification's text
    (sections 4.1 and 4.2); the theorems compare them with
    [Parity.derive_privkey_python]. *)

Module PoolSpec.

(** Total list access, used where the specification indexes a table. *)
Definition zget (l : list Z) (i : Z) : Z := default 0 (l !! Z.to_nat i).
Definition zset (l : list Z) (i : Z) (x : Z) : list Z := <[Z.to_nat i := x]> l.

(** The first [n] values of a generator with step function [next]. *)
Fixpoint outputs {S} (next : S -> Z * S) (n : nat) (st : S) : list Z :=
  match n with
  | O => []
  | S n' => let '(v, st') := next st in v :: outputs next n' st'
  end.

(** The first [n] 16-bit outputs of the generator of an engine variant
    seeded with [ts]. *)
Definition engine_outputs (engine : string) (ts : Z) (n : nat) : list Z :=
  if String.eqb engine "v8" then outputs V8Mwc1616.next_u16 n (V8Mwc1616.init ts)
  else if String.eqb engine "safari-win"
       then outputs SafariCrt.next_u16 n (SafariCrt.init ts)
       else outputs JavaLcg.next_u16 n (JavaLcg.init ts).

(** Pool filling: each 16-bit value contributes its high byte, then its low
    byte; 128 values fill the 256-byte pool. *)
Definition entropy_pool (engine : string) (ts : Z) : list Z :=
  flat_map (fun v => [(v / 256) mod 256; v mod 256]) (engine_outputs engine ts 128).

(** The little-endian bytes of [n], least significant first. *)
Definition le_bytes (k : nat) (n : Z) : list Z :=
  map (fun i => (n / 256 ^ Z.of_nat i) mod 256) (seq 0 k).

(** Whitening: the first 4 pool bytes are XORed with the little-endian
    bytes of the timestamp. *)
Definition whiten (ts : Z) (pool : list Z) : list Z :=
  zip_with Z.lxor (take 4 pool) (le_bytes 4 ts) ++ drop 4 pool.

(** The cipher's table is a 256-entry table of bytes. *)
Definition wf_table (s : list Z) : Prop :=
  length s = 256%nat /\ Forall (fun x => 0 <= x < 256) s.

(** The byte-oriented stream cipher. *)
Definition swap (s : list Z) (i j : Z) : list Z :=
  zset (zset s i (zget s j)) j (zget s i).

(** Key setup over the 256-entry table, starting from the identity. *)
Definition ksa_step (key : list Z) (sj : list Z * Z) (i : Z) : list Z * Z :=
  let j := (sj.2 + zget sj.1 i + zget key (i mod Z.of_nat (length key))) mod 256 in
  (swap sj.1 i j, j).

Definition ksa (key : list Z) : list Z :=
  (foldl (ksa_step key) (Py.range 0 256, 0) (Py.range 0 256)).1.

(** The keystream generator: [n] bytes from table [s] and counters [i], [j]. *)
Fixpoint prga (n : nat) (s : list Z) (i j : Z) : list Z :=
  match n with
  | O => []
  | S n' =>
      let i := (i + 1) mod 256 in
      let j := (j + zget s i) mod 256 in
      let s := swap s i j in
      zget s ((zget s i + zget s j) mod 256) :: prga n' s i j
  end.

(** The first [n] keystream bytes under [key]: nothing is discarded
    between key setup and the first emitted byte. *)
Definition cipher_keystream (key : list Z) (n : nat) : list Z :=
  prga n (ksa key) 0 0.

(** The private key of the pool-whiten-then-stream-cipher family. *)
Definition private_key (engine : string) (ts : Z) : list Z :=
  cipher_keystream (whiten ts (entropy_pool engine ts)) 32.

End PoolSpec.

(** ** [tests/validate_parity.py]: the validation run [main] *)

Module ParityMain.

Import Store.

(** One entry of [comprehensive_test_vectors.json], with the four keys
    [main] reads. *)
Record vector := Vector {
  vulnerability : string;
  timestamp_ms : Z;
  engine : string;
  expected_privkey_hex : string
}.

(** The lines [main] prints, by the statement that prints them. *)
Inductive line : Type :=
| Starting
| NotFound
| ParityFailure (index : Z) (engine : string) (ts : Z) (expected python : string)
| TooManyFailures
| Checked (index total : Z)
| Complete (total passed failed : Z)
| PerfectParity.

(** [binascii.hexlify(b).decode()] *)
Definition hex_digit (n : Z) : ascii :=
  match String.get (Z.to_nat n) "0123456789abcdef" with
  | Some c => c
  | None => "?"%char
  end.

Definition hexlify (bs : list Z) : string :=
  foldr (fun b acc => String (hex_digit (b / 16)) (String (hex_digit (b mod 16)) acc))
        EmptyString bs.

(** The local variables of [main] that the loop updates, and its output. *)
Record locals := Locals {
  passed : Z;
  failed : Z;
  printed : list line
}.

(** [if i % 1000 == 0 and i > 0: print(...)] *)
Definition progress (i total : Z) (st : locals) : locals :=
  if (i mod 1000 =? 0) && (0 <? i)
  then Locals (passed st) (failed st) (printed st ++ [Checked i total])
  else st.

(** The [for i, v in enumerate(vectors)] loop from index [i] on.  The
    result pairs the locals with the vectors the loop never reached
    (non-empty only after [break]). *)
Fixpoint loop (total i : Z) (vs : list vector) (st : locals)
  : M (locals * list vector) :=
  match vs with
  | [] => mret (st, [])
  | v :: rest =>
      if negb (String.eqb (vulnerability v) "randstorm") then
        loop total (i + 1) rest st
      else
        py_privkey_bytes ← Parity.derive_privkey_python (timestamp_ms v) (engine v);
        match py_privkey_bytes with
        | None => loop total (i + 1) rest st
        | Some bytes =>
            let py_privkey_hex := hexlify bytes in
            if String.eqb py_privkey_hex (expected_privkey_hex v) then
              let st := Locals (passed st + 1) (failed st) (printed st) in
              loop total (i + 1) rest (progress i total st)
            else
              let st := Locals (passed st) (failed st + 1)
                          (printed st ++
                             [ParityFailure i (engine v) (timestamp_ms v)
                                (expected_privkey_hex v) py_privkey_hex]) in
              if 5 <? failed st then
                mret (Locals (passed st) (failed st) (printed st ++ [TooManyFailures]),
                      rest)
              else loop total (i + 1) rest (progress i total st)
        end
  end.

(** What a run of [main] leaves behind. *)
Record run := Run {
  exit_status : Z;
  final : locals;
  unreached : list vector
}.

(** [main()], given the content of the fixture file if it exists. *)
Definition main (fixture : option (list vector)) : M run :=
  match fixture with
  | None => mret (Run 0 (Locals 0 0 [Starting; NotFound]) [])
  | Some vectors =>
      let total := Z.of_nat (length vectors) in
      '(st, rest) ← loop total 0 vectors (Locals 0 0 [Starting]);
      let out := printed st ++ [Complete total (passed st) (failed st)] in
      if failed st =? 0
      then mret (Run 0 (Locals (passed st) (failed st) (out ++ [PerfectParity])) rest)
      else mret (Run 1 (Locals (passed st) (failed st) out) rest)
  end.

(** What is observed of a finished run: exit status, the two counters and
    the vectors never reached ([None] if [main] raised). *)
Definition observed (o : outcome (run * store))
  : option (Z * Z * Z * list vector) :=
  match o with
  | Ret (r, _) =>
      Some (exit_status r, passed (final r), failed (final r), unreached r)
  | _ => None
  end.

End ParityMain.

(** ** The validator as the specification words it *)

Module ValidatorSpec.

Import ParityMain.

(** The comparison a vector stands for: [None] when the vector is not
    replayed at all, [Some true] on a match, [Some false] on a mismatch. *)
Definition verdict (v : vector) : option bool :=
  if negb (String.eqb (vulnerability v) "randstorm") then None
  else if bool_decide (engine v ∈ Parity.supported_engines)
       then Some (String.eqb (hexlify (PoolSpec.private_key (engine v) (timestamp_ms v)))
                             (expected_privkey_hex v))
       else None.

(** How many vectors of [vs] have the verdict [Some b]. *)
Fixpoint count_verdict (b : bool) (vs : list vector) : Z :=
  match vs with
  | [] => 0
  | v :: rest =>
      (if bool_decide (verdict v = Some b) then 1 else 0) + count_verdict b rest
  end.

(** The cumulative counts of mismatched and of matched vectors. *)
Definition mismatches (vs : list vector) : Z := count_verdict false vs.
Definition matches (vs : list vector) : Z := count_verdict true vs.

(** The rule of the specification's wording: a count of consecutive
    mismatches, starting from [run]; a mismatch adds one, a match resets
    the count to zero, a vector that is not replayed leaves it alone.  The
    result tells whether the count exceeds the threshold 5 at some vector. *)
Fixpoint consecutive_exceeds (run : Z) (vs : list vector) : bool :=
  match vs with
  | [] => false
  | v :: rest =>
      let run' := match verdict v with
                  | Some false => run + 1
                  | Some true => 0
                  | None => run
                  end in
      (5 <? run') || consecutive_exceeds run' rest
  end.

(** A fixture in which mismatches and matches alternate: the recorded
    key of [matching] is the key of ('v8', 1389781800000), the recorded
    key of [mismatching] is not. *)
Definition matching : vector :=
  Vector "randstorm" 1389781800000 "v8"
    "429af8f9ea831c01c7e9ce691a481a3c36944ad12ce8df113aad0118b5866943".

Definition mismatching : vector :=
  Vector "randstorm" 1389781800000 "v8"
    "0000000000000000000000000000000000000000000000000000000000000000".

Definition alternating : list vector :=
  [mismatching; matching; mismatching; matching; mismatching; matching;
   mismatching; matching; mismatching; matching; mismatching; matching].

End ValidatorSpec.

(** ** [scripts/generate_test_vectors_option_a.py]: the timestamp-hash derivation *)

(** Python floats are IEEE-754 binary64 numbers.  The only floats this
    script computes lie in [0, 65536] and are kept exactly, as dyadic
    rationals [mantissa / 2 ^ scale]. *)
Module Float.

Record t := Dyadic { mantissa : Z; scale : Z }.

(** [a / b] on integers with [0 <= a <= b], [0 < b < 2 ^ 53]: Python
    returns the binary64 number nearest to the exact quotient, ties going
    to the even significand.  For [a > 0] the significand is the quotient
    [a * 2 ^ e / b] rounded to an integer, where [e] is chosen so that it
    has 53 bits; no quotient of this range is subnormal. *)
Definition int_truediv (a b : Z) : outcome t :=
  if b =? 0 then Raise ZeroDivisionError
  else if a =? 0 then Ret (Dyadic 0 0)
  else
    let e0 := Z.log2 b - Z.log2 a + 52 in
    let e := if a * 2 ^ e0 / b <? 2 ^ 52 then e0 + 1 else e0 in
    let q := a * 2 ^ e / b in
    let r := (a * 2 ^ e) mod b in
    let m := if 2 * r <? b then q
             else if b <? 2 * r then q + 1
             else if Z.even q then q else q + 1 in
    Ret (Dyadic m e).

(** [x * k] for an integer power of two [k]: exact in binary64 as long as
    the product stays in the normal range. *)
Definition mul_pow2 (x : t) (k : Z) : t := Dyadic (mantissa x * k) (scale x).

(** [int(x)] for [x >= 0]: truncation. *)
Definition to_int (x : t) : Z := mantissa x / 2 ^ scale x.

(** The same computation on the primitive binary64 numbers of the proof
    assistant, against which the dyadic model is tested on sample seeds:
    [int((s / m) * k)] for integers below [2 ^ 63]. *)
Definition binary64_of_int (n : Z) : PrimFloat.float :=
  PrimFloat.of_uint63 (Uint63.of_Z n).

Definition binary64_to_int (x : PrimFloat.float) : Z :=
  match FloatOps.Prim2SF x with
  | SpecFloat.S754_zero _ => 0
  | SpecFloat.S754_finite false m e =>
      if 0 <=? e then Z.pos m * 2 ^ e else Z.pos m / 2 ^ (- e)
  | _ => -1
  end.

Definition binary64_scaled_quotient (s m k : Z) : Z :=
  binary64_to_int
    (PrimFloat.mul (PrimFloat.div (binary64_of_int s) (binary64_of_int m))
                   (binary64_of_int k)).

End Float.

Module VulnerablePRNG.

Definition MULTIPLIER : Z := 25214903917.
Definition INCREMENT : Z := 11.
Definition MODULUS : Z := Z.shiftl 1 48 - 1.

Record t := Build { seed : Z; timestamp_ms : Z }.

(** [__init__(self, timestamp_ms, sequence)] *)
Definition init (timestamp_ms sequence : Z) : t :=
  Build (Z.lxor timestamp_ms sequence) timestamp_ms.

(** [next_random(self)] *)
Definition next_random (self : t) : outcome (Float.t * t) :=
  let seed := Z.land (seed self * MULTIPLIER + INCREMENT) MODULUS in
  x ← Float.int_truediv seed MODULUS;
  Ret (x, Build seed (timestamp_ms self)).

(** [buf[lo:hi] = new] on a bytearray, for [0 <= lo <= hi <= len(buf)]. *)
Definition assign_slice (buf : list Z) (lo hi : nat) (new : list Z) : list Z :=
  take lo buf ++ new ++ drop hi buf.

(** One iteration of the [for i in range(3)] loop of [generate_entropy]. *)
Definition entropy_step (i : Z) (st : list Z * t) : outcome (list Z * t) :=
  let '(entropy, self) := st in
  '(x, self) ← next_random self;
  let rand_val := Float.to_int (Float.mul_pow2 x 65536) in
  bs ← to_bytes_little 8 rand_val;
  Ret (assign_slice entropy (Z.to_nat (8 + i * 8)) (Z.to_nat (8 + (i + 1) * 8)) bs,
       self).

(** [generate_entropy(self)] *)
Definition generate_entropy (self : t) : outcome (list Z * t) :=
  let entropy := replicate 32 0 in
  ts ← to_bytes_little 8 (timestamp_ms self);
  let entropy := assign_slice entropy 0 8 ts in
  '(entropy, self) ← for_each (range 0 3) entropy_step (entropy, self);
  entropy ← bytes_of_ints entropy;
  Ret (entropy, self).

Section hashlib.
(** [hashlib.sha256(data).digest()], from the Python standard library. *)
Variable sha256 : list Z -> list Z.

(** [derive_private_key(self)] *)
Definition derive_private_key (self : t) : outcome (list Z * t) :=
  '(entropy, self) ← generate_entropy self;
  Ret (sha256 entropy, self).

End hashlib.

End VulnerablePRNG.

(** ** The timestamp-hash derivation as the specification words it *)

Module TimestampHashSpec.

(** The 48-bit linear congruential step. *)
Definition lcg (s : Z) : Z := (s * 25214903917 + 11) mod 2 ^ 48.

(** The value a draw contributes: the generator state as a fraction of
    [2 ^ 48 - 1], a binary64 number, scaled by 65536 and truncated. *)
Definition draw_value (s : Z) : Z :=
  match Float.int_truediv s (2 ^ 48 - 1) with
  | Ret x => Float.to_int (Float.mul_pow2 x 65536)
  | _ => 0
  end.

(** Seeds on which the dyadic model is compared with binary64 arithmetic:
    the ends of the range, seeds whose quotient rounds up to a multiple of
    [1 / 65536] (of the form [k * 2 ^ 32 - 1]), and the first three states
    after the seed 1389781800000. *)
Definition sample_seeds : list Z :=
  [ 0; 1; 3; 2 ^ 47 - 1; 2 ^ 47; 2 ^ 47 + 1; 2 ^ 48 - 2; 2 ^ 48 - 1;
    65535 * 2 ^ 32 - 1; 65000 * 2 ^ 32 - 1; 64513 * 2 ^ 32 - 1;
    64512 * 2 ^ 32 - 1; 64511 * 2 ^ 32 - 1; 40000 * 2 ^ 32 - 1;
    12345678901234; 93824992236885;
    lcg 1389781800000; lcg (lcg 1389781800000);
    lcg (lcg (lcg 1389781800000)) ].

(** The 32-byte buffer: the 8-byte little-endian timestamp, then three
    successive draws of the generator seeded with [timestamp XOR sequence],
    each widened to 8 little-endian bytes. *)
Definition entropy_buffer (timestamp sequence : Z) : list Z :=
  let s1 := lcg (Z.lxor timestamp sequence) in
  let s2 := lcg s1 in
  let s3 := lcg s2 in
  PoolSpec.le_bytes 8 timestamp
  ++ PoolSpec.le_bytes 8 (draw_value s1)
  ++ PoolSpec.le_bytes 8 (draw_value s2)
  ++ PoolSpec.le_bytes 8 (draw_value s3).

(** The integer a run of little-endian bytes encodes. *)
Definition le_decode (bs : list Z) : Z :=
  foldr (fun b acc => b + 256 * acc) 0 bs.

(** The 8-byte block of [buf] at byte offset [off]. *)
Definition block (buf : list Z) (off : nat) : list Z := take 8 (drop off buf).

End TimestampHashSpec.

(** ** A reference for [hashlib.sha256]

    The theorems on [VulnerablePRNG.derive_private_key] hold for any hash
    function; this one instantiates it in examples.  It pads the message
    and iterates the compression function of [sim_sha.py] over the
    standard round-constant table. *)
Module Hashlib.

(** The big-endian bytes of [n] on [k] bytes. *)
Definition be_bytes (k : nat) (n : Z) : list Z :=
  rev (PoolSpec.le_bytes k n).

(** The 32-bit words of a byte string whose length is a multiple of 4. *)
Fixpoint be_words (fuel : nat) (bs : list Z) : list Z :=
  match fuel, bs with
  | S fuel', b0 :: b1 :: b2 :: b3 :: rest =>
      (((b0 * 256 + b1) * 256 + b2) * 256 + b3) :: be_words fuel' rest
  | _, _ => []
  end.

(** The 16-word blocks of a word list whose length is a multiple of 16. *)
Fixpoint blocks (fuel : nat) (ws : list Z) : list (list Z) :=
  match fuel, ws with
  | S fuel', _ :: _ => take 16 ws :: blocks fuel' (drop 16 ws)
  | _, _ => []
  end.

Definition pad (msg : list Z) : list Z :=
  let n := Z.of_nat (length msg) in
  msg ++ [128] ++ replicate (Z.to_nat ((55 - n) mod 64)) 0 ++ be_bytes 8 (8 * n).

Definition compress (state block : list Z) : list Z :=
  match SimSha.transform_with SimSha.K_standard state block with
  | Ret state' => state'
  | _ => state
  end.

Definition sha256 (msg : list Z) : list Z :=
  let padded := pad msg in
  let ws := be_words (length padded) padded in
  flat_map (be_bytes 4) (foldl compress SimSha.initial_state (blocks (length ws) ws)).

End Hashlib.

(** ** Printing: computations that write lines to standard output *)

Module IO.

(** A computation is run against the lines printed so far and returns the
    lines printed afterwards, also when it ends in an exception. *)
Definition t (A : Type) : Type := list string -> list string * outcome A.

Definition ret {A} (a : A) : t A := fun out => (out, Ret a).

Definition bind {A B} (m : t A) (k : A -> t B) : t B :=
  fun out =>
    match m out with
    | (out', Ret a) => k a out'
    | (out', Raise e) => (out', Raise e)
    | (out', Diverge) => (out', Diverge)
    end.

#[global] Instance io_ret : MRet t := @ret.
#[global] Instance io_bind : MBind t := fun _ _ k m => bind m k.

Definition lift {A} (m : outcome A) : t A := fun out => (out, m).

(** [print(s)] *)
Definition print (s : string) : t unit := fun out => (out ++ [s], Ret tt).

(** [for x in xs: s = body(x, s)] with output. *)
Fixpoint for_each {X S} (xs : list X) (body : X -> S -> t S) (s : S) : t S :=
  match xs with
  | [] => mret s
  | x :: xs' => s' ← body x s; for_each xs' body s'
  end.

(** [m] appends [text] to whatever was printed before and ends in [res]:
    what it prints and how it ends do not depend on the earlier output. *)
Definition writes {A} (m : t A) (text : list string) (res : outcome A) : Prop :=
  forall out, m out = (out ++ text, res).

(** [try: body  except <class>: handler], where the expression after
    [except] is evaluated only once [body] has raised; if that evaluation
    raises, its exception replaces the one being handled. *)
Definition try_except {A} (body : t A) (exc_class : outcome (exn -> bool))
    (handler : t A) : t A :=
  fun out =>
    match body out with
    | (out', Raise e) =>
        match exc_class with
        | Ret matches => if matches e then handler out' else (out', Raise e)
        | Raise e' => (out', Raise e')
        | Diverge => (out', Diverge)
        end
    | r => r
    end.

End IO.

(** ** [python-bloom-filter-util/bloom-util.py] *)

(** Modelled from the spec: the probabilistic set behind [BloomFilter] of the
    third-party package [pybloom_live], which is not part of the sources.
    The specification asks for a probabilistic set of byte strings built
    with a capacity and an error rate, without false negatives, that can be
    persisted to a blob and restored.  The model is the package's Bloom
    filter: a bit array of [num_slices * bits_per_slice] bits, one hash
    value per slice, an insertion count checked against the capacity.  The
    hash family and the two sizes the constructor derives from the
    capacity and the error rate are parameters. *)
Module BloomFilter.

Record params := Params {
  (** the hash values of a key, one per slice, for given sizes *)
  make_hashfuncs : nat -> nat -> list Z -> list nat;
  (** the sizes derived from a capacity and an error rate *)
  slices_for : Z -> nat;
  bits_per_slice_for : Z -> nat
}.

Record t := Build {
  capacity : Z;
  count : Z;
  num_slices : nat;
  bits_per_slice : nat;
  (** the indices of the bits that are set *)
  bitarray : gset nat
}.

Definition num_bits (bf : t) : nat := (num_slices bf * bits_per_slice bf)%nat.

(** [BloomFilter(capacity=..., error_rate=...)] *)
Definition create (p : params) (cap : Z) : t :=
  Build cap 0 (slices_for p cap) (bits_per_slice_for p cap) ∅.

(** [bitarray[i]] *)
Definition get_bit (bf : t) (i : nat) : outcome bool :=
  if bool_decide (i < num_bits bf)%nat
  then Ret (bool_decide (i ∈ bitarray bf))
  else Raise IndexError.

(** [bitarray[i] = True] *)
Definition set_bit (bf : t) (i : nat) : outcome t :=
  if bool_decide (i < num_bits bf)%nat
  then Ret (Build (capacity bf) (count bf) (num_slices bf) (bits_per_slice bf)
              ({[i]} ∪ bitarray bf))
  else Raise IndexError.

(** The loop of [add] over the hash values, slice by slice. *)
Fixpoint add_bits (hashes : list nat) (offset : nat) (found_all_bits : bool)
    (bf : t) : outcome (bool * t) :=
  match hashes with
  | [] => Ret (found_all_bits, bf)
  | k :: rest =>
      b ← get_bit bf (offset + k);
      let found := found_all_bits && b in
      bf ← set_bit bf (offset + k);
      add_bits rest (offset + bits_per_slice bf) found bf
  end.

(** [bf.add(key)]: the result tells whether the key was already there. *)
Definition add (p : params) (key : list Z) (bf : t) : outcome (bool * t) :=
  let hashes := make_hashfuncs p (num_slices bf) (bits_per_slice bf) key in
  if capacity bf <? count bf then Raise IndexError
  else
    '(found_all_bits, bf) ← add_bits hashes 0 true bf;
    if found_all_bits : bool then Ret (true, bf)
    else Ret (false, Build (capacity bf) (count bf + 1) (num_slices bf)
                       (bits_per_slice bf) (bitarray bf)).

(** The loop of [__contains__]. *)
Fixpoint check_bits (hashes : list nat) (offset : nat) (bf : t) : outcome bool :=
  match hashes with
  | [] => Ret true
  | k :: rest =>
      b ← get_bit bf (offset + k);
      if b : bool then check_bits rest (offset + bits_per_slice bf) bf else Ret false
  end.

(** [key in bf] *)
Definition contains (p : params) (key : list Z) (bf : t) : outcome bool :=
  check_bits (make_hashfuncs p (num_slices bf) (bits_per_slice bf) key) 0 bf.

(** A hash family is well formed when it returns one value per slice,
    each below the slice size. *)
Definition well_formed (p : params) : Prop :=
  forall ns bps key,
    length (make_hashfuncs p ns bps key) = ns /\
    Forall (fun k => (k < bps)%nat) (make_hashfuncs p ns bps key).

(** Two filters of the same geometry. *)
Definition same_sizes (a b : t) : Prop :=
  num_slices a = num_slices b /\ bits_per_slice a = bits_per_slice b.

(** The persisted form: the four numbers and the indices of the set
    bits. *)
Record blob := Blob {
  blob_header : list Z;
  blob_bits : list nat
}.

(** [pickle.dump(bf, f)] *)
Definition dump (bf : t) : blob :=
  Blob [capacity bf; count bf; Z.of_nat (num_slices bf); Z.of_nat (bits_per_slice bf)]
       (elements (bitarray bf)).

(** [pickle.load(f)] *)
Definition load (b : blob) : outcome t :=
  match blob_header b with
  | [cap; cnt; ns; bps] =>
      Ret (Build cap cnt (Z.to_nat ns) (Z.to_nat bps) (list_to_set (blob_bits b)))
  | _ => Raise UnpicklingError
  end.

End BloomFilter.

Module BloomUtil.

(** A file is text, read line by line or row by row, or a pickled filter. *)
Inductive file : Type :=
| Text (lines : list string)
| Csv (rows : list (list string))
| Pickle (b : BloomFilter.blob).

Abbreviation files := (gmap string file).

(** [str.strip()] on ASCII text. *)
Definition is_space (c : ascii) : bool :=
  let n := nat_of_ascii c in
  ((9 <=? n) && (n <=? 13) || (28 <=? n) && (n <=? 32))%nat.

Fixpoint lstrip (s : string) : string :=
  match s with
  | String c rest => if is_space c then lstrip rest else s
  | EmptyString => EmptyString
  end.

Fixpoint rstrip (s : string) : string :=
  match s with
  | String c rest =>
      match rstrip rest with
      | EmptyString => if is_space c then EmptyString else String c EmptyString
      | rest' => String c rest'
      end
  | EmptyString => EmptyString
  end.

Definition strip (s : string) : string := rstrip (lstrip s).

(** [str.encode()] on ASCII text. *)
Definition encode (s : string) : list Z :=
  map (fun c => Z.of_nat (nat_of_ascii c)) (list_ascii_of_string s).

Section with_library.
Variable lib : BloomFilter.params.

(** [open(name, 'r')] followed by iteration over the lines. *)
Definition read_lines (fs : files) (name : string) : outcome (list string) :=
  match fs !! name with
  | Some (Text lines) => Ret lines
  | Some _ => Raise ValueError
  | None => Raise FileNotFoundError
  end.

(** [open(name, 'rb')] followed by [pickle.load]. *)
Definition load_filter (fs : files) (name : string) : outcome BloomFilter.t :=
  match fs !! name with
  | Some (Pickle b) => BloomFilter.load b
  | Some _ => Raise UnpicklingError
  | None => Raise FileNotFoundError
  end.

(** [construct_bloom_filter(addresses_file, filter_file)]: the files
    afterwards. *)
Definition construct_bloom_filter (addresses_file filter_file : string)
    (fs : files) : IO.t files :=
  let bloom_filter := BloomFilter.create lib 1180626779 in
  lines ← IO.lift (read_lines fs addresses_file);
  bloom_filter ← IO.lift (for_each lines
    (fun line bf =>
       let address := strip line in
       '(_, bf) ← BloomFilter.add lib (encode address) bf; Ret bf)
    bloom_filter);
  let fs := <[filter_file := Pickle (BloomFilter.dump bloom_filter)]> fs in
  _ ← IO.print ("Bloom filter created and saved as " +:+ filter_file);
  mret fs.

(** [check_address(filter_file, address)] *)
Definition check_address (filter_file address : string) (fs : files)
  : IO.t bool :=
  bloom_filter ← IO.lift (load_filter fs filter_file);
  hit ← IO.lift (BloomFilter.contains lib (encode address) bloom_filter);
  if hit : bool then
    _ ← IO.print ("Address " +:+ address +:+ " is in the filter"); mret true
  else
    _ ← IO.print ("Address " +:+ address +:+ " is not in the filter"); mret false.

(** The names bound when the body of [check_address_csv] runs: its
    parameters and local variables, and the module-level names (imports,
    functions, and the variables of the [__main__] block). *)
Definition bound_names : list string :=
  [ "filter_file"; "address_csv_file"; "skip_lines"; "f"; "bloom_filter";
    "status_print_every"; "i"; "found"; "skip_lines_remaining"; "file";
    "csvreader"; "dataline"; "address_id"; "address";
    "argparse"; "hashlib"; "pickle"; "BloomFilter"; "csv"; "sys";
    "construct_bloom_filter"; "check_address"; "check_address_csv";
    "check_address_benchmark_bulk"; "parser"; "args"; "addresses" ].

(** The expression after [except]: a bare name.  A name that is bound
    nowhere raises [NameError]; none of the bound names is an exception
    class, so any other name raises [TypeError] when matched. *)
Definition except_name (name : string) : outcome (exn -> bool) :=
  if bool_decide (name ∈ bound_names) then Raise TypeError
  else Raise (NameError name).

(** The loop variables of [check_address_csv]. *)
Record counters := Counters {
  i : Z;
  found : Z;
  skip_lines_remaining : Z
}.

Definition status_print_every : Z := 10000000.

(** The [try] block: [address_id = dataline[0]; address = dataline[1]]. *)
Definition extract (dataline : list string) : outcome (option (string * string)) :=
  address_id ← getitem dataline 0;
  address ← getitem dataline 1;
  Ret (Some (address_id, address)).

(** The body of [for dataline in csvreader]. *)
Definition csv_row (bloom_filter : BloomFilter.t) (dataline : list string)
    (st : counters) : IO.t counters :=
  if 0 <? skip_lines_remaining st then
    mret (Counters (i st + 1) (found st) (skip_lines_remaining st - 1))
  else
    fields ← IO.try_except (IO.lift (extract dataline))
                (except_name "e")
                (_ ← IO.print "broken input, skipping"; mret None);
    match fields with
    | None => mret st
    | Some (address_id, address) =>
        hit ← IO.lift (BloomFilter.contains lib (encode address) bloom_filter);
        st ← (if hit : bool then
                _ ← IO.print (address_id +:+ "," +:+ address);
                mret (Counters (i st) (found st + 1) (skip_lines_remaining st))
              else mret st);
        let st := Counters (i st + 1) (found st) (skip_lines_remaining st) in
        if i st mod status_print_every =? 0 then
          _ ← IO.print ("read " +:+ str_of_int (i st) +:+ " lines"); mret st
        else mret st
    end.

(** [open(name, 'r')] followed by [csv.reader]. *)
Definition read_rows (fs : files) (name : string)
  : outcome (list (list string)) :=
  match fs !! name with
  | Some (Csv rows) => Ret rows
  | Some _ => Raise ValueError
  | None => Raise FileNotFoundError
  end.

(** The body of [check_address_csv(filter_file, address_csv_file,
    skip_lines)] around a given loop body. *)
Definition check_address_csv_with
    (row : BloomFilter.t -> list string -> counters -> IO.t counters)
    (filter_file address_csv_file : string) (skip_lines : Z) (fs : files)
  : IO.t unit :=
  bloom_filter ← IO.lift (load_filter fs filter_file);
  _ ← IO.print "unpickled bloom filter file";
  rows ← IO.lift (read_rows fs address_csv_file);
  st ← IO.for_each rows (row bloom_filter) (Counters 0 0 skip_lines);
  IO.print ("found " +:+ str_of_int (found st)
            +:+ " address hits in total against the bloom filter").

(** [check_address_csv] as the module defines it. *)
Definition check_address_csv := check_address_csv_with csv_row.

(** What the handler's comment and message describe: the same loop body
    with an [except] clause that catches the [IndexError] of a short row. *)
Definition csv_row_skipping (bloom_filter : BloomFilter.t)
    (dataline : list string) (st : counters) : IO.t counters :=
  if 0 <? skip_lines_remaining st then
    mret (Counters (i st + 1) (found st) (skip_lines_remaining st - 1))
  else
    fields ← IO.try_except (IO.lift (extract dataline))
                (Ret (fun e => true))
                (_ ← IO.print "broken input, skipping"; mret None);
    match fields with
    | None => mret st
    | Some (address_id, address) =>
        hit ← IO.lift (BloomFilter.contains lib (encode address) bloom_filter);
        st ← (if hit : bool then
                _ ← IO.print (address_id +:+ "," +:+ address);
                mret (Counters (i st) (found st + 1) (skip_lines_remaining st))
              else mret st);
        let st := Counters (i st + 1) (found st) (skip_lines_remaining st) in
        if i st mod status_print_every =? 0 then
          _ ← IO.print ("read " +:+ str_of_int (i st) +:+ " lines"); mret st
        else mret st
    end.

End with_library.

(** *** A small library instance and files for examples *)

(** Three slices of sixteen bits; the hash of a key in slice [k] is the
    sum of its bytes plus [7 * k], modulo the slice size. *)
Definition toy_library : BloomFilter.params :=
  BloomFilter.Params
    (fun ns bps key =>
       map (fun k : nat => ((Z.to_nat (foldr Z.add 0%Z key) + 7 * k) mod bps)%nat)
           (seq 0 ns))
    (fun _ => 3%nat)
    (fun _ => 16%nat).

Definition newline : string := String (ascii_of_nat 10) "".

Definition toy_files : files :=
  {[ "addresses.txt" := Text ["1A" +:+ newline; " 1B " +:+ newline];
     "rows.csv" := Csv [["1"; "1A"]; ["2"]; ["3"; "1B"]] ]}.

(** [toy_files] after [construct_bloom_filter] has written "filter.bin". *)
Definition toy_files_with_filter : files :=
  <["filter.bin" :=
      Pickle (BloomFilter.Blob [1180626779; 2; 3; 16]
                [26%nat; 32%nat; 2%nat; 25%nat; 33%nat; 3%nat])]> toy_files.

End BloomUtil.

(** ** [scripts/generate_ripemd160_wgsl.py]: the kernel source generator *)

Module RipemdGen.

(** One entry of a round's list: [(vars, r_left, s_left, r_right, s_right)]. *)
Record row := Row {
  vars : string;
  r_left : Z;
  s_left : Z;
  r_right : Z;
  s_right : Z
}.

(** One entry of [rounds]:
    [(round_name, f_left, k_left, f_right, k_right, round_data)]. *)
Record round_spec := Round {
  round_name : string;
  f_left : string;
  k_left : string;
  f_right : string;
  k_right : string;
  round_data : list row
}.

(** The module's table [rounds]. *)
Definition rounds : list round_spec :=
  [
    Round "round1" "F1" "0x00000000u" "F5" "0x50a28be6u"
      [
       Row "A,B,C,D,E" 0 11 5 8;
       Row "E,A,B,C,D" 1 14 14 9;
       Row "D,E,A,B,C" 2 15 7 9;
       Row "C,D,E,A,B" 3 12 0 11;
       Row "B,C,D,E,A" 4 5 9 13;
       Row "A,B,C,D,E" 5 8 2 15;
       Row "E,A,B,C,D" 6 7 11 15;
       Row "D,E,A,B,C" 7 9 4 5;
       Row "C,D,E,A,B" 8 11 13 7;
       Row "B,C,D,E,A" 9 13 6 7;
       Row "A,B,C,D,E" 10 14 15 8;
       Row "E,A,B,C,D" 11 15 8 11;
       Row "D,E,A,B,C" 12 6 1 14;
       Row "C,D,E,A,B" 13 7 10 14;
       Row "B,C,D,E,A" 14 9 3 12;
       Row "A,B,C,D,E" 15 8 12 6 ];
    Round "round2" "F2" "0x5a827999u" "F4" "0x5c4dd124u"
      [
       Row "E,A,B,C,D" 7 7 6 9;
       Row "D,E,A,B,C" 4 6 11 13;
       Row "C,D,E,A,B" 13 8 3 15;
       Row "B,C,D,E,A" 1 13 7 7;
       Row "A,B,C,D,E" 10 11 0 12;
       Row "E,A,B,C,D" 6 9 13 8;
       Row "D,E,A,B,C" 15 7 5 9;
       Row "C,D,E,A,B" 3 15 10 11;
       Row "B,C,D,E,A" 12 7 14 7;
       Row "A,B,C,D,E" 0 12 15 7;
       Row "E,A,B,C,D" 9 15 8 12;
       Row "D,E,A,B,C" 5 9 12 7;
       Row "C,D,E,A,B" 2 11 4 6;
       Row "B,C,D,E,A" 14 7 9 15;
       Row "A,B,C,D,E" 11 13 1 13;
       Row "E,A,B,C,D" 8 12 2 11 ];
    Round "round3" "F3" "0x6ed9eba1u" "F3" "0x6d703ef3u"
      [
       Row "D,E,A,B,C" 3 11 15 9;
       Row "C,D,E,A,B" 10 13 5 7;
       Row "B,C,D,E,A" 14 6 1 15;
       Row "A,B,C,D,E" 4 7 3 11;
       Row "E,A,B,C,D" 9 14 7 8;
       Row "D,E,A,B,C" 15 9 14 6;
       Row "C,D,E,A,B" 8 13 6 6;
       Row "B,C,D,E,A" 1 15 9 14;
       Row "A,B,C,D,E" 2 14 11 12;
       Row "E,A,B,C,D" 7 8 8 13;
       Row "D,E,A,B,C" 0 13 12 5;
       Row "C,D,E,A,B" 6 6 2 14;
       Row "B,C,D,E,A" 13 5 10 13;
       Row "A,B,C,D,E" 11 12 0 13;
       Row "E,A,B,C,D" 5 7 4 7;
       Row "D,E,A,B,C" 12 5 13 5 ];
    Round "round4" "F4" "0x8f1bbcdcu" "F2" "0x7a6d76e9u"
      [
       Row "C,D,E,A,B" 1 11 8 15;
       Row "B,C,D,E,A" 9 12 6 5;
       Row "A,B,C,D,E" 11 14 4 8;
       Row "E,A,B,C,D" 10 15 1 11;
       Row "D,E,A,B,C" 0 14 3 14;
       Row "C,D,E,A,B" 8 15 11 14;
       Row "B,C,D,E,A" 12 9 15 6;
       Row "A,B,C,D,E" 4 8 0 14;
       Row "E,A,B,C,D" 13 9 5 6;
       Row "D,E,A,B,C" 3 14 12 9;
       Row "C,D,E,A,B" 7 5 2 12;
       Row "B,C,D,E,A" 15 6 13 9;
       Row "A,B,C,D,E" 14 8 9 12;
       Row "E,A,B,C,D" 5 6 7 5;
       Row "D,E,A,B,C" 6 5 10 15;
       Row "C,D,E,A,B" 2 12 14 8 ];
    Round "round5" "F5" "0xa953fd4eu" "F1" "0x00000000u"
      [
       Row "B,C,D,E,A" 4 9 12 8;
       Row "A,B,C,D,E" 0 15 15 5;
       Row "E,A,B,C,D" 5 5 10 12;
       Row "D,E,A,B,C" 9 11 4 9;
       Row "C,D,E,A,B" 7 6 1 12;
       Row "B,C,D,E,A" 12 8 5 5;
       Row "A,B,C,D,E" 2 13 8 14;
       Row "E,A,B,C,D" 10 12 7 6;
       Row "D,E,A,B,C" 14 5 6 8;
       Row "C,D,E,A,B" 1 12 2 13;
       Row "B,C,D,E,A" 3 13 13 6;
       Row "A,B,C,D,E" 8 14 14 5;
       Row "E,A,B,C,D" 11 11 0 15;
       Row "D,E,A,B,C" 6 8 3 13;
       Row "C,D,E,A,B" 15 5 9 11;
       Row "B,C,D,E,A" 13 6 11 11 ]
  ].

(** The module's dictionary [f_functions], in insertion order. *)
Definition f_functions : list (string * string) :=
  [ ("F1", "(b ^ c ^ d)");
    ("F2", "((b & c) | ((~b) & d))");
    ("F3", "((b | (~c)) ^ d)");
    ("F4", "((b & d) | (c & (~d)))");
    ("F5", "(b ^ (c | (~d)))") ].

(** [d[key]] on a dictionary kept as an association list. *)
Fixpoint dict_get (d : list (string * string)) (key : string) : outcome string :=
  match d with
  | [] => Raise KeyError
  | (k, v) :: rest => if String.eqb k key then Ret v else dict_get rest key
  end.

(** ASCII case conversion. *)
Definition lower_char (c : ascii) : ascii :=
  let n := nat_of_ascii c in
  if ((65 <=? n) && (n <=? 90))%nat then ascii_of_nat (n + 32) else c.

Definition upper_char (c : ascii) : ascii :=
  let n := nat_of_ascii c in
  if ((97 <=? n) && (n <=? 122))%nat then ascii_of_nat (n - 32) else c.

(** [s.lower()] *)
Fixpoint lower (s : string) : string :=
  match s with
  | EmptyString => EmptyString
  | String c rest => String (lower_char c) (lower rest)
  end.

(** [s.capitalize()] *)
Definition capitalize (s : string) : string :=
  match s with
  | EmptyString => EmptyString
  | String c rest => String (upper_char c) (lower rest)
  end.

(** [s.split(sep)] for a one-character separator. *)
Fixpoint split (sep : ascii) (s : string) : list string :=
  match s with
  | EmptyString => [EmptyString]
  | String c rest =>
      if Ascii.eqb c sep then EmptyString :: split sep rest
      else match split sep rest with
           | piece :: pieces => String c piece :: pieces
           | [] => [String c EmptyString]
           end
  end.

(** [s.replace(old, new)] for a non-empty [old]: occurrences are replaced
    from left to right without overlap; [skip] counts the characters of
    an occurrence still to be passed over. *)
Fixpoint replace_from (old new : string) (skip : nat) (s : string) : string :=
  match s with
  | EmptyString => EmptyString
  | String c rest =>
      match skip with
      | S k => replace_from old new k rest
      | O =>
          if String.prefix old s
          then new +:+ replace_from old new (String.length old - 1) rest
          else String c (replace_from old new 0 rest)
      end
  end.

(** With an empty [old], [new] is inserted before every character and at
    the end. *)
Fixpoint intersperse (new s : string) : string :=
  match s with
  | EmptyString => new
  | String c rest => new +:+ String c (intersperse new rest)
  end.

Definition replace (old new s : string) : string :=
  match old with
  | EmptyString => intersperse new s
  | _ => replace_from old new 0 s
  end.

(** ['\n'.join(lines)] *)
Definition newline : string := String (ascii_of_nat 10) "".

Fixpoint join (sep : string) (pieces : list string) : string :=
  match pieces with
  | [] => EmptyString
  | [p] => p
  | p :: rest => p +:+ sep +:+ join sep rest
  end.

(** [apply_func(func_expr, var_map)]: every key becomes a placeholder,
    then every placeholder its value, both in the order of the keys. *)
Definition apply_func (func_expr : string) (var_map : list (string * string))
  : string :=
  let result :=
    foldl (fun result kv => replace kv.1 ("___" +:+ kv.1 +:+ "___") result)
          func_expr var_map in
  foldl (fun result kv => replace ("___" +:+ kv.1 +:+ "___") kv.2 result)
        result var_map.

(** [a, b, c, d, e = ...] *)
Definition unpack5 (l : list string)
  : outcome (string * string * string * string * string) :=
  match l with
  | [a; b; c; d; e] => Ret (a, b, c, d, e)
  | _ => Raise ValueError
  end.

(** The body of the loop of [generate_round] over [round_data]: the two
    lines a row appends. *)
Definition generate_row (f_left k_left f_right k_right : string) (rw : row)
    (lines : list string) : outcome (list string) :=
  let vars_list := split "," (vars rw) in
  '(a, b, c, d, e) ← unpack5 (map lower vars_list);
  '(ap, bp, cp, dp, ep) ← unpack5 (map (fun v => lower v +:+ "p") vars_list);
  fl ← dict_get f_functions f_left;
  let f_left_expr := apply_func fl [("b", b); ("c", c); ("d", d)] in
  fr ← dict_get f_functions f_right;
  let f_right_expr := apply_func fr [("b", bp); ("c", cp); ("d", dp)] in
  let left_line :=
    "    " +:+ a +:+ " += " +:+ f_left_expr +:+ " + block["
    +:+ str_of_int (r_left rw) +:+ "] + " +:+ k_left +:+ "; " +:+ a
    +:+ " = rol(" +:+ a +:+ ", " +:+ str_of_int (s_left rw) +:+ "u) + " +:+ e
    +:+ "; " +:+ c +:+ " = rol(" +:+ c +:+ ", 10u);" in
  let right_line :=
    "    " +:+ ap +:+ " += " +:+ f_right_expr +:+ " + block["
    +:+ str_of_int (r_right rw) +:+ "] + " +:+ k_right +:+ "; " +:+ ap
    +:+ " = rol(" +:+ ap +:+ ", " +:+ str_of_int (s_right rw) +:+ "u) + " +:+ ep
    +:+ "; " +:+ cp +:+ " = rol(" +:+ cp +:+ ", 10u);" in
  Ret (lines ++ [left_line; right_line]).

(** [generate_round(round_name, f_left, k_left, f_right, k_right, round_data)] *)
Definition generate_round (r : round_spec) : outcome string :=
  let lines :=
    ["    // " +:+ capitalize (round_name r) +:+ ": " +:+ f_left r
     +:+ " left, " +:+ f_right r +:+ " right"] in
  lines ← for_each (round_data r)
            (generate_row (f_left r) (k_left r) (f_right r) (k_right r)) lines;
  Ret (join newline lines).

(** The text [( *state)[k]] of the generated code. *)
Definition state_at (k : string) : string := "(" +:+ "*state)[" +:+ k +:+ "]".

(** The statements at module level: the generator run on a table. *)
Definition generate (table : list round_spec) : IO.t unit :=
  _ ← IO.print ("fn ripemd160_transform(state: ptr<function, array<u32, 5>>, "
                +:+ "block: array<u32, 16>) {");
  _ ← IO.print ("    var a = " +:+ state_at "0" +:+ "; var b = " +:+ state_at "1"
                +:+ "; var c = " +:+ state_at "2" +:+ "; var d = " +:+ state_at "3"
                +:+ "; var e = " +:+ state_at "4" +:+ ";");
  _ ← IO.print "    var ap = a; var bp = b; var cp = c; var dp = d; var ep = e;";
  _ ← IO.print "";
  _ ← IO.for_each table
        (fun r _ =>
           text ← IO.lift (generate_round r);
           _ ← IO.print text;
           IO.print "") tt;
  _ ← IO.print ("    let h0 = " +:+ state_at "0" +:+ ";");
  _ ← IO.print ("    let h1 = " +:+ state_at "1" +:+ ";");
  _ ← IO.print ("    let h2 = " +:+ state_at "2" +:+ ";");
  _ ← IO.print ("    let h3 = " +:+ state_at "3" +:+ ";");
  _ ← IO.print ("    let h4 = " +:+ state_at "4" +:+ ";");
  _ ← IO.print "    ";
  _ ← IO.print ("    " +:+ state_at "0" +:+ " = h1 + c + dp;");
  _ ← IO.print ("    " +:+ state_at "1" +:+ " = h2 + d + ep;");
  _ ← IO.print ("    " +:+ state_at "2" +:+ " = h3 + e + ap;");
  _ ← IO.print ("    " +:+ state_at "3" +:+ " = h4 + a + bp;");
  _ ← IO.print ("    " +:+ state_at "4" +:+ " = h0 + b + cp;");
  IO.print "}".

(** The first three lines of the text printed for the first round of
    [rounds], and the first line of the second row (variable order
    [E,A,B,C,D]). *)
Definition round1_head : list string :=
  [ "    // Round1: F1 left, F5 right";
    "    a += (b ^ c ^ d) + block[0] + 0x00000000u; a = rol(a, 11u) + e; c = rol(c, 10u);";
    "    ap += (bp ^ (cp | (~dp))) + block[5] + 0x50a28be6u; ap = rol(ap, 8u) + ep; cp = rol(cp, 10u);";
    "    e += (a ^ b ^ c) + block[1] + 0x00000000u; e = rol(e, 14u) + d; b = rol(b, 10u);" ].

End RipemdGen.

(** ** [tests/validate_parity.py]: runs of the generators and of the cipher *)

Module ParityRuns.

(** The instance after [n] calls of [V8Mwc1616.next_u16]. *)
Fixpoint v8_after (n : nat) (self : V8Mwc1616.t) : V8Mwc1616.t :=
  match n with
  | O => self
  | S n' => v8_after n' (V8Mwc1616.next_u16 self).2
  end.

(** One call of the C runtime's [rand()] as [SafariCrt.next_u16] inlines it
    twice ("First call", "Second call"): the new state and its bits 16..30. *)
Definition crt_rand (state : Z) : Z * Z :=
  let state := Z.land (state * 214013 + 2531011) 0xFFFFFFFF in
  (Z.land (Z.shiftr state 16) 0x7FFF, state).

(** [n] successive calls of [ARC4.next_byte]: the bytes returned and the
    instance afterwards. *)
Fixpoint next_bytes (n : nat) (self : ARC4.t) : outcome (list Z * ARC4.t) :=
  match n with
  | O => Ret ([], self)
  | S n' =>
      '(b, self) ← ARC4.next_byte self;
      '(bs, self) ← next_bytes n' self;
      Ret (b :: bs, self)
  end.

(** The number of low bits of the timestamp that reach the generator of an
    engine: [V8Mwc1616] reads 64 bits, [JavaLcg] 48, [SafariCrt] 32. *)
Definition seed_bits (engine : string) : Z :=
  if String.eqb engine "v8" then 64
  else if String.eqb engine "safari-win" then 32
  else 48.

End ParityRuns.

(** ** [scripts/generate_test_vectors_option_a.py]: the vector list *)

(** Printed text is kept as the UTF-8 bytes of the source's literals. *)
Module OptionA.

(** [s * n] on a string. *)
Fixpoint str_times (s : string) (n : nat) : string :=
  match n with
  | O => EmptyString
  | S k => s +:+ str_times s k
  end.

Definition newline : string := String (ascii_of_nat 10) "".

(** One entry of [vectors]: [(i, timestamp_ms, private_key, private_key.hex())]. *)
Record vector := Vector {
  index : Z;
  timestamp_ms : Z;
  private_key : list Z;
  private_key_hex : string
}.

Definition base_timestamp_ms : Z := 1389781800000.

Section hashlib.
Variable sha256 : list Z -> list Z.

(** The body of [for i in range(count)]. *)
Definition vector_step (i : Z) (vectors : list vector) : IO.t (list vector) :=
  let timestamp_ms := base_timestamp_ms + i * 100 in
  let prng := VulnerablePRNG.init timestamp_ms i in
  '(private_key, prng) ← IO.lift (VulnerablePRNG.derive_private_key sha256 prng);
  let vectors :=
    vectors ++ [Vector i timestamp_ms private_key (ParityMain.hexlify private_key)] in
  if (i mod 100 =? 0) && (0 <? i) then
    _ ← IO.print ("  ✓ Generated " +:+ str_of_int i +:+ " keys..."); mret vectors
  else mret vectors.

(** [generate_test_vectors(count)] *)
Definition generate_test_vectors (count : Z) : IO.t (list vector) :=
  _ ← IO.print "🔬 Generating Randstorm Test Vectors";
  _ ← IO.print (str_times "═" 60);
  _ ← IO.print (newline +:+ "📊 Generating " +:+ str_of_int count
                +:+ " test keys..." +:+ newline);
  vectors ← IO.for_each (range 0 count) vector_step [];
  _ ← IO.print (newline +:+ "✅ Generated " +:+ str_of_int count
                +:+ " vulnerable test keys");
  mret vectors.

(** The vector with index [i]: its timestamp is [i] steps of 100 ms after
    the base, its key the hash of the buffer of [generate_entropy]. *)
Definition vector_at (i : Z) : vector :=
  let ts := base_timestamp_ms + 100 * i in
  let key := sha256 (TimestampHashSpec.entropy_buffer ts i) in
  Vector i ts key (ParityMain.hexlify key).

(** The progress lines printed while the indices [xs] are processed. *)
Definition progress_lines (xs : list Z) : list string :=
  map (fun i => "  ✓ Generated " +:+ str_of_int i +:+ " keys...")
      (filter (fun i => i mod 100 = 0 /\ 0 < i) xs).

End hashlib.

End OptionA.

(** ** [bloom-util.py]: the bulk lookup *)

Module BloomBulk.

Section with_library.
Variable lib : BloomFilter.params.

(** [check_address_benchmark_bulk(filter_file, addresses)] *)
Definition check_address_benchmark_bulk (filter_file : string)
    (addresses : list string) (fs : BloomUtil.files) : IO.t unit :=
  bloom_filter ← IO.lift (BloomUtil.load_filter fs filter_file);
  IO.for_each addresses
    (fun address _ =>
       hit ← IO.lift (BloomFilter.contains lib (BloomUtil.encode address) bloom_filter);
       if hit : bool then IO.print ("Address " +:+ address +:+ " is in the filter")
       else IO.print ("Address " +:+ address +:+ " is not in the filter")) tt.

End with_library.

(** A CSV row with at least two fields: the id, the address, the rest. *)
Record entry := Entry {
  address_id : string;
  address : string;
  more_fields : list string
}.

Definition dataline (e : entry) : list string :=
  address_id e :: address e :: more_fields e.

End BloomBulk.

(** ** [generate_ripemd160_wgsl.py]: what [apply_func] computes *)

Module RipemdSubst.

Definition underscore : ascii := "_"%char.

(** The keys of the variable maps that [generate_round] passes. *)
Definition is_var (c : ascii) : bool :=
  Ascii.eqb c "b" || Ascii.eqb c "c" || Ascii.eqb c "d".

(** No underscore occurs in [s]. *)
Fixpoint no_underscore (s : string) : bool :=
  match s with
  | EmptyString => true
  | String c rest => negb (Ascii.eqb c underscore) && no_underscore rest
  end.

(** No underscore occurs in [s] and no two of the letters b, c, d stand
    next to each other. *)
Fixpoint separated (s : string) : bool :=
  match s with
  | EmptyString => true
  | String c rest =>
      negb (Ascii.eqb c underscore)
      && (if is_var c
          then match rest with
               | String c' _ => negb (is_var c')
               | EmptyString => true
               end
          else true)
      && separated rest
  end.

(** A text rewritten character by character. *)
Fixpoint char_map (f : ascii -> string) (s : string) : string :=
  match s with
  | EmptyString => EmptyString
  | String c rest => f c +:+ char_map f rest
  end.

(** The simultaneous substitution of [vb], [vc], [vd] for the letters
    b, c, d. *)
Definition simultaneous (vb vc vd : string) (s : string) : string :=
  char_map (fun c => if Ascii.eqb c "b" then vb
                     else if Ascii.eqb c "c" then vc
                     else if Ascii.eqb c "d" then vd
                     else String c EmptyString) s.

(** The intermediate texts of [apply_func], piece by piece: a character
    that is no key, the placeholder of a key, or a value already put in. *)
Inductive token : Type :=
| Lit (c : ascii)
| Hole (x : ascii)
| Val (v : string).

Definition placeholder (x : ascii) : string :=
  "___" +:+ String x "___".

Definition render_token (t : token) : string :=
  match t with
  | Lit c => String c EmptyString
  | Hole x => placeholder x
  | Val v => v
  end.

Fixpoint render (ts : list token) : string :=
  match ts with
  | [] => EmptyString
  | t :: rest => render_token t +:+ render rest
  end.

(** The text after the first pass. *)
Definition tokens (s : string) : list token :=
  map (fun c => if is_var c then Hole c else Lit c) (list_ascii_of_string s).

(** One replacement of the second pass. *)
Definition fill (y : ascii) (v : string) (ts : list token) : list token :=
  map (fun t => match t with
                | Hole x => if Ascii.eqb x y then Val v else t
                | _ => t
                end) ts.

(** A placeholder is followed by a character that is neither a key nor an
    underscore, or by nothing. *)
Fixpoint well_spaced (ts : list token) : Prop :=
  match ts with
  | [] => True
  | Lit c :: rest => is_var c = false /\ c <> underscore /\ well_spaced rest
  | Val v :: rest => no_underscore v = true /\ well_spaced rest
  | Hole x :: rest =>
      is_var x = true /\
      match rest with
      | [] | Lit _ :: _ => True
      | _ => False
      end /\
      well_spaced rest
  end.

End RipemdSubst.

(** * Lemmas on the Python runtime *)

Section py_lists.
Context {A : Type}.
Implicit Types (l : list A) (i : Z).

Lemma getitem_lookup l i x :
  0 <= i -> l !! Z.to_nat i = Some x -> getitem l i = Ret x.
Proof.
  intros Hi Hl. unfold getitem.
  assert (Hlt : (Z.to_nat i < length l)%nat) by (eapply lookup_lt_Some; eauto).
  destruct (Z.ltb_spec i 0); [lia|].
  destruct (Z.leb_spec 0 i); [|lia].
  destruct (Z.ltb_spec i (Z.of_nat (length l))); [|lia].
  simpl. by rewrite Hl.
Qed.

Lemma setitem_insert l i x :
  0 <= i < Z.of_nat (length l) -> setitem l i x = Ret (<[Z.to_nat i := x]> l).
Proof.
  intros Hi. unfold setitem.
  destruct (Z.ltb_spec i 0); [lia|].
  destruct (Z.leb_spec 0 i); [|lia].
  destruct (Z.ltb_spec i (Z.of_nat (length l))); [|lia].
  done.
Qed.

End py_lists.

Lemma getitem_zget (l : list Z) (i : Z) :
  0 <= i < Z.of_nat (length l) -> getitem l i = Ret (PoolSpec.zget l i).
Proof.
  intros Hi. unfold PoolSpec.zget.
  destruct (l !! Z.to_nat i) as [x|] eqn:E.
  - simpl. apply getitem_lookup; [lia|done].
  - apply lookup_ge_None in E. lia.
Qed.

Lemma range_length lo hi : length (range lo hi) = Z.to_nat (hi - lo).
Proof. unfold range. by rewrite length_map, length_seq. Qed.

Lemma range_lookup lo hi (k : nat) :
  (k < Z.to_nat (hi - lo))%nat -> range lo hi !! k = Some (lo + Z.of_nat k).
Proof.
  intros Hk. unfold range. rewrite list_lookup_fmap.
  rewrite lookup_seq_lt by done. done.
Qed.

Lemma for_each_app {X S} (xs ys : list X) (body : X -> S -> outcome S) s :
  for_each (xs ++ ys) body s = (s' ← for_each xs body s; for_each ys body s').
Proof.
  revert s. induction xs as [|x xs IH]; intros s; simpl; [done|].
  destruct (body x s); simpl; auto.
Qed.

(** A loop whose body never raises is a left fold. *)
Lemma for_each_foldl {X S} (xs : list X) (body : X -> S -> outcome S)
    (f : S -> X -> S) (P : S -> Prop) s :
  (forall x s, x ∈ xs -> P s -> body x s = Ret (f s x) /\ P (f s x)) ->
  P s ->
  for_each xs body s = Ret (foldl f s xs) /\ P (foldl f s xs).
Proof.
  revert s. induction xs as [|x xs IH]; intros s Hb Hs; simpl; [done|].
  destruct (Hb x s) as [-> HP]; [left|done|]. simpl.
  apply IH; [|done]. intros y s' Hy. apply Hb. by right.
Qed.



(** ** The 256-bit reference transform *)

(** C6 (evaluated on the code): on the standard initial state and the
    padded one-block message "abc" (word 0 = 0x61626380, word 15 = 24, the
    rest 0), [transform] leaves
    eee0f556 6b6773b7 c4405139 5dae2203 5f365f9d 491eac7d 38108fc4 f200158d
    in [state], which is not the canonical digest ba7816bf ... f20015ad.
    The table [K] holds 0x90beffda at index 60 where the standard has
    0x90befffa; with that one entry restored the same code yields the
    canonical digest. *)
Theorem transform_abc_not_canonical :
  SimSha.abc_block
    = [0x61626380; 0; 0; 0; 0; 0; 0; 0; 0; 0; 0; 0; 0; 0; 0; 24] /\
  SimSha.transform SimSha.initial_state SimSha.abc_block
    = Ret [0xeee0f556; 0x6b6773b7; 0xc4405139; 0x5dae2203;
           0x5f365f9d; 0x491eac7d; 0x38108fc4; 0xf200158d] /\
  SimSha.transform SimSha.initial_state SimSha.abc_block
    <> Ret SimSha.abc_digest /\
  SimSha.K !! 60%nat = Some 0x90beffda /\
  SimSha.transform_with SimSha.K_standard SimSha.initial_state SimSha.abc_block
    = Ret SimSha.abc_digest.
Proof.
  split; [reflexivity|].
  split; [vm_compute; reflexivity|].
  split; [vm_compute; discriminate|].
  split; [reflexivity|].
  vm_compute; reflexivity.
Qed.

(** * The stream cipher: the code agrees with the total specification *)


Lemma wf_table_zget s i :
  PoolSpec.wf_table s -> 0 <= i < 256 -> 0 <= PoolSpec.zget s i < 256.
Proof.
  intros [Hlen Hall] Hi. unfold PoolSpec.zget.
  destruct (s !! Z.to_nat i) as [x|] eqn:E; simpl.
  - eapply Forall_lookup_1 in Hall; eauto.
  - lia.
Qed.

Lemma wf_table_zset s i x :
  PoolSpec.wf_table s -> 0 <= x < 256 -> PoolSpec.wf_table (PoolSpec.zset s i x).
Proof.
  intros [Hlen Hall] Hx. unfold PoolSpec.zset. split.
  - by rewrite length_insert.
  - by apply Forall_insert.
Qed.

Lemma wf_table_identity : PoolSpec.wf_table (range 0 256).
Proof.
  split; [by rewrite range_length|].
  apply Forall_forall. intros x Hx. unfold range in Hx.
  apply list_elem_of_fmap in Hx as (k & -> & Hk).
  apply elem_of_seq in Hk. lia.
Qed.

Lemma swap_total s i j :
  PoolSpec.wf_table s -> 0 <= i < 256 -> 0 <= j < 256 ->
  ARC4.swap s i j = Ret (PoolSpec.swap s i j) /\ PoolSpec.wf_table (PoolSpec.swap s i j).
Proof.
  intros Hwf Hi Hj. pose proof Hwf as [Hlen _].
  unfold ARC4.swap, PoolSpec.swap.
  rewrite (getitem_zget s j) by lia. simpl.
  rewrite (getitem_zget s i) by lia. simpl.
  rewrite setitem_insert by lia. simpl.
  rewrite setitem_insert by (rewrite length_insert; lia).
  split; [done|].
  apply wf_table_zset; [apply wf_table_zset|]; auto using wf_table_zget.
Qed.

Lemma init_step_total key s j i :
  key <> [] -> PoolSpec.wf_table s -> 0 <= i < 256 ->
  ARC4.init_step key i (s, j) = Ret (PoolSpec.ksa_step key (s, j) i) /\
  PoolSpec.wf_table (PoolSpec.ksa_step key (s, j) i).1.
Proof.
  intros Hkey Hwf Hi. pose proof Hwf as [Hlen _].
  assert (Hk : 0 < Z.of_nat (length key)) by (destruct key; simpl in *; [done|lia]).
  unfold ARC4.init_step, PoolSpec.ksa_step, ARC4.pymod. simpl.
  rewrite (getitem_zget s i) by lia. simpl.
  destruct (Z.eqb_spec (Z.of_nat (length key)) 0); [lia|]. simpl.
  rewrite (getitem_zget key) by (apply Z.mod_pos_bound; lia). simpl.
  set (j' := (j + _ + _) mod 256).
  assert (0 <= j' < 256) by (apply Z.mod_pos_bound; lia).
  destruct (swap_total s i j') as [-> Hwf']; auto.
Qed.

Lemma init_total key :
  key <> [] ->
  ARC4.init key = Ret (ARC4.Build (PoolSpec.ksa key) 0 0) /\
  PoolSpec.wf_table (PoolSpec.ksa key).
Proof.
  intros Hkey. unfold ARC4.init, PoolSpec.ksa.
  destruct (for_each_foldl (range 0 256) (ARC4.init_step key)
              (PoolSpec.ksa_step key) (fun sj => PoolSpec.wf_table sj.1) (range 0 256, 0))
    as [-> Hwf].
  - intros i [s j] Hin Hs. simpl in Hs.
    apply init_step_total; auto.
    unfold range in Hin. apply list_elem_of_fmap in Hin as (k & -> & Hk).
    apply elem_of_seq in Hk. lia.
  - simpl. apply wf_table_identity.
  - destruct (foldl _ _ _) as [s j]. done.
Qed.

Lemma next_byte_total a :
  PoolSpec.wf_table (ARC4.s a) ->
  let i := (ARC4.i a + 1) mod 256 in
  let j := (ARC4.j a + PoolSpec.zget (ARC4.s a) i) mod 256 in
  let s := PoolSpec.swap (ARC4.s a) i j in
  let out := PoolSpec.zget s ((PoolSpec.zget s i + PoolSpec.zget s j) mod 256) in
  ARC4.next_byte a = Ret (out, ARC4.Build s i j) /\
  PoolSpec.wf_table s /\ 0 <= out < 256.
Proof.
  intros Hwf i j s out. pose proof Hwf as [Hlen _].
  assert (Hi : 0 <= i < 256) by (apply Z.mod_pos_bound; lia).
  assert (Hj : 0 <= j < 256) by (apply Z.mod_pos_bound; lia).
  destruct (swap_total (ARC4.s a) i j) as [Hsw Hwf']; auto.
  assert (Hlen' : length s = 256%nat) by apply Hwf'.
  unfold ARC4.next_byte. fold i.
  rewrite (getitem_zget (ARC4.s a) i) by lia. simpl. fold j.
  rewrite Hsw. simpl. fold s.
  rewrite (getitem_zget s i) by lia. simpl.
  rewrite (getitem_zget s j) by lia. simpl.
  rewrite (getitem_zget s) by (rewrite Hlen'; apply Z.mod_pos_bound; lia). simpl.
  split; [done|]. split; [done|].
  apply wf_table_zget; [done|]. apply Z.mod_pos_bound; lia.
Qed.

(** * Method calls on a freshly created object *)

Lemma call_fresh {A} (h : Store.store) (o : Store.instance)
    (method : Store.instance -> outcome (A * Store.instance)) :
  Store.call (length h) method (h ++ [o]) =
    match method o with
    | Ret (a, o') => Ret (a, h ++ [o'])
    | Raise e => Raise e
    | Diverge => Diverge
    end.
Proof.
  unfold Store.call.
  rewrite lookup_app_r by lia. rewrite Nat.sub_diag. simpl.
  destruct (method o) as [[a o']| |]; try done.
  rewrite insert_app_r_alt by lia. rewrite Nat.sub_diag. done.
Qed.

Lemma M_bind_run {A B} (m : Store.M A) (k : A -> Store.M B) h a h' :
  m h = Ret (a, h') -> (m ≫= k) h = k a h'.
Proof. intros E. unfold mbind, Store.M_bind, Store.bind. by rewrite E. Qed.

Lemma lift_run {A} (o : outcome A) (a : A) (h : Store.store) :
  o = Ret a -> Store.lift o h = Ret (a, h).
Proof. by intros ->. Qed.

Lemma new_run (o : Store.instance) (h : Store.store) :
  Store.new o h = Ret (length h, h ++ [o]).
Proof. done. Qed.

Lemma land_255 v : Z.land v 0xFF = v mod 256.
Proof. change 0xFF with (Z.ones 8). by rewrite Z.land_ones by lia. Qed.

Lemma shiftr_8_land v : Z.land (Z.shiftr v 8) 0xFF = (v / 256) mod 256.
Proof. rewrite land_255. by rewrite Z.shiftr_div_pow2 by lia. Qed.

Section fill_pool.
Variables (St : Type) (inj : St -> Store.instance) (nx : St -> Z * St).
Hypothesis next_inj :
  forall st, Store.next_u16 (inj st) = Ret ((nx st).1, inj (nx st).2).

(** From an even-sized pool, [m] more generator outputs complete the 256
    bytes, and the loop needs [m + 1] tests of its condition. *)
Lemma fill_pool_run (m : nat) :
  forall (fuel : nat) (pool : list Z) (st : St) (h : Store.store),
    (length pool + 2 * m = 256)%nat -> (m < fuel)%nat ->
    exists st',
      Parity.fill_pool fuel (length h) pool (h ++ [inj st]) =
        Ret (pool ++ flat_map (fun v => [(v / 256) mod 256; v mod 256])
                       (PoolSpec.outputs nx m st),
             h ++ [inj st']).
Proof.
  induction m as [|m IH]; intros fuel pool st h Hlen Hfuel.
  - destruct fuel as [|fuel]; [lia|]. simpl.
    destruct (Z.ltb_spec (Z.of_nat (length pool)) 256); [lia|].
    exists st. by rewrite app_nil_r.
  - destruct fuel as [|fuel]; [lia|]. simpl.
    destruct (Z.ltb_spec (Z.of_nat (length pool)) 256); [|lia].
    unfold mbind, Store.M_bind, Store.bind.
    rewrite call_fresh, next_inj.
    destruct (nx st) as [v st1] eqn:Hnx. simpl.
    rewrite length_app. simpl.
    destruct (Z.ltb_spec (Z.of_nat (length pool + 1)) 256); [|lia].
    destruct (IH fuel ((pool ++ [Z.land (Z.shiftr v 8) 255]) ++ [Z.land v 255]) st1 h)
      as [st' ->]; [rewrite !length_app; simpl; lia|lia|].
    exists st'. rewrite shiftr_8_land, land_255.
    by rewrite <- !app_assoc.
Qed.

End fill_pool.

Lemma keystream_run (n : nat) :
  forall (a : ARC4.t) (h : Store.store),
    PoolSpec.wf_table (ARC4.s a) ->
    exists a',
      Parity.keystream n (length h) (h ++ [Store.Arc4 a]) =
        Ret (PoolSpec.prga n (ARC4.s a) (ARC4.i a) (ARC4.j a),
             h ++ [Store.Arc4 a']) /\
      Forall (fun x => 0 <= x < 256)
             (PoolSpec.prga n (ARC4.s a) (ARC4.i a) (ARC4.j a)).
Proof.
  induction n as [|n IH]; intros a h Hwf.
  - exists a. done.
  - simpl. unfold mbind, Store.M_bind, Store.bind.
    rewrite call_fresh. unfold Store.next_byte.
    pose proof (next_byte_total a Hwf) as Hnb. cbv zeta in Hnb.
    set (i1 := (ARC4.i a + 1) mod 256) in *.
    set (j1 := (ARC4.j a + PoolSpec.zget (ARC4.s a) i1) mod 256) in *.
    set (s1 := PoolSpec.swap (ARC4.s a) i1 j1) in *.
    destruct Hnb as (-> & Hwf' & Hout). simpl.
    destruct (IH (ARC4.Build s1 i1 j1) h Hwf') as (a' & -> & Hall). simpl.
    exists a'. split; [done|]. by constructor.
Qed.

(** * Key extraction: [derive_privkey_python] against the specification *)

Lemma shiftr_land_byte ts (k : nat) :
  Z.land (Z.shiftr ts (8 * Z.of_nat k)) 0xFF = (ts / 256 ^ Z.of_nat k) mod 256.
Proof.
  rewrite land_255, Z.shiftr_div_pow2 by lia.
  replace (2 ^ (8 * Z.of_nat k)) with (256 ^ Z.of_nat k); [done|].
  change 256 with (2 ^ 8). by rewrite <- Z.pow_mul_r by lia.
Qed.

Lemma xor_timestamp_whiten ts pool :
  (4 <= length pool)%nat ->
  Parity.xor_timestamp ts pool = Ret (PoolSpec.whiten ts pool).
Proof.
  intros Hlen.
  destruct pool as [|p0 [|p1 [|p2 [|p3 rest]]]]; simpl in Hlen; try lia.
  unfold Parity.xor_timestamp, PoolSpec.whiten, PoolSpec.le_bytes.
  change (range 0 4) with [0; 1; 2; 3].
  pose proof (shiftr_land_byte ts 0) as E0.
  pose proof (shiftr_land_byte ts 1) as E1.
  pose proof (shiftr_land_byte ts 2) as E2.
  pose proof (shiftr_land_byte ts 3) as E3.
  change (8 * Z.of_nat 0) with 0 in E0. rewrite Z.shiftr_0_r in E0.
  change (8 * Z.of_nat 1) with 8 in E1.
  change (8 * Z.of_nat 2) with 16 in E2.
  change (8 * Z.of_nat 3) with 24 in E3.
  rewrite E0, E1, E2, E3.
  unfold for_each.
  repeat (first [ erewrite getitem_lookup by (first [lia | reflexivity])
                 | rewrite setitem_insert by (simpl; lia) ]; simpl).
  by rewrite drop_0.
Qed.

Lemma prga_length n s i j : length (PoolSpec.prga n s i j) = n.
Proof. revert s i j. induction n; intros; simpl; [done|]. by rewrite IHn. Qed.

Lemma whiten_length ts pool :
  (4 <= length pool)%nat -> length (PoolSpec.whiten ts pool) = length pool.
Proof.
  intros H. unfold PoolSpec.whiten.
  rewrite length_app, length_zip_with, length_take, length_drop.
  unfold PoolSpec.le_bytes. rewrite length_map, length_seq. lia.
Qed.

Lemma outputs_length {S} (next : S -> Z * S) n st :
  length (PoolSpec.outputs next n st) = n.
Proof.
  revert st. induction n; intros; simpl; [done|].
  destruct (next st). simpl. by rewrite IHn.
Qed.

Lemma flat_map_pair_length {X} (f g : X -> Z) (l : list X) :
  length (flat_map (fun v => [f v; g v]) l) = (2 * length l)%nat.
Proof. induction l; simpl; [done|]. rewrite IHl. lia. Qed.

Lemma entropy_pool_length engine ts :
  length (PoolSpec.entropy_pool engine ts) = 256%nat.
Proof.
  unfold PoolSpec.entropy_pool, PoolSpec.engine_outputs.
  rewrite flat_map_pair_length.
  repeat case_match; by rewrite outputs_length.
Qed.

Lemma forallb_is_byte l :
  Forall (fun x => 0 <= x < 256) l -> forallb is_byte l = true.
Proof.
  induction 1 as [|x l Hx _ IH]; simpl; [done|].
  rewrite IH. unfold is_byte.
  destruct (Z.leb_spec 0 x); [|lia]. destruct (Z.ltb_spec x 256); [done|lia].
Qed.

Lemma cipher_keystream_unfold key n :
  PoolSpec.cipher_keystream key n = PoolSpec.prga n (PoolSpec.ksa key) 0 0.
Proof. reflexivity. Qed.

#[local] Opaque Parity.keystream Parity.fill_pool PoolSpec.prga PoolSpec.ksa PoolSpec.outputs.

Lemma whiten_and_extract_run ts pool h :
  length pool = 256%nat ->
  exists o,
    Parity.whiten_and_extract ts pool h =
      Ret (Some (PoolSpec.cipher_keystream (PoolSpec.whiten ts pool) 32), h ++ [o]) /\
    Forall (fun x => 0 <= x < 256)
           (PoolSpec.cipher_keystream (PoolSpec.whiten ts pool) 32).
Proof.
  intros Hlen. rewrite cipher_keystream_unfold.
  destruct (init_total (PoolSpec.whiten ts pool)) as [Hinit Hwf].
  { intros E. apply (f_equal length) in E.
    rewrite whiten_length in E by lia. simpl in E. lia. }
  destruct (keystream_run 32 (ARC4.Build (PoolSpec.ksa (PoolSpec.whiten ts pool)) 0 0) h Hwf)
    as (a' & Hks & Hall).
  cbn [ARC4.s ARC4.i ARC4.j] in Hks, Hall.
  exists (Store.Arc4 a'). split; [|exact Hall].
  unfold Parity.whiten_and_extract.
  erewrite M_bind_run; [|apply lift_run, xor_timestamp_whiten; lia].
  erewrite M_bind_run; [|apply lift_run, Hinit].
  erewrite M_bind_run; [|apply new_run].
  erewrite M_bind_run; [|exact Hks].
  pose proof (forallb_is_byte _ Hall) as Hbytes.
  erewrite M_bind_run;
    [|apply lift_run; unfold bytes_of_ints; rewrite Hbytes; reflexivity].
  reflexivity.
Qed.

Ltac eval_string_tests :=
  repeat match goal with
         | |- context [String.eqb ?a ?b] =>
             let r := eval vm_compute in (String.eqb a b) in
             change (String.eqb a b) with r
         end;
  cbn [orb negb]; cbv beta iota.

Lemma derive_run ts engine h :
  engine ∈ Parity.supported_engines ->
  exists o1 o2,
    Parity.derive_privkey_python ts engine h =
      Ret (Some (PoolSpec.private_key engine ts), h ++ [o1; o2]) /\
    length (PoolSpec.private_key engine ts) = 32%nat /\
    Forall (fun x => 0 <= x < 256) (PoolSpec.private_key engine ts).
Proof.
  intros Hin.
  assert (Hpool : exists o,
    (if String.eqb engine "v8" then
       prng ← Store.new (Store.V8 (V8Mwc1616.init ts));
       pool ← Parity.fill_pool Parity.pool_fuel prng []; mret (Some pool)
     else if String.eqb engine "java" || String.eqb engine "ie" then
       prng ← Store.new (Store.Java (JavaLcg.init ts));
       pool ← Parity.fill_pool Parity.pool_fuel prng []; mret (Some pool)
     else if String.eqb engine "safari-win" then
       prng ← Store.new (Store.Safari (SafariCrt.init ts));
       pool ← Parity.fill_pool Parity.pool_fuel prng []; mret (Some pool)
     else mret None) h = Ret (Some (PoolSpec.entropy_pool engine ts), h ++ [o])).
  { unfold Parity.supported_engines in Hin.
    unfold PoolSpec.entropy_pool, PoolSpec.engine_outputs.
    repeat (apply elem_of_cons in Hin as [->|Hin]); [| | | |by apply elem_of_nil in Hin];
      eval_string_tests.
    - destruct (fill_pool_run _ Store.V8 V8Mwc1616.next_u16
                  ltac:(intros st; simpl; by destruct (V8Mwc1616.next_u16 st))
                  128 Parity.pool_fuel [] (V8Mwc1616.init ts) h) as [st' Hfill];
        [simpl; lia|unfold Parity.pool_fuel; lia|].
      exists (Store.V8 st').
      erewrite M_bind_run; [|apply new_run]. cbv beta.
      erewrite M_bind_run; [|exact Hfill]. reflexivity.
    - destruct (fill_pool_run _ Store.Java JavaLcg.next_u16
                  ltac:(intros st; simpl; by destruct (JavaLcg.next_u16 st))
                  128 Parity.pool_fuel [] (JavaLcg.init ts) h) as [st' Hfill];
        [simpl; lia|unfold Parity.pool_fuel; lia|].
      exists (Store.Java st').
      erewrite M_bind_run; [|apply new_run]. cbv beta.
      erewrite M_bind_run; [|exact Hfill]. reflexivity.
    - destruct (fill_pool_run _ Store.Java JavaLcg.next_u16
                  ltac:(intros st; simpl; by destruct (JavaLcg.next_u16 st))
                  128 Parity.pool_fuel [] (JavaLcg.init ts) h) as [st' Hfill];
        [simpl; lia|unfold Parity.pool_fuel; lia|].
      exists (Store.Java st').
      erewrite M_bind_run; [|apply new_run]. cbv beta.
      erewrite M_bind_run; [|exact Hfill]. reflexivity.
    - destruct (fill_pool_run _ Store.Safari SafariCrt.next_u16
                  ltac:(intros st; simpl; by destruct (SafariCrt.next_u16 st))
                  128 Parity.pool_fuel [] (SafariCrt.init ts) h) as [st' Hfill];
        [simpl; lia|unfold Parity.pool_fuel; lia|].
      exists (Store.Safari st').
      erewrite M_bind_run; [|apply new_run]. cbv beta.
      erewrite M_bind_run; [|exact Hfill]. reflexivity. }
  destruct Hpool as [o1 Hpool].
  destruct (whiten_and_extract_run ts (PoolSpec.entropy_pool engine ts) (h ++ [o1])
              (entropy_pool_length engine ts)) as (o2 & Htail & Hall).
  exists o1, o2. split; [|split].
  - unfold Parity.derive_privkey_python.
    erewrite M_bind_run; [|exact Hpool]. cbv beta iota.
    rewrite Htail. unfold PoolSpec.private_key.
    by rewrite <- app_assoc.
  - unfold PoolSpec.private_key, PoolSpec.cipher_keystream. apply prga_length.
  - exact Hall.
Qed.

(** ** Claims on key extraction and the generators *)

(** C1: key extraction is deterministic and history-free.  For every
    timestamp and each of the engine names 'v8', 'java', 'ie' and
    'safari-win' there is one 32-byte key that
    [derive_privkey_python(ts, engine)] returns from every object store,
    whatever earlier invocations left in it; the invocation only adds its
    own two objects (the generator and the cipher) to the store and leaves
    every older object as it was. *)
Theorem derive_privkey_python_deterministic (ts : Z) (engine : string) :
  engine ∈ Parity.supported_engines ->
  exists key : list Z,
    length key = 32%nat /\
    Forall (fun b => 0 <= b < 256) key /\
    forall h : Store.store,
      exists o1 o2,
        Parity.derive_privkey_python ts engine h = Ret (Some key, h ++ [o1; o2]).
Proof.
  intros Hin. exists (PoolSpec.private_key engine ts).
  destruct (derive_run ts engine [] Hin) as (_ & _ & _ & Hlen & Hall).
  split; [done|]. split; [done|].
  intros h. destruct (derive_run ts engine h Hin) as (o1 & o2 & Hrun & _).
  by exists o1, o2.
Qed.

(** The theorem at the engine 'v8' and the timestamp 1389781800000. *)
Lemma derive_privkey_python_deterministic_witness :
  "v8" ∈ Parity.supported_engines /\
  exists key : list Z,
    length key = 32%nat /\
    Forall (fun b => 0 <= b < 256) key /\
    forall h : Store.store,
      exists o1 o2,
        Parity.derive_privkey_python 1389781800000 "v8" h
          = Ret (Some key, h ++ [o1; o2]).
Proof.
  assert (Hin : "v8" ∈ Parity.supported_engines) by (vm_compute; constructor).
  split; [exact Hin|].
  exact (derive_privkey_python_deterministic 1389781800000 "v8" Hin).
Defined.

(** C3: for the pool-whiten-then-stream-cipher family, for every
    timestamp and supported engine, the derived private key is the first
    32 keystream bytes of the byte-oriented stream cipher (key setup over
    the 256-entry table, then the swap-based keystream generator started
    at counters 0, 0 with nothing discarded), keyed on the 256-byte
    entropy pool whose first 4 bytes are XORed with the little-endian
    bytes of the timestamp. *)
Theorem derive_privkey_python_is_cipher_keystream
    (ts : Z) (engine : string) (h : Store.store) :
  engine ∈ Parity.supported_engines ->
  length (PoolSpec.entropy_pool engine ts) = 256%nat /\
  exists h',
    Parity.derive_privkey_python ts engine h =
      Ret (Some (PoolSpec.prga 32
                   (PoolSpec.ksa (PoolSpec.whiten ts (PoolSpec.entropy_pool engine ts)))
                   0 0), h').
Proof.
  intros Hin. split; [apply entropy_pool_length|].
  destruct (derive_run ts engine h Hin) as (o1 & o2 & Hrun & _).
  by exists (h ++ [o1; o2]).
Qed.

(** The theorem at the engine 'java', the timestamp 1389781800000 and
    the empty store. *)
Lemma derive_privkey_python_is_cipher_keystream_witness :
  "java" ∈ Parity.supported_engines /\
  length (PoolSpec.entropy_pool "java" 1389781800000) = 256%nat /\
  exists h',
    Parity.derive_privkey_python 1389781800000 "java" [] =
      Ret (Some (PoolSpec.prga 32
                   (PoolSpec.ksa (PoolSpec.whiten 1389781800000
                                    (PoolSpec.entropy_pool "java" 1389781800000)))
                   0 0), h').
Proof.
  assert (Hin : "java" ∈ Parity.supported_engines)
    by (vm_compute; apply list_elem_of_further; constructor).
  split; [exact Hin|].
  exact (derive_privkey_python_is_cipher_keystream 1389781800000 "java" [] Hin).
Defined.

(** C5: zero-seed guard.  A [V8Mwc1616] built from a seed whose low 32
    bits are zero yields, for every number of steps, the same [next_u16]
    outputs as one built from a seed whose low 32 bits are 1 and whose
    high 32 bits are the same; likewise with the roles of the two halves
    exchanged. *)
Theorem v8_zero_seed_guard (seed seed' : Z) (n : nat) :
  (Z.land seed 0xFFFFFFFF = 0 /\ Z.land seed' 0xFFFFFFFF = 1 /\
   Z.land (Z.shiftr seed 32) 0xFFFFFFFF = Z.land (Z.shiftr seed' 32) 0xFFFFFFFF)
  \/
  (Z.land (Z.shiftr seed 32) 0xFFFFFFFF = 0 /\
   Z.land (Z.shiftr seed' 32) 0xFFFFFFFF = 1 /\
   Z.land seed 0xFFFFFFFF = Z.land seed' 0xFFFFFFFF) ->
  V8Mwc1616.outputs n (V8Mwc1616.init seed)
    = V8Mwc1616.outputs n (V8Mwc1616.init seed').
Proof.
  intros H. f_equal. unfold V8Mwc1616.init.
  destruct H as [(H0 & H1 & Hhi)|(H0 & H1 & Hlo)].
  - rewrite H0, H1, Hhi. done.
  - rewrite H0, H1, Hlo. done.
Qed.

(** The theorem at the seeds 0x500000000 (low half zero) and 7 (high
    half zero), four steps. *)
Lemma v8_zero_seed_guard_witness :
  V8Mwc1616.outputs 4 (V8Mwc1616.init 0x500000000)
    = V8Mwc1616.outputs 4 (V8Mwc1616.init 0x500000001) /\
  V8Mwc1616.outputs 4 (V8Mwc1616.init 7)
    = V8Mwc1616.outputs 4 (V8Mwc1616.init 0x100000007).
Proof.
  split.
  - apply (v8_zero_seed_guard 0x500000000 0x500000001 4).
    left. vm_compute. auto.
  - apply (v8_zero_seed_guard 7 0x100000007 4).
    right. vm_compute. auto.
Defined.

(** * The validation run *)

Lemma derive_unsupported ts engine h :
  engine ∉ Parity.supported_engines ->
  Parity.derive_privkey_python ts engine h = Ret (None, h).
Proof.
  intros Hnot. unfold Parity.supported_engines in Hnot.
  assert (H1 : String.eqb engine "v8" = false)
    by (apply String.eqb_neq; intros ->; apply Hnot; set_solver).
  assert (H2 : String.eqb engine "java" = false)
    by (apply String.eqb_neq; intros ->; apply Hnot; set_solver).
  assert (H3 : String.eqb engine "ie" = false)
    by (apply String.eqb_neq; intros ->; apply Hnot; set_solver).
  assert (H4 : String.eqb engine "safari-win" = false)
    by (apply String.eqb_neq; intros ->; apply Hnot; set_solver).
  unfold Parity.derive_privkey_python.
  rewrite H1, H2, H3, H4. reflexivity.
Qed.

Lemma progress_passed i total st :
  ParityMain.passed (ParityMain.progress i total st) = ParityMain.passed st.
Proof. unfold ParityMain.progress. by case_match. Qed.

Lemma progress_failed i total st :
  ParityMain.failed (ParityMain.progress i total st) = ParityMain.failed st.
Proof. unfold ParityMain.progress. by case_match. Qed.

Lemma count_verdict_nonneg b vs : 0 <= ValidatorSpec.count_verdict b vs.
Proof. induction vs; simpl; [lia|]. case_bool_decide; lia. Qed.

(** What one vector does to the counters, by its verdict. *)
Lemma count_verdict_cons b v vs :
  ValidatorSpec.count_verdict b (v :: vs) =
    (if bool_decide (ValidatorSpec.verdict v = Some b) then 1 else 0)
    + ValidatorSpec.count_verdict b vs.
Proof. reflexivity. Qed.

#[local] Opaque ValidatorSpec.count_verdict.

Ltac finish_counters :=
  rewrite ?progress_passed, ?progress_failed;
  cbn [ParityMain.failed ParityMain.passed ParityMain.printed];
  repeat case_bool_decide; try congruence; try lia.

(** The loop from any index, counters and store: it consumes a prefix
    [processed] of the vectors, counts its matches and mismatches, and
    leaves [rest] unreached only when the mismatch counter has passed 5;
    the counter never passed 5 before the last processed vector. *)
Lemma loop_run (vs : list ParityMain.vector) :
  forall (total i : Z) (st : ParityMain.locals) (h : Store.store),
    ParityMain.failed st <= 5 ->
    exists st' processed rest h',
      ParityMain.loop total i vs st h = Ret ((st', rest), h') /\
      vs = processed ++ rest /\
      ParityMain.passed st' = ParityMain.passed st + ValidatorSpec.matches processed /\
      ParityMain.failed st' = ParityMain.failed st + ValidatorSpec.mismatches processed /\
      (forall p q, processed = p ++ q -> q <> [] ->
                   ParityMain.failed st + ValidatorSpec.mismatches p <= 5) /\
      (rest <> [] -> 5 < ParityMain.failed st').
Proof.
  unfold ValidatorSpec.matches, ValidatorSpec.mismatches.
  induction vs as [|v vs IH]; intros total i st h Hst.
  - exists st, [], [], h. simpl. rewrite !Z.add_0_r.
    repeat split; try done.
    intros p q Hpq. symmetry in Hpq. apply app_eq_nil in Hpq as [-> ->]. done.
  - (* every way of going on to the next vector with state [st1] *)
    assert (Hnext : forall (st1 : ParityMain.locals) (h1 : Store.store),
      ParityMain.failed st1 <= 5 ->
      ParityMain.passed st1 = ParityMain.passed st
        + (if bool_decide (ValidatorSpec.verdict v = Some true) then 1 else 0) ->
      ParityMain.failed st1 = ParityMain.failed st
        + (if bool_decide (ValidatorSpec.verdict v = Some false) then 1 else 0) ->
      exists st' processed rest h',
        ParityMain.loop total (i + 1) vs st1 h1 = Ret ((st', rest), h') /\
        v :: vs = processed ++ rest /\
        ParityMain.passed st' = ParityMain.passed st + ValidatorSpec.count_verdict true processed /\
        ParityMain.failed st' = ParityMain.failed st + ValidatorSpec.count_verdict false processed /\
        (forall p q, processed = p ++ q -> q <> [] ->
                     ParityMain.failed st + ValidatorSpec.count_verdict false p <= 5) /\
        (rest <> [] -> 5 < ParityMain.failed st')).
    { intros st1 h1 Hle Hp Hf.
      destruct (IH total (i + 1) st1 h1 Hle)
        as (st' & processed & rest & h' & Hrun & -> & Hpass & Hfail & Hpre & Hrest).
      exists st', (v :: processed), rest, h'.
      rewrite !count_verdict_cons.
      split; [done|]. split; [done|].
      split; [lia|]. split; [lia|]. split; [|done].
      intros p q Hpq Hq. destruct p as [|v' p].
      - change (ValidatorSpec.count_verdict false []) with 0. lia.
      - simpl in Hpq. injection Hpq as -> Hpq.
        rewrite count_verdict_cons.
        specialize (Hpre p q Hpq Hq). lia. }
    simpl ParityMain.loop. unfold ValidatorSpec.verdict in Hnext.
    destruct (negb (String.eqb (ParityMain.vulnerability v) "randstorm")) eqn:Hv.
    + apply Hnext; [done|..]; simpl; lia.
    + destruct (decide (ParityMain.engine v ∈ Parity.supported_engines)) as [Hin|Hout].
      * rewrite (bool_decide_eq_true_2 _ Hin) in Hnext.
        destruct (derive_run (ParityMain.timestamp_ms v) (ParityMain.engine v) h Hin)
          as (o1 & o2 & Hd & _).
        erewrite M_bind_run; [|exact Hd]. cbv beta iota.
        destruct (String.eqb (ParityMain.hexlify _) _) eqn:Hcmp.
        -- apply Hnext; finish_counters.
        -- cbn [ParityMain.failed ParityMain.passed ParityMain.printed].
           destruct (Z.ltb_spec 5 (ParityMain.failed st + 1)) as [Hgt|Hle].
           ++ eexists _, [v], vs, _. split; [reflexivity|].
              rewrite !count_verdict_cons.
              change (ValidatorSpec.count_verdict true []) with 0.
              change (ValidatorSpec.count_verdict false []) with 0.
              unfold ValidatorSpec.verdict. rewrite Hv.
              rewrite (bool_decide_eq_true_2 _ Hin), Hcmp.
              rewrite bool_decide_eq_false_2 by done.
              rewrite bool_decide_eq_true_2 by done.
              cbn [ParityMain.failed ParityMain.passed].
              split; [done|]. split; [lia|]. split; [lia|]. split; [|lia].
              intros p q Hpq Hq. destruct p as [|v' p].
              ** change (ValidatorSpec.count_verdict false []) with 0. lia.
              ** simpl in Hpq. injection Hpq as -> Hpq.
                 symmetry in Hpq. apply app_eq_nil in Hpq as [-> ->]. done.
           ++ apply Hnext; finish_counters.
      * rewrite (bool_decide_eq_false_2 _ Hout) in Hnext.
        erewrite M_bind_run; [|by apply derive_unsupported]. cbv beta iota.
        apply Hnext; [done|..]; simpl; lia.
Qed.

Lemma count_verdict_app b xs ys :
  ValidatorSpec.count_verdict b (xs ++ ys) =
    ValidatorSpec.count_verdict b xs + ValidatorSpec.count_verdict b ys.
Proof.
  induction xs as [|x xs IH]; [reflexivity|].
  change ((x :: xs) ++ ys) with (x :: (xs ++ ys)).
  rewrite !count_verdict_cons, IH. lia.
Qed.

(** C7 (as the code has it): [main] replays the vectors in order and keeps
    running pass/fail counters.  It processes a prefix [processed] of the
    list: the counters are the numbers of matched and mismatched vectors of
    that prefix; the cumulative mismatch count never exceeded 5 before the
    last processed vector; vectors are left unreached only when the
    cumulative mismatch count exceeds 5 (a matching vector does not reset
    it); a list with at most 5 mismatches in total is processed whole; and
    the exit status is 1 whenever at least one vector mismatched (so in
    particular after an early stop), 0 otherwise. *)
Theorem main_stops_on_cumulative_mismatches
    (vectors : list ParityMain.vector) (h : Store.store) :
  exists (r : ParityMain.run) (processed : list ParityMain.vector) (h' : Store.store),
    ParityMain.main (Some vectors) h = Ret (r, h') /\
    vectors = processed ++ ParityMain.unreached r /\
    ParityMain.passed (ParityMain.final r) = ValidatorSpec.matches processed /\
    ParityMain.failed (ParityMain.final r) = ValidatorSpec.mismatches processed /\
    (forall p q, processed = p ++ q -> q <> [] -> ValidatorSpec.mismatches p <= 5) /\
    (ParityMain.unreached r <> [] -> 5 < ValidatorSpec.mismatches processed) /\
    (ValidatorSpec.mismatches vectors <= 5 -> ParityMain.unreached r = []) /\
    ParityMain.exit_status r
      = (if ValidatorSpec.mismatches processed =? 0 then 0 else 1).
Proof.
  destruct (loop_run vectors (Z.of_nat (length vectors)) 0
              (ParityMain.Locals 0 0 [ParityMain.Starting]) h)
    as (st' & processed & rest & h' & Hrun & Hsplit & Hpass & Hfail & Hpre & Hrest);
    [simpl; lia|].
  cbn [ParityMain.failed ParityMain.passed] in Hpass, Hfail, Hpre.
  rewrite Z.add_0_l in Hpass, Hfail.
  assert (Hwhole : ValidatorSpec.mismatches vectors <= 5 -> rest = []).
  { intros Hle. destruct rest as [|v rest]; [done|].
    assert (5 < ParityMain.failed st') by (by apply Hrest).
    rewrite Hsplit in Hle. unfold ValidatorSpec.mismatches in *.
    rewrite count_verdict_app in Hle.
    pose proof (count_verdict_nonneg false (v :: rest)). lia. }
  assert (Hpre' : forall p q, processed = p ++ q -> q <> [] ->
                          ValidatorSpec.mismatches p <= 5).
  { intros p q Hpq Hq. specialize (Hpre p q Hpq Hq). lia. }
  unfold ParityMain.main.
  erewrite M_bind_run; [|exact Hrun]. cbv beta iota.
  destruct (Z.eqb_spec (ParityMain.failed st') 0) as [E|E];
    (eexists _, processed, _; split; [reflexivity|]);
    cbn [ParityMain.unreached ParityMain.final ParityMain.exit_status
         ParityMain.passed ParityMain.failed];
    split_and!; auto;
    rewrite <- Hfail; destruct (Z.eqb_spec (ParityMain.failed st') 0); done.
Qed.

(** C7 as stated fails: on [alternating] the count of consecutive
    mismatches never exceeds 1, let alone 5, yet [main] stops at the sixth
    mismatch (index 10) with 6 failures and 5 passes, leaves the last
    vector unreached, and exits with status 1. *)
Lemma main_stops_without_consecutive_mismatches :
  ValidatorSpec.consecutive_exceeds 0 ValidatorSpec.alternating = false /\
  ParityMain.observed (ParityMain.main (Some ValidatorSpec.alternating) [])
    = Some (1, 5, 6, [ValidatorSpec.matching]).
Proof. split; vm_compute; reflexivity. Qed.

(** * The timestamp-hash derivation *)

(** The correctly rounded quotient of [0 <= a <= b] is at most 1. *)
Lemma int_truediv_unit a b :
  0 <= a <= b -> 0 < b ->
  exists x, Float.int_truediv a b = Ret x /\
            0 <= Float.mantissa x <= 2 ^ Float.scale x /\ 0 <= Float.scale x.
Proof.
  intros Hab Hb. unfold Float.int_truediv.
  destruct (Z.eqb_spec b 0); [lia|].
  destruct (Z.eqb_spec a 0) as [->|Ha].
  { eexists. split; [reflexivity|]. simpl. lia. }
  set (e0 := Z.log2 b - Z.log2 a + 52).
  set (e := if a * 2 ^ e0 / b <? 2 ^ 52 then e0 + 1 else e0).
  assert (He0 : 52 <= e0).
  { pose proof (Z.log2_le_mono a b). lia. }
  assert (He : 52 <= e) by (unfold e; case_match; lia).
  assert (Hp : 0 < 2 ^ e) by (apply Z.pow_pos_nonneg; lia).
  set (q := a * 2 ^ e / b). set (r := (a * 2 ^ e) mod b).
  assert (Hdm : a * 2 ^ e = b * q + r) by (apply Z.div_mod; lia).
  assert (Hr : 0 <= r < b) by (apply Z.mod_pos_bound; lia).
  assert (Hq0 : 0 <= q) by (apply Z.div_pos; nia).
  assert (Hq : q <= 2 ^ e).
  { apply Z.div_le_upper_bound; [lia|]. nia. }
  assert (Hq1 : 0 < r -> q + 1 <= 2 ^ e).
  { intros Hr0. destruct (Z.le_gt_cases (2 ^ e) q) as [Hge|]; [|lia]. nia. }
  eexists. split; [reflexivity|]. simpl.
  split; [|lia].
  destruct (Z.ltb_spec (2 * r) b); [lia|].
  assert (0 < r) by lia.
  repeat case_match; lia.
Qed.

(** On the sample seeds the dyadic model of [int((seed / MODULUS) * 65536)]
    returns what binary64 arithmetic returns; at [65535 * 2 ^ 32 - 1] both
    give 65535 where the exact quotient truncates to 65534. *)
Lemma draw_value_agrees_with_binary64 :
  map TimestampHashSpec.draw_value TimestampHashSpec.sample_seeds
    = map (fun s => Float.binary64_scaled_quotient s (2 ^ 48 - 1) 65536)
          TimestampHashSpec.sample_seeds /\
  TimestampHashSpec.draw_value (65535 * 2 ^ 32 - 1) = 65535 /\
  (65535 * 2 ^ 32 - 1) * 65536 / (2 ^ 48 - 1) = 65534.
Proof. repeat split; vm_compute; reflexivity. Qed.

Lemma modulus_value : VulnerablePRNG.MODULUS = 2 ^ 48 - 1.
Proof. reflexivity. Qed.

Lemma land_modulus x : Z.land x VulnerablePRNG.MODULUS = x mod 2 ^ 48.
Proof.
  rewrite modulus_value. change (2 ^ 48 - 1) with (Z.ones 48).
  by rewrite Z.land_ones by lia.
Qed.

(** A draw scaled by 65536 and truncated lies in [0, 65536]. *)
Lemma draw_value_bounds s :
  0 <= s <= 2 ^ 48 - 1 ->
  exists x, Float.int_truediv s (2 ^ 48 - 1) = Ret x /\
            TimestampHashSpec.draw_value s = Float.to_int (Float.mul_pow2 x 65536) /\
            0 <= TimestampHashSpec.draw_value s <= 65536.
Proof.
  intros Hs.
  destruct (int_truediv_unit s (2 ^ 48 - 1)) as (x & Hx & Hm & He); [lia|lia|].
  exists x. split; [exact Hx|].
  unfold TimestampHashSpec.draw_value. rewrite Hx.
  split; [reflexivity|].
  unfold Float.to_int, Float.mul_pow2. simpl.
  assert (Hp : 0 < 2 ^ Float.scale x) by (apply Z.pow_pos_nonneg; lia).
  split.
  - apply Z.div_pos; lia.
  - apply Z.div_le_upper_bound; lia.
Qed.

Lemma lcg_range s : 0 <= TimestampHashSpec.lcg s <= 2 ^ 48 - 1.
Proof.
  unfold TimestampHashSpec.lcg.
  pose proof (Z.mod_pos_bound (s * 25214903917 + 11) (2 ^ 48)). lia.
Qed.

Lemma next_random_run self :
  exists x,
    VulnerablePRNG.next_random self =
      Ret (x, VulnerablePRNG.Build (TimestampHashSpec.lcg (VulnerablePRNG.seed self))
                (VulnerablePRNG.timestamp_ms self)) /\
    Float.to_int (Float.mul_pow2 x 65536)
      = TimestampHashSpec.draw_value (TimestampHashSpec.lcg (VulnerablePRNG.seed self)).
Proof.
  unfold VulnerablePRNG.next_random.
  rewrite land_modulus.
  change (VulnerablePRNG.seed self * VulnerablePRNG.MULTIPLIER
          + VulnerablePRNG.INCREMENT)
    with (VulnerablePRNG.seed self * 25214903917 + 11).
  fold (TimestampHashSpec.lcg (VulnerablePRNG.seed self)).
  rewrite modulus_value.
  destruct (draw_value_bounds (TimestampHashSpec.lcg (VulnerablePRNG.seed self))
              (lcg_range _)) as (x & -> & Hd & _).
  exists x. split; [reflexivity|]. by rewrite Hd.
Qed.

Lemma to_bytes_little_le_bytes n :
  0 <= n < 2 ^ 64 ->
  to_bytes_little 8 n = Ret (PoolSpec.le_bytes 8 n).
Proof.
  intros Hn. unfold to_bytes_little, PoolSpec.le_bytes.
  change (2 ^ (8 * Z.of_nat 8)) with (2 ^ 64).
  destruct (Z.leb_spec 0 n); [|lia].
  destruct (Z.ltb_spec n (2 ^ 64)); [|lia].
  simpl andb. cbv iota. f_equal.
  apply map_ext. intros k. apply shiftr_land_byte.
Qed.

Lemma le_bytes_length k n : length (PoolSpec.le_bytes k n) = k.
Proof. unfold PoolSpec.le_bytes. by rewrite length_map, length_seq. Qed.

Lemma le_bytes_byte k n :
  Forall (fun b => 0 <= b < 256) (PoolSpec.le_bytes k n).
Proof.
  unfold PoolSpec.le_bytes. apply Forall_forall. intros b Hb.
  apply list_elem_of_fmap in Hb as (i & -> & _).
  apply Z.mod_pos_bound. lia.
Qed.

Lemma assign_slice_middle (a mid c new : list Z) (lo hi : nat) :
  length a = lo -> (lo + length mid)%nat = hi ->
  VulnerablePRNG.assign_slice (a ++ mid ++ c) lo hi new = a ++ new ++ c.
Proof.
  intros Ha Hm. unfold VulnerablePRNG.assign_slice.
  rewrite (take_app_length' a (mid ++ c) lo) by done.
  rewrite (app_assoc a mid c).
  rewrite (drop_app_length' (a ++ mid) c hi); [done|].
  rewrite length_app. lia.
Qed.

Lemma entropy_step_run (i : Z) (entropy : list Z) (self : VulnerablePRNG.t) :
  VulnerablePRNG.entropy_step i (entropy, self) =
    Ret (VulnerablePRNG.assign_slice entropy
           (Z.to_nat (8 + i * 8)) (Z.to_nat (8 + (i + 1) * 8))
           (PoolSpec.le_bytes 8
              (TimestampHashSpec.draw_value
                 (TimestampHashSpec.lcg (VulnerablePRNG.seed self)))),
         VulnerablePRNG.Build (TimestampHashSpec.lcg (VulnerablePRNG.seed self))
           (VulnerablePRNG.timestamp_ms self)).
Proof.
  unfold VulnerablePRNG.entropy_step.
  destruct (next_random_run self) as (x & -> & Hd).
  cbn [mbind outcome_bind Py.bind]. rewrite Hd.
  destruct (draw_value_bounds (TimestampHashSpec.lcg (VulnerablePRNG.seed self))
              (lcg_range _)) as (_ & _ & _ & Hb).
  rewrite to_bytes_little_le_bytes by lia.
  reflexivity.
Qed.

Lemma generate_entropy_run (ts sequence : Z) :
  0 <= ts < 2 ^ 64 ->
  VulnerablePRNG.generate_entropy (VulnerablePRNG.init ts sequence) =
    Ret (TimestampHashSpec.entropy_buffer ts sequence,
         VulnerablePRNG.Build
           (TimestampHashSpec.lcg (TimestampHashSpec.lcg (TimestampHashSpec.lcg (Z.lxor ts sequence))))
           ts).
Proof.
  intros Hts. unfold VulnerablePRNG.generate_entropy, VulnerablePRNG.init.
  cbn [VulnerablePRNG.timestamp_ms].
  rewrite to_bytes_little_le_bytes by lia.
  cbn [mbind outcome_bind Py.bind].
  set (t8 := PoolSpec.le_bytes 8 ts).
  set (s1 := TimestampHashSpec.lcg (Z.lxor ts sequence)).
  set (s2 := TimestampHashSpec.lcg s1).
  set (s3 := TimestampHashSpec.lcg s2).
  set (d1 := PoolSpec.le_bytes 8 (TimestampHashSpec.draw_value s1)).
  set (d2 := PoolSpec.le_bytes 8 (TimestampHashSpec.draw_value s2)).
  set (d3 := PoolSpec.le_bytes 8 (TimestampHashSpec.draw_value s3)).
  assert (Ht8 : length t8 = 8%nat) by apply le_bytes_length.
  assert (Hd1 : length d1 = 8%nat) by apply le_bytes_length.
  assert (Hd2 : length d2 = 8%nat) by apply le_bytes_length.
  assert (E0 : VulnerablePRNG.assign_slice (replicate 32 0) 0 8 t8
               = t8 ++ replicate 8 0 ++ replicate 16 0).
  { change (replicate 32 0) with ([] ++ replicate 8 0 ++ replicate 8 0 ++ replicate 16 0).
    by rewrite assign_slice_middle. }
  rewrite E0.
  change (range 0 3) with [0; 1; 2]. unfold for_each.
  rewrite entropy_step_run. cbn [mbind outcome_bind Py.bind VulnerablePRNG.seed
                                  VulnerablePRNG.timestamp_ms].
  fold s1. fold d1.
  change (Z.to_nat (8 + 0 * 8)) with 8%nat. change (Z.to_nat (8 + (0 + 1) * 8)) with 16%nat.
  rewrite (assign_slice_middle t8 (replicate 8 0) (replicate 16 0) d1 8 16) by done.
  rewrite entropy_step_run. cbn [mbind outcome_bind Py.bind VulnerablePRNG.seed
                                  VulnerablePRNG.timestamp_ms].
  fold s2. fold d2.
  change (Z.to_nat (8 + 1 * 8)) with 16%nat. change (Z.to_nat (8 + (1 + 1) * 8)) with 24%nat.
  change (replicate 16 0) with (replicate 8 0 ++ replicate 8 0).
  rewrite (app_assoc t8 d1).
  rewrite (assign_slice_middle (t8 ++ d1) (replicate 8 0) (replicate 8 0) d2 16 24)
    by (rewrite ?length_app; simpl; lia).
  rewrite entropy_step_run. cbn [mbind outcome_bind Py.bind VulnerablePRNG.seed
                                  VulnerablePRNG.timestamp_ms].
  fold s3. fold d3.
  change (Z.to_nat (8 + 2 * 8)) with 24%nat. change (Z.to_nat (8 + (2 + 1) * 8)) with 32%nat.
  rewrite (app_assoc (t8 ++ d1) d2).
  replace (replicate 8 0) with (replicate 8 0 ++ @nil Z) by apply app_nil_r.
  rewrite (assign_slice_middle ((t8 ++ d1) ++ d2) (replicate 8 0) [] d3 24 32)
    by (rewrite ?length_app; simpl; lia).
  rewrite app_nil_r, <- !app_assoc.
  unfold bytes_of_ints.
  rewrite forallb_is_byte
    by (rewrite !Forall_app; split_and!; apply le_bytes_byte).
  reflexivity.
Qed.

(** An integer encoded little-endian on [k] bytes and decoded again. *)
Lemma le_decode_le_bytes (k : nat) :
  forall n, 0 <= n ->
    TimestampHashSpec.le_decode (PoolSpec.le_bytes k n) = n mod 256 ^ Z.of_nat k.
Proof.
  unfold PoolSpec.le_bytes.
  induction k as [|k IH]; intros n Hn.
  - simpl. by rewrite Z.mod_1_r.
  - rewrite <- cons_seq, <- fmap_S_seq. simpl map.
    change (map ?f (S <$> ?l)) with (f <$> (S <$> l)).
    rewrite <- list_fmap_compose.
    cbn [TimestampHashSpec.le_decode foldr].
    assert (E : ((fun i : nat => (n `div` 256 ^ Z.of_nat i) `mod` 256) ∘ S <$> seq 0 k)
                = map (fun i : nat => ((n / 256) / 256 ^ Z.of_nat i) mod 256) (seq 0 k)).
    { apply map_ext. intros i. simpl.
      rewrite Z.div_div by lia.
      replace (256 ^ Z.of_nat (S i)) with (256 * 256 ^ Z.of_nat i)
        by (rewrite Nat2Z.inj_succ, Z.pow_succ_r; lia).
      done. }
    rewrite E. fold (TimestampHashSpec.le_decode
                       (map (fun i : nat => ((n / 256) / 256 ^ Z.of_nat i) mod 256) (seq 0 k))).
    rewrite IH by (apply Z.div_pos; lia).
    change (Z.of_nat 0) with 0. rewrite Z.pow_0_r, Z.div_1_r.
    rewrite Nat2Z.inj_succ, Z.pow_succ_r by lia.
    rewrite (Z.rem_mul_r n 256 (256 ^ Z.of_nat k)) by lia. lia.
Qed.

(** ** Claims on the timestamp-hash derivation *)

(** C4: under the timestamp-hash derivation, for every timestamp that
    fits the buffer's 8 bytes and every sequence index, the private key is
    the hash of the 32-byte buffer whose first 8 bytes are the
    little-endian timestamp and whose other 24 bytes are three successive
    draws of the 48-bit generator seeded with [timestamp XOR sequence],
    each widened to 8 little-endian bytes. *)
Theorem derive_private_key_hashes_entropy_buffer
    (sha256 : list Z -> list Z) (ts sequence : Z) :
  0 <= ts < 2 ^ 64 ->
  length (TimestampHashSpec.entropy_buffer ts sequence) = 32%nat /\
  take 8 (TimestampHashSpec.entropy_buffer ts sequence) = PoolSpec.le_bytes 8 ts /\
  exists self',
    VulnerablePRNG.derive_private_key sha256 (VulnerablePRNG.init ts sequence)
      = Ret (sha256 (TimestampHashSpec.entropy_buffer ts sequence), self').
Proof.
  intros Hts. split; [|split].
  - unfold TimestampHashSpec.entropy_buffer.
    by rewrite !length_app, !le_bytes_length.
  - unfold TimestampHashSpec.entropy_buffer.
    by rewrite take_app_length' by (by rewrite le_bytes_length).
  - unfold VulnerablePRNG.derive_private_key.
    rewrite generate_entropy_run by done.
    eexists. reflexivity.
Qed.

(** The theorem at the timestamp 1389781800000, sequence index 0 and the
    reference hash. *)
Lemma derive_private_key_hashes_entropy_buffer_witness :
  0 <= 1389781800000 < 2 ^ 64 /\
  length (TimestampHashSpec.entropy_buffer 1389781800000 0) = 32%nat /\
  take 8 (TimestampHashSpec.entropy_buffer 1389781800000 0)
    = PoolSpec.le_bytes 8 1389781800000 /\
  exists self',
    VulnerablePRNG.derive_private_key Hashlib.sha256
      (VulnerablePRNG.init 1389781800000 0)
      = Ret (Hashlib.sha256 (TimestampHashSpec.entropy_buffer 1389781800000 0), self').
Proof.
  assert (H : 0 <= 1389781800000 < 2 ^ 64) by lia.
  split; [exact H|].
  exact (derive_private_key_hashes_entropy_buffer Hashlib.sha256 1389781800000 0 H).
Defined.

Lemma le_bytes_small v :
  0 <= v <= 65536 ->
  PoolSpec.le_bytes 8 v = [v mod 256; (v / 256) mod 256; v / 65536; 0; 0; 0; 0; 0].
Proof.
  intros Hv. unfold PoolSpec.le_bytes. cbn [map seq].
  change (256 ^ Z.of_nat 0) with 1. change (256 ^ Z.of_nat 1) with 256.
  change (256 ^ Z.of_nat 2) with 65536. change (256 ^ Z.of_nat 3) with 16777216.
  change (256 ^ Z.of_nat 4) with 4294967296.
  change (256 ^ Z.of_nat 5) with 1099511627776.
  change (256 ^ Z.of_nat 6) with 281474976710656.
  change (256 ^ Z.of_nat 7) with 72057594037927936.
  rewrite Z.div_1_r.
  assert (0 <= v / 65536 <= 1).
  { split; [apply Z.div_pos; lia|]. apply Z.div_le_upper_bound; lia. }
  rewrite (Z.mod_small (v / 65536)) by lia.
  rewrite (Z.div_small v 16777216), (Z.div_small v 4294967296),
    (Z.div_small v 1099511627776), (Z.div_small v 281474976710656),
    (Z.div_small v 72057594037927936) by lia.
  reflexivity.
Qed.

(** C10: in the 32-byte buffer of [generate_entropy], each of the three
    8-byte blocks at offsets 8, 16 and 24 encodes an integer between 0 and
    65536, so the bytes 11-15, 19-23 and 27-31 are zero, for every
    timestamp that fits the first 8 bytes and every sequence index. *)
Theorem generate_entropy_blocks_at_most_65536 (ts sequence : Z) :
  0 <= ts < 2 ^ 64 ->
  exists buf self',
    VulnerablePRNG.generate_entropy (VulnerablePRNG.init ts sequence) = Ret (buf, self') /\
    length buf = 32%nat /\
    (forall off : nat, off = 8%nat \/ off = 16%nat \/ off = 24%nat ->
       0 <= TimestampHashSpec.le_decode (TimestampHashSpec.block buf off) <= 65536) /\
    (forall i : nat,
       (11 <= i <= 15)%nat \/ (19 <= i <= 23)%nat \/ (27 <= i <= 31)%nat ->
       buf !! i = Some 0).
Proof.
  intros Hts. eexists _, _. split; [by apply generate_entropy_run|].
  unfold TimestampHashSpec.entropy_buffer.
  set (s1 := TimestampHashSpec.lcg (Z.lxor ts sequence)).
  set (s2 := TimestampHashSpec.lcg s1).
  set (s3 := TimestampHashSpec.lcg s2).
  destruct (draw_value_bounds s1 (lcg_range _)) as (_ & _ & _ & H1).
  destruct (draw_value_bounds s2 (lcg_range _)) as (_ & _ & _ & H2).
  destruct (draw_value_bounds s3 (lcg_range _)) as (_ & _ & _ & H3).
  split; [by rewrite !length_app, !le_bytes_length|]. split.
  - intros off Hoff.
    set (t8 := PoolSpec.le_bytes 8 ts).
    set (d1 := PoolSpec.le_bytes 8 (TimestampHashSpec.draw_value s1)).
    set (d2 := PoolSpec.le_bytes 8 (TimestampHashSpec.draw_value s2)).
    set (d3 := PoolSpec.le_bytes 8 (TimestampHashSpec.draw_value s3)).
    assert (Ht8 : length t8 = 8%nat) by apply le_bytes_length.
    assert (Hd1 : length d1 = 8%nat) by apply le_bytes_length.
    assert (Hd2 : length d2 = 8%nat) by apply le_bytes_length.
    assert (Hd3 : length d3 = 8%nat) by apply le_bytes_length.
    unfold TimestampHashSpec.block.
    destruct Hoff as [->|[->| ->]].
    + rewrite (drop_app_length' t8 _ 8) by done.
      rewrite (take_app_length' d1 _ 8) by done.
      unfold d1. rewrite le_decode_le_bytes by lia.
      rewrite Z.mod_small; [lia|]. change (256 ^ Z.of_nat 8) with (2 ^ 64). lia.
    + rewrite (app_assoc t8 d1).
      rewrite (drop_app_length' (t8 ++ d1) _ 16) by (rewrite length_app; lia).
      rewrite (take_app_length' d2 _ 8) by done.
      unfold d2. rewrite le_decode_le_bytes by lia.
      rewrite Z.mod_small; [lia|]. change (256 ^ Z.of_nat 8) with (2 ^ 64). lia.
    + rewrite (app_assoc t8 d1), (app_assoc (t8 ++ d1) d2).
      rewrite (drop_app_length' ((t8 ++ d1) ++ d2) _ 24) by (rewrite !length_app; lia).
      rewrite firstn_all2 by lia.
      unfold d3. rewrite le_decode_le_bytes by lia.
      rewrite Z.mod_small; [lia|]. change (256 ^ Z.of_nat 8) with (2 ^ 64). lia.
  - intros i Hi.
    rewrite (le_bytes_small (TimestampHashSpec.draw_value s1)),
      (le_bytes_small (TimestampHashSpec.draw_value s2)),
      (le_bytes_small (TimestampHashSpec.draw_value s3)) by lia.
    unfold PoolSpec.le_bytes. cbn [map seq app].
    do 32 (destruct i as [|i]; [first [reflexivity | exfalso; lia]|]).
    exfalso; lia.
Qed.

(** The theorem at the timestamp 1389781800000 and sequence index 0. *)
Lemma generate_entropy_blocks_at_most_65536_witness :
  0 <= 1389781800000 < 2 ^ 64 /\
  exists buf self',
    VulnerablePRNG.generate_entropy (VulnerablePRNG.init 1389781800000 0)
      = Ret (buf, self') /\
    length buf = 32%nat /\
    (forall off : nat, off = 8%nat \/ off = 16%nat \/ off = 24%nat ->
       0 <= TimestampHashSpec.le_decode (TimestampHashSpec.block buf off) <= 65536) /\
    (forall i : nat,
       (11 <= i <= 15)%nat \/ (19 <= i <= 23)%nat \/ (27 <= i <= 31)%nat ->
       buf !! i = Some 0).
Proof.
  assert (H : 0 <= 1389781800000 < 2 ^ 64) by lia.
  split; [exact H|].
  exact (generate_entropy_blocks_at_most_65536 1389781800000 0 H).
Defined.

(** * The membership index *)

Lemma get_bit_ret bf i b :
  BloomFilter.get_bit bf i = Ret b ->
  (i < BloomFilter.num_bits bf)%nat /\ b = bool_decide (i ∈ BloomFilter.bitarray bf).
Proof.
  unfold BloomFilter.get_bit. case_bool_decide; [|done].
  intros [= <-]. done.
Qed.

Lemma set_bit_ret bf i bf' :
  BloomFilter.set_bit bf i = Ret bf' ->
  BloomFilter.same_sizes bf bf' /\
  BloomFilter.capacity bf' = BloomFilter.capacity bf /\
  BloomFilter.bitarray bf' = {[i]} ∪ BloomFilter.bitarray bf.
Proof.
  unfold BloomFilter.set_bit. case_bool_decide; [|done].
  intros [= <-]. done.
Qed.

(** Bits set by [add] are found by [__contains__] in every later filter of
    the same sizes that kept them. *)
Lemma add_bits_then_check (hashes : list nat) :
  forall (offset : nat) (found : bool) (bf : BloomFilter.t) r bf',
    BloomFilter.add_bits hashes offset found bf = Ret (r, bf') ->
    BloomFilter.same_sizes bf bf' /\
    BloomFilter.capacity bf' = BloomFilter.capacity bf /\
    BloomFilter.bitarray bf ⊆ BloomFilter.bitarray bf' /\
    forall bf'',
      BloomFilter.same_sizes bf bf'' ->
      BloomFilter.bitarray bf' ⊆ BloomFilter.bitarray bf'' ->
      BloomFilter.check_bits hashes offset bf'' = Ret true.
Proof.
  induction hashes as [|k rest IH]; intros offset found bf r bf' Hadd.
  - simpl in Hadd. injection Hadd as <- <-. done.
  - simpl in Hadd.
    destruct (BloomFilter.get_bit bf (offset + k)) as [b| |] eqn:Hget; try done.
    simpl in Hadd.
    destruct (BloomFilter.set_bit bf (offset + k)) as [bf1| |] eqn:Hset; try done.
    simpl in Hadd.
    apply get_bit_ret in Hget as [Hrange _].
    apply set_bit_ret in Hset as ([Hns Hbps] & Hcap & Hbits).
    apply IH in Hadd as ([Hns' Hbps'] & Hcap' & Hsub & Hcheck).
    split; [split; congruence|]. split; [congruence|].
    split; [etrans; [|exact Hsub]; rewrite Hbits; apply union_subseteq_r|].
    intros bf'' [Hns'' Hbps''] Hsub''. simpl.
    unfold BloomFilter.get_bit.
    rewrite bool_decide_eq_true_2
      by (unfold BloomFilter.num_bits in *; rewrite <- Hns'', <- Hbps''; done).
    rewrite bool_decide_eq_true_2
      by (apply Hsub'', Hsub; rewrite Hbits;
          by apply elem_of_union_l, elem_of_singleton).
    simpl. rewrite <- Hbps'', Hbps.
    apply Hcheck; [split; congruence|done].
Qed.

Lemma add_then_contains lib key bf r bf' :
  BloomFilter.add lib key bf = Ret (r, bf') ->
  BloomFilter.same_sizes bf bf' /\
  BloomFilter.capacity bf' = BloomFilter.capacity bf /\
  BloomFilter.bitarray bf ⊆ BloomFilter.bitarray bf' /\
  forall bf'',
    BloomFilter.same_sizes bf bf'' ->
    BloomFilter.bitarray bf' ⊆ BloomFilter.bitarray bf'' ->
    BloomFilter.contains lib key bf'' = Ret true.
Proof.
  unfold BloomFilter.add, BloomFilter.contains.
  case_match; [done|].
  destruct (BloomFilter.add_bits _ 0 true bf) as [[fa bf1]| |] eqn:Hadd; try done.
  simpl. apply add_bits_then_check in Hadd as ([Hns Hbps] & Hcap & Hsub & Hcheck).
  destruct fa; intros [= <- <-]; simpl.
  - split; [done|]. split; [done|]. split; [done|].
    intros bf'' [Hns'' Hbps''] Hsub''. rewrite <- Hns'', <- Hbps''.
    by apply Hcheck.
  - split; [done|]. split; [done|]. split; [done|].
    intros bf'' [Hns'' Hbps''] Hsub''. rewrite <- Hns'', <- Hbps''.
    by apply Hcheck.
Qed.

(** The insertion loop of [construct_bloom_filter]. *)
Lemma insert_all_then_contains lib (lines : list string) :
  forall bf bf',
    for_each lines
      (fun line bf =>
         '(_, bf) ← BloomFilter.add lib (BloomUtil.encode (BloomUtil.strip line)) bf;
         Ret bf) bf = Ret bf' ->
    BloomFilter.same_sizes bf bf' /\
    BloomFilter.bitarray bf ⊆ BloomFilter.bitarray bf' /\
    forall line, line ∈ lines ->
      BloomFilter.contains lib (BloomUtil.encode (BloomUtil.strip line)) bf' = Ret true.
Proof.
  induction lines as [|l lines IH]; intros bf bf' Hrun.
  - simpl in Hrun. injection Hrun as <-.
    split; [done|]. split; [done|]. intros line Hin. by apply elem_of_nil in Hin.
  - simpl in Hrun.
    destruct (BloomFilter.add lib _ bf) as [[r bf1]| |] eqn:Hadd; try done.
    simpl in Hrun.
    apply add_then_contains in Hadd as ([Hns Hbps] & _ & Hsub & Hcontains).
    apply IH in Hrun as ([Hns' Hbps'] & Hsub' & Hrest).
    split; [split; congruence|]. split; [by etrans|].
    intros line Hin. apply elem_of_cons in Hin as [->|Hin].
    + apply Hcontains; [split; congruence|done].
    + by apply Hrest.
Qed.

(** Persisting a filter and loading it back restores it. *)
Lemma load_dump bf : BloomFilter.load (BloomFilter.dump bf) = Ret bf.
Proof.
  unfold BloomFilter.load, BloomFilter.dump. simpl.
  rewrite !Nat2Z.id, list_to_set_elements_L. by destruct bf.
Qed.

(** With a well-formed hash family every position [add] touches is inside
    the bit array. *)
Lemma add_bits_returns (hashes : list nat) :
  forall (j : nat) (found : bool) (bf : BloomFilter.t),
    (length hashes + j <= BloomFilter.num_slices bf)%nat ->
    Forall (fun k => (k < BloomFilter.bits_per_slice bf)%nat) hashes ->
    exists r bf',
      BloomFilter.add_bits hashes (j * BloomFilter.bits_per_slice bf) found bf
        = Ret (r, bf') /\
      BloomFilter.same_sizes bf bf' /\
      BloomFilter.capacity bf' = BloomFilter.capacity bf /\
      BloomFilter.count bf' = BloomFilter.count bf.
Proof.
  induction hashes as [|k rest IH]; intros j found bf Hlen Hall.
  - eexists _, _. split; [reflexivity|]. done.
  - apply Forall_cons in Hall as [Hk Hall]. simpl in Hlen.
    assert (Hpos : (j * BloomFilter.bits_per_slice bf + k < BloomFilter.num_bits bf)%nat).
    { unfold BloomFilter.num_bits. nia. }
    simpl. unfold BloomFilter.get_bit, BloomFilter.set_bit.
    rewrite !bool_decide_eq_true_2 by done. simpl.
    set (bf1 := BloomFilter.Build _ _ _ _ _).
    replace (j * BloomFilter.bits_per_slice bf + BloomFilter.bits_per_slice bf)%nat
      with (S j * BloomFilter.bits_per_slice bf1)%nat by (simpl; lia).
    match goal with
    | |- context [BloomFilter.add_bits rest _ ?f bf1] =>
        destruct (IH (S j) f bf1) as (r & bf' & -> & Hsz & Hcap & Hcnt);
          [simpl; lia|done|]
    end.
    exists r, bf'. done.
Qed.

Lemma add_returns lib key bf :
  BloomFilter.well_formed lib ->
  BloomFilter.count bf <= BloomFilter.capacity bf ->
  exists r bf',
    BloomFilter.add lib key bf = Ret (r, bf') /\
    BloomFilter.capacity bf' = BloomFilter.capacity bf /\
    BloomFilter.count bf' <= BloomFilter.count bf + 1.
Proof.
  intros Hwf Hcount. unfold BloomFilter.add.
  destruct (Z.ltb_spec (BloomFilter.capacity bf) (BloomFilter.count bf)); [lia|].
  destruct (Hwf (BloomFilter.num_slices bf) (BloomFilter.bits_per_slice bf) key)
    as [Hlen Hall].
  destruct (add_bits_returns _ 0 true bf ltac:(rewrite Hlen; lia) Hall)
    as (r & bf1 & Hrun & _ & Hcap & Hcnt).
  change (0 * BloomFilter.bits_per_slice bf)%nat with 0%nat in Hrun.
  rewrite Hrun. simpl.
  destruct r; eexists _, _; (split; [reflexivity|]); simpl; split; lia.
Qed.

(** [construct_bloom_filter] returns when the address file exists, the
    hash family is well formed and the file has at most capacity + 1
    lines. *)
Lemma construct_bloom_filter_returns lib (fs : BloomUtil.files)
    (addresses_file filter_file : string) (lines : list string)
    (out : list string) :
  BloomFilter.well_formed lib ->
  fs !! addresses_file = Some (BloomUtil.Text lines) ->
  Z.of_nat (length lines) <= 1180626779 + 1 ->
  exists fs',
    BloomUtil.construct_bloom_filter lib addresses_file filter_file fs out
      = (out ++ ["Bloom filter created and saved as " +:+ filter_file], Ret fs').
Proof.
  intros Hwf Hfile Hlen.
  assert (Hloop : forall ls bf,
    BloomFilter.count bf + Z.of_nat (length ls) <= BloomFilter.capacity bf + 1 ->
    exists bf',
      for_each ls
        (fun line bf =>
           '(_, bf) ← BloomFilter.add lib (BloomUtil.encode (BloomUtil.strip line)) bf;
           Ret bf) bf = Ret bf').
  { induction ls as [|l ls IH]; intros bf Hc.
    - by exists bf.
    - simpl in Hc. simpl.
      destruct (add_returns lib (BloomUtil.encode (BloomUtil.strip l)) bf Hwf)
        as (r & bf1 & -> & Hcap & Hcnt); [lia|].
      simpl. apply IH. lia. }
  destruct (Hloop lines (BloomFilter.create lib 1180626779)) as [bf' Hrun];
    [simpl; lia|].
  unfold BloomUtil.construct_bloom_filter.
  unfold mbind, IO.io_bind, IO.bind, IO.lift, BloomUtil.read_lines.
  rewrite Hfile.
  destruct (for_each lines _ _) as [bf''|e|] eqn:Hrun'.
  - eexists. reflexivity.
  - discriminate Hrun.
  - discriminate Hrun.
Qed.

(** ** Claims on the membership index *)

(** C2: no false negatives.  When [construct_bloom_filter] has read the
    address file and written the filter file, [check_address] on the
    reloaded filter returns true for every line of the address file,
    stripped as it was when inserted. *)
Theorem construct_then_check_no_false_negatives
    (lib : BloomFilter.params) (fs fs' : BloomUtil.files)
    (addresses_file filter_file : string) (lines : list string)
    (out out' : list string) :
  fs !! addresses_file = Some (BloomUtil.Text lines) ->
  BloomUtil.construct_bloom_filter lib addresses_file filter_file fs out
    = (out', Ret fs') ->
  forall line, line ∈ lines ->
    forall o,
      BloomUtil.check_address lib filter_file (BloomUtil.strip line) fs' o
        = (o ++ ["Address " +:+ BloomUtil.strip line +:+ " is in the filter"],
           Ret true).
Proof.
  intros Hfile Hrun line Hin o.
  unfold BloomUtil.construct_bloom_filter in Hrun.
  unfold mbind, IO.io_bind, IO.bind, IO.lift, BloomUtil.read_lines in Hrun.
  rewrite Hfile in Hrun.
  destruct (for_each lines _ _) as [bf| |] eqn:Hloop; try done.
  simpl in Hrun. injection Hrun as _ <-.
  apply insert_all_then_contains in Hloop as (_ & _ & Hall).
  unfold BloomUtil.check_address.
  unfold mbind, IO.io_bind, IO.bind, IO.lift, BloomUtil.load_filter.
  rewrite lookup_insert_eq, load_dump.
  rewrite (Hall line Hin). reflexivity.
Qed.

(** The theorem on a two-line address file and the small library. *)
Lemma construct_then_check_no_false_negatives_witness :
  BloomUtil.toy_files !! "addresses.txt"
    = Some (BloomUtil.Text ["1A" +:+ BloomUtil.newline; " 1B " +:+ BloomUtil.newline]) /\
  BloomUtil.construct_bloom_filter BloomUtil.toy_library
      "addresses.txt" "filter.bin" BloomUtil.toy_files []
    = (["Bloom filter created and saved as filter.bin"],
       Ret BloomUtil.toy_files_with_filter) /\
  forall line, line ∈ ["1A" +:+ BloomUtil.newline; " 1B " +:+ BloomUtil.newline] ->
    forall o,
      BloomUtil.check_address BloomUtil.toy_library "filter.bin"
          (BloomUtil.strip line) BloomUtil.toy_files_with_filter o
        = (o ++ ["Address " +:+ BloomUtil.strip line +:+ " is in the filter"],
           Ret true).
Proof.
  assert (H1 : BloomUtil.toy_files !! "addresses.txt"
    = Some (BloomUtil.Text ["1A" +:+ BloomUtil.newline; " 1B " +:+ BloomUtil.newline]))
    by (vm_compute; reflexivity).
  assert (H2 : BloomUtil.construct_bloom_filter BloomUtil.toy_library
      "addresses.txt" "filter.bin" BloomUtil.toy_files []
    = (["Bloom filter created and saved as filter.bin"],
       Ret BloomUtil.toy_files_with_filter))
    by (vm_compute; reflexivity).
  split; [exact H1|]. split; [exact H2|].
  exact (construct_then_check_no_false_negatives BloomUtil.toy_library
           BloomUtil.toy_files BloomUtil.toy_files_with_filter
           "addresses.txt" "filter.bin" _ [] _ H1 H2).
Defined.


(** A row with fewer than two fields, reached with the skip counter at
    zero, ends the loop body with [NameError]: the expression [e] of the
    [except] clause is bound nowhere. *)
Lemma csv_row_short_row_raises lib bf (dataline : list string)
    (st : BloomUtil.counters) (out : list string) :
  (length dataline < 2)%nat ->
  BloomUtil.skip_lines_remaining st <= 0 ->
  BloomUtil.csv_row lib bf dataline st out = (out, Raise (NameError "e")).
Proof.
  intros Hlen Hskip. unfold BloomUtil.csv_row.
  destruct (Z.ltb_spec 0 (BloomUtil.skip_lines_remaining st)); [lia|].
  destruct dataline as [|x [|y rest]]; [| |simpl in Hlen; lia]; reflexivity.
Qed.

(** C8 (evaluated on the code): with the filter that
    [construct_bloom_filter] builds from the lines "1A" and " 1B "
    and the rows [1,1A], [2], [3,1B], [check_address_csv] prints the hit
    of the first row and then ends with [NameError] at the short second
    row: the third row is never checked and no total is printed.  With an
    [except] clause that catches the error the same loop prints "broken
    input, skipping", the hit of the third row and the total.  Resuming
    with [skip_lines = 2] passes over the first two rows and checks the
    third. *)
Theorem check_address_csv_aborts_on_short_row :
  BloomUtil.construct_bloom_filter BloomUtil.toy_library
      "addresses.txt" "filter.bin" BloomUtil.toy_files []
    = (["Bloom filter created and saved as filter.bin"],
       Ret BloomUtil.toy_files_with_filter) /\
  BloomUtil.toy_files_with_filter !! "rows.csv"
    = Some (BloomUtil.Csv [["1"; "1A"]; ["2"]; ["3"; "1B"]]) /\
  BloomUtil.check_address_csv BloomUtil.toy_library "filter.bin" "rows.csv" 0
      BloomUtil.toy_files_with_filter []
    = (["unpickled bloom filter file"; "1,1A"], Raise (NameError "e")) /\
  BloomUtil.check_address_csv_with (BloomUtil.csv_row_skipping BloomUtil.toy_library)
      "filter.bin" "rows.csv" 0 BloomUtil.toy_files_with_filter []
    = (["unpickled bloom filter file"; "1,1A"; "broken input, skipping"; "3,1B";
        "found 2 address hits in total against the bloom filter"], Ret tt) /\
  BloomUtil.check_address_csv BloomUtil.toy_library "filter.bin" "rows.csv" 2
      BloomUtil.toy_files_with_filter []
    = (["unpickled bloom filter file"; "3,1B";
        "found 1 address hits in total against the bloom filter"], Ret tt).
Proof. repeat split; vm_compute; reflexivity. Qed.

(** * The kernel source generator *)

Lemma writes_print s : IO.writes (IO.print s) [s] (Ret tt).
Proof. intros out. reflexivity. Qed.

Lemma writes_lift {A} (m : outcome A) : IO.writes (IO.lift m) [] m.
Proof. intros out. unfold IO.lift. by rewrite app_nil_r. Qed.

Lemma writes_ret {A} (a : A) : IO.writes (mret a) [] (Ret a).
Proof. intros out. unfold mret, IO.io_ret, IO.ret. by rewrite app_nil_r. Qed.

(** Sequencing keeps the output a function of the program alone. *)
Lemma writes_bind {A B} (m : IO.t A) (k : A -> IO.t B) :
  (exists text res, IO.writes m text res) ->
  (forall a, exists text res, IO.writes (k a) text res) ->
  exists text res, IO.writes (m ≫= k) text res.
Proof.
  intros (t1 & r1 & H1) Hk. destruct r1 as [a|e|].
  - destruct (Hk a) as (t2 & r2 & H2).
    exists (t1 ++ t2), r2. intros out.
    unfold mbind, IO.io_bind, IO.bind. rewrite H1, H2. by rewrite app_assoc.
  - exists t1, (Raise e). intros out.
    unfold mbind, IO.io_bind, IO.bind. by rewrite H1.
  - exists t1, Diverge. intros out.
    unfold mbind, IO.io_bind, IO.bind. by rewrite H1.
Qed.

Lemma writes_for_each {X S} (xs : list X) (body : X -> S -> IO.t S) :
  (forall x s, exists text res, IO.writes (body x s) text res) ->
  forall s, exists text res, IO.writes (IO.for_each xs body s) text res.
Proof.
  intros Hbody. induction xs as [|x xs IH]; intros s; simpl.
  - eexists _, _. apply writes_ret.
  - apply writes_bind; [apply Hbody|apply IH].
Qed.

Ltac io_writes :=
  repeat first
    [ apply writes_bind; [|intros ?]
    | apply writes_for_each; intros ? ?
    | (eexists _, _; apply writes_print)
    | (eexists _, _; apply writes_lift)
    | (eexists _, _; apply writes_ret) ].

(** C9: kernel-generation determinism.  For every round table there is
    one text and one way of ending (normal, or the exception raised on an
    ill-formed table) such that every run of the generator on that table
    appends exactly that text to the output and ends that way; two runs
    on the same table therefore print byte-identical text.  On the
    module's own table [rounds] the run ends normally after 26 print
    calls, and the text of its first round starts with [round1_head]. *)
Theorem generate_is_deterministic (table : list RipemdGen.round_spec) :
  (exists (text : list string) (res : outcome unit),
     forall out1 out2 : list string,
       RipemdGen.generate table out1 = (out1 ++ text, res) /\
       RipemdGen.generate table out2 = (out2 ++ text, res)) /\
  (exists text,
     RipemdGen.generate RipemdGen.rounds [] = (text, Ret tt) /\
     length text = 26%nat /\
     exists round1,
       text !! 4%nat = Some round1 /\
       take 4 (RipemdGen.split (ascii_of_nat 10) round1) = RipemdGen.round1_head).
Proof.
  split.
  - assert (H : exists text res, IO.writes (RipemdGen.generate table) text res)
      by (unfold RipemdGen.generate; io_writes).
    destruct H as (text & res & H).
    exists text, res. intros out1 out2. split; apply H.
  - eexists. split; [vm_compute; reflexivity|].
    split; [reflexivity|].
    eexists. split; [reflexivity|]. vm_compute. reflexivity.
Qed.

(** * More on [validate_parity.py] *)

Lemma land_ones_mod x n : 0 <= n -> Z.land x (2 ^ n - 1) = x mod 2 ^ n.
Proof.
  intros Hn. replace (2 ^ n - 1) with (Z.ones n); [by apply Z.land_ones|].
  rewrite Z.ones_equiv. lia.
Qed.

Lemma v8_lane_step (k s : Z) :
  0 < k <= 30903 -> 0 < s < 2 ^ 32 ->
  0 < Z.land (k * Z.land s 0xFFFF + Z.shiftr s 16) 0xFFFFFFFF < 2 ^ 32.
Proof.
  intros Hk Hs.
  change 0xFFFF with (2 ^ 16 - 1). change 0xFFFFFFFF with (2 ^ 32 - 1).
  rewrite !land_ones_mod by lia.
  rewrite Z.shiftr_div_pow2 by lia.
  pose proof (Z.div_mod s (2 ^ 16) ltac:(lia)) as Hdm.
  pose proof (Z.mod_pos_bound s (2 ^ 16) ltac:(lia)) as Hlo.
  assert (Hhi : 0 <= s / 2 ^ 16 < 2 ^ 16).
  { split; [apply Z.div_pos; lia|apply Z.div_lt_upper_bound; lia]. }
  rewrite Z.mod_small; nia.
Qed.

(** X1: the zero-state guard works.  After [V8Mwc1616(seed)], for every
    seed and every number of [next_u16] calls, both registers are non-zero
    32-bit values; and the guard is needed, because a register that is
    zero stays zero under the update rule. *)
Theorem v8_registers_never_zero (seed : Z) (n : nat) :
  (0 < V8Mwc1616.s1 (ParityRuns.v8_after n (V8Mwc1616.init seed)) < 2 ^ 32 /\
   0 < V8Mwc1616.s2 (ParityRuns.v8_after n (V8Mwc1616.init seed)) < 2 ^ 32) /\
  (forall s2, V8Mwc1616.s1 (ParityRuns.v8_after n (V8Mwc1616.Build 0 s2)) = 0) /\
  (forall s1, V8Mwc1616.s2 (ParityRuns.v8_after n (V8Mwc1616.Build s1 0)) = 0).
Proof.
  split; [|split].
  - assert (Hinit : 0 < V8Mwc1616.s1 (V8Mwc1616.init seed) < 2 ^ 32 /\
                    0 < V8Mwc1616.s2 (V8Mwc1616.init seed) < 2 ^ 32).
    { unfold V8Mwc1616.init. cbn [V8Mwc1616.s1 V8Mwc1616.s2].
      change 0xFFFFFFFF with (2 ^ 32 - 1). rewrite !land_ones_mod by lia.
      pose proof (Z.mod_pos_bound seed (2 ^ 32) ltac:(lia)) as Hlo.
      pose proof (Z.mod_pos_bound (Z.shiftr seed 32) (2 ^ 32) ltac:(lia)) as Hhi.
      split.
      - destruct (Z.eqb_spec (seed mod 2 ^ 32) 0); lia.
      - destruct (Z.eqb_spec (Z.shiftr seed 32 mod 2 ^ 32) 0); lia. }
    revert Hinit. generalize (V8Mwc1616.init seed). clear seed.
    induction n as [|n IH]; intros st [H1 H2]; [done|].
    cbn [ParityRuns.v8_after]. apply IH.
    unfold V8Mwc1616.next_u16. cbn [snd V8Mwc1616.s1 V8Mwc1616.s2].
    split; apply v8_lane_step; lia.
  - induction n as [|n IH]; intros s2; [done|].
    cbn [ParityRuns.v8_after]. unfold V8Mwc1616.next_u16 at 1.
    cbn [snd V8Mwc1616.s1 V8Mwc1616.s2].
    change (Z.land (18000 * Z.land 0 65535 + Z.shiftr 0 16) 4294967295) with 0.
    apply IH.
  - induction n as [|n IH]; intros s1; [done|].
    cbn [ParityRuns.v8_after]. unfold V8Mwc1616.next_u16 at 1.
    cbn [snd V8Mwc1616.s1 V8Mwc1616.s2].
    change (Z.land (30903 * Z.land 0 65535 + Z.shiftr 0 16) 4294967295) with 0.
    apply IH.
Qed.

Lemma lor_shiftl_disjoint (a b n : Z) :
  0 <= n -> 0 <= b < 2 ^ n -> Z.lor (Z.shiftl a n) b = a * 2 ^ n + b.
Proof.
  intros Hn Hb.
  rewrite Z.shiftl_mul_pow2 by lia.
  assert (Hland : Z.land (a * 2 ^ n) b = 0).
  { apply Z.bits_inj'. intros i Hi. rewrite Z.land_spec, Z.bits_0.
    destruct (Z.lt_ge_cases i n).
    + rewrite Z.mul_pow2_bits_low by lia. done.
    + destruct (Z.eq_dec b 0) as [->|];
        [by rewrite Z.bits_0, andb_false_r|].
      rewrite (Z.bits_above_log2 b i); [apply andb_false_r|lia|].
      assert (2 ^ n <= 2 ^ i) by (apply Z.pow_le_mono_r; lia).
      apply Z.log2_lt_pow2; lia. }
  rewrite (Z.add_nocarry_lxor _ _ Hland).
  symmetry. by apply Z.lxor_lor.
Qed.

Lemma crt_rand_range state :
  0 <= (ParityRuns.crt_rand state).1 < 2 ^ 15 /\
  0 <= (ParityRuns.crt_rand state).2 < 2 ^ 32.
Proof.
  unfold ParityRuns.crt_rand. cbn [fst snd].
  change 0x7FFF with (2 ^ 15 - 1). change 0xFFFFFFFF with (2 ^ 32 - 1).
  rewrite !land_ones_mod by lia.
  split; apply Z.mod_pos_bound; lia.
Qed.

(** X2: [SafariCrt.next_u16] is two successive calls of the runtime's
    15-bit [rand()]: its result is the first draw followed by the top bit
    of the second (twice the first plus the second divided by 2^14), a
    16-bit value, and the state is the one after the second call. *)
Theorem safari_next_u16_two_draws (self : SafariCrt.t) :
  let first := ParityRuns.crt_rand (SafariCrt.state self) in
  let second := ParityRuns.crt_rand first.2 in
  SafariCrt.next_u16 self
    = (2 * first.1 + second.1 / 2 ^ 14, SafariCrt.Build second.2) /\
  0 <= (SafariCrt.next_u16 self).1 < 2 ^ 16.
Proof.
  intros first second.
  pose proof (crt_rand_range (SafariCrt.state self)) as [H1 _].
  pose proof (crt_rand_range first.2) as [H2 _].
  fold first in H1. fold second in H2.
  assert (Hq : 0 <= second.1 / 2 ^ 14 <= 1).
  { split; [apply Z.div_pos; lia|].
    assert (second.1 / 2 ^ 14 < 2) by (apply Z.div_lt_upper_bound; lia). lia. }
  assert (E : SafariCrt.next_u16 self
              = (2 * first.1 + second.1 / 2 ^ 14, SafariCrt.Build second.2)).
  { unfold SafariCrt.next_u16.
    change (Z.land (SafariCrt.state self * 214013 + 2531011) 4294967295)
      with first.2.
    change (Z.land (Z.shiftr first.2 16) 32767) with first.1.
    change (Z.land (first.2 * 214013 + 2531011) 4294967295) with second.2.
    change (Z.land (Z.shiftr second.2 16) 32767) with second.1.
    f_equal.
    rewrite lor_shiftl_disjoint by lia.
    rewrite Z.shiftr_div_pow2 by lia.
    change 0xFFFF with (2 ^ 16 - 1). rewrite land_ones_mod by lia.
    replace (first.1 * 2 ^ 15 + second.1) with (second.1 + (2 * first.1) * 2 ^ 14) by lia.
    rewrite Z.div_add by lia.
    rewrite Z.mod_small; lia. }
  split; [exact E|]. rewrite E. cbn [fst]. lia.
Qed.

(** X3: whatever generator instance [prng.next_u16()] is called on, the
    value returned is a 16-bit number, so the two bytes the pool-filling
    loop takes from it are its high and low byte; on a cipher instance the
    call raises [AttributeError]. *)
Theorem next_u16_is_16_bit (o : Store.instance) :
  match Store.next_u16 o with
  | Ret (v, _) =>
      0 <= v < 2 ^ 16 /\
      v = 256 * Z.land (Z.shiftr v 8) 0xFF + Z.land v 0xFF
  | Raise e => e = AttributeError /\ exists a, o = Store.Arc4 a
  | Diverge => False
  end.
Proof.
  assert (Hsplit : forall v, 0 <= v < 2 ^ 16 ->
            v = 256 * Z.land (Z.shiftr v 8) 0xFF + Z.land v 0xFF).
  { intros v Hv. rewrite shiftr_8_land, land_255.
    assert (0 <= v / 256 < 256)
      by (split; [apply Z.div_pos; lia|apply Z.div_lt_upper_bound; lia]).
    rewrite (Z.mod_small (v / 256)) by lia.
    apply Z.div_mod. lia. }
  assert (Hmask : forall x, 0 <= Z.land x 0xFFFF < 2 ^ 16).
  { intros x. change 0xFFFF with (2 ^ 16 - 1). rewrite land_ones_mod by lia.
    apply Z.mod_pos_bound. lia. }
  destruct o as [p|p|p|a]; cbn [Store.next_u16].
  - unfold V8Mwc1616.next_u16. split; [apply Hmask|apply Hsplit, Hmask].
  - unfold JavaLcg.next_u16. split; [apply Hmask|apply Hsplit, Hmask].
  - unfold SafariCrt.next_u16. split; [apply Hmask|apply Hsplit, Hmask].
  - split; [done|by exists a].
Qed.

(** * The cipher table is a permutation *)

Lemma swap_lookup (s : list Z) (i j : Z) (k : nat) :
  0 <= i < Z.of_nat (length s) -> 0 <= j < Z.of_nat (length s) ->
  PoolSpec.swap s i j !! k =
    s !! (if decide (k = Z.to_nat j) then Z.to_nat i
          else if decide (k = Z.to_nat i) then Z.to_nat j else k).
Proof.
  intros Hi Hj. unfold PoolSpec.swap, PoolSpec.zset, PoolSpec.zget.
  destruct (lookup_lt_is_Some_2 s (Z.to_nat i) ltac:(lia)) as [x Hx].
  destruct (lookup_lt_is_Some_2 s (Z.to_nat j) ltac:(lia)) as [y Hy].
  rewrite Hx, Hy. simpl.
  rewrite !list_lookup_insert, !length_insert.
  repeat case_decide; destruct_and?; subst; rewrite ?Hx, ?Hy;
    first [done | exfalso; lia].
Qed.

Lemma swap_nodup (s : list Z) (i j : Z) :
  0 <= i < Z.of_nat (length s) -> 0 <= j < Z.of_nat (length s) ->
  NoDup s -> NoDup (PoolSpec.swap s i j).
Proof.
  intros Hi Hj Hnd. apply NoDup_alt. intros a b x Ha Hb.
  rewrite swap_lookup in Ha, Hb by done.
  pose proof (NoDup_lookup s _ _ x Hnd Ha Hb) as E.
  repeat case_decide; lia.
Qed.

Lemma nodup_identity : NoDup (range 0 256).
Proof.
  unfold range. apply NoDup_fmap_2; [|apply NoDup_seq].
  intros a b. lia.
Qed.

(** A duplicate-free table of 256 bytes lists every byte once. *)
Lemma nodup_table_permutation (s : list Z) :
  PoolSpec.wf_table s -> NoDup s -> s ≡ₚ range 0 256.
Proof.
  intros [Hlen Hall] Hnd.
  apply NoDup_Permutation_bis;
    [by apply NoDup_ListNoDup|rewrite range_length, Hlen; lia|].
  intros x Hx. apply list_elem_of_In in Hx.
  eapply Forall_forall in Hall; [|exact Hx].
  apply list_elem_of_In. unfold range. apply list_elem_of_fmap.
  exists (Z.to_nat x). split; [lia|]. apply elem_of_seq. lia.
Qed.

Lemma init_nodup key :
  key <> [] ->
  exists a, ARC4.init key = Ret a /\ ARC4.i a = 0 /\ ARC4.j a = 0 /\
            PoolSpec.wf_table (ARC4.s a) /\ NoDup (ARC4.s a).
Proof.
  intros Hkey. unfold ARC4.init.
  destruct (for_each_foldl (range 0 256) (ARC4.init_step key)
              (PoolSpec.ksa_step key)
              (fun sj => PoolSpec.wf_table sj.1 /\ NoDup sj.1) (range 0 256, 0))
    as [-> [Hwf Hnd]].
  - intros i [s j] Hin [Hs Hd]. cbn [fst] in Hs, Hd.
    assert (Hi : 0 <= i < 256).
    { unfold range in Hin. apply list_elem_of_fmap in Hin as (k & -> & Hk).
      apply elem_of_seq in Hk. lia. }
    destruct (init_step_total key s j i Hkey Hs Hi) as [-> Hwf'].
    split; [done|]. split; [done|].
    unfold PoolSpec.ksa_step. cbn [fst snd].
    pose proof Hs as [Hlen _].
    apply swap_nodup; [lia| |done].
    rewrite Hlen. apply Z.mod_pos_bound. lia.
  - cbn [fst]. split; [apply wf_table_identity|apply nodup_identity].
  - destruct (foldl _ _ _) as [s j]. cbn [fst] in Hwf, Hnd.
    eexists. split; [reflexivity|]. done.
Qed.

Lemma next_bytes_nodup (n : nat) :
  forall a, PoolSpec.wf_table (ARC4.s a) -> NoDup (ARC4.s a) ->
    exists out a',
      ParityRuns.next_bytes n a = Ret (out, a') /\
      length out = n /\ Forall (fun b => 0 <= b < 256) out /\
      PoolSpec.wf_table (ARC4.s a') /\ NoDup (ARC4.s a').
Proof.
  induction n as [|n IH]; intros a Hwf Hnd.
  - exists [], a. done.
  - pose proof (next_byte_total a Hwf) as Hnb. cbv zeta in Hnb.
    set (i1 := (ARC4.i a + 1) mod 256) in *.
    set (j1 := (ARC4.j a + PoolSpec.zget (ARC4.s a) i1) mod 256) in *.
    set (s1 := PoolSpec.swap (ARC4.s a) i1 j1) in *.
    destruct Hnb as (Hnb & Hwf' & Hout).
    assert (Hnd' : NoDup s1).
    { pose proof Hwf as [Hlen _].
      apply swap_nodup; [| |done]; rewrite Hlen; apply Z.mod_pos_bound; lia. }
    destruct (IH (ARC4.Build s1 i1 j1) Hwf' Hnd')
      as (out & a' & Hrun & Hlen & Hall & Hwf'' & Hnd'').
    exists (PoolSpec.zget s1 ((PoolSpec.zget s1 i1 + PoolSpec.zget s1 j1) mod 256) :: out), a'.
    cbn [ParityRuns.next_bytes]. rewrite Hnb.
    cbn [mbind outcome_bind Py.bind]. rewrite Hrun.
    split; [reflexivity|]. split; [simpl; lia|]. split; [by constructor|]. done.
Qed.

(** X4: [ARC4(key)] raises [ZeroDivisionError] on an empty key and
    otherwise returns with both counters at 0 and a table that lists each
    of the values 0..255 exactly once; any number of [next_byte] calls
    returns that many bytes (each in 0..255) and leaves the table a
    permutation of 0..255. *)
Theorem arc4_table_is_a_permutation (key : list Z) (n : nat) :
  (key = [] -> ARC4.init key = Raise ZeroDivisionError) /\
  (key <> [] ->
   exists a, ARC4.init key = Ret a /\ ARC4.i a = 0 /\ ARC4.j a = 0 /\
     ARC4.s a ≡ₚ range 0 256 /\
     exists out a',
       ParityRuns.next_bytes n a = Ret (out, a') /\
       length out = n /\ Forall (fun b => 0 <= b < 256) out /\
       ARC4.s a' ≡ₚ range 0 256).
Proof.
  split.
  - intros ->. vm_compute. reflexivity.
  - intros Hkey.
    destruct (init_nodup key Hkey) as (a & Hinit & Hi & Hj & Hwf & Hnd).
    exists a. split; [done|]. split; [done|]. split; [done|].
    split; [by apply nodup_table_permutation|].
    destruct (next_bytes_nodup n a Hwf Hnd) as (out & a' & Hrun & Hlen & Hall & Hwf' & Hnd').
    exists out, a'. split; [done|]. split; [done|]. split; [done|].
    by apply nodup_table_permutation.
Qed.

(** The theorem at the one-byte key [[7]] and 40 keystream bytes. *)
Lemma arc4_table_is_a_permutation_witness :
  [7] <> [] /\
  exists a, ARC4.init [7] = Ret a /\ ARC4.i a = 0 /\ ARC4.j a = 0 /\
    ARC4.s a ≡ₚ range 0 256 /\
    exists out a',
      ParityRuns.next_bytes 40 a = Ret (out, a') /\
      length out = 40%nat /\ Forall (fun b => 0 <= b < 256) out /\
      ARC4.s a' ≡ₚ range 0 256.
Proof.
  assert (H : [7] <> @nil Z) by discriminate.
  split; [exact H|].
  exact (proj2 (arc4_table_is_a_permutation [7] 40) H).
Defined.

(** * More on [derive_privkey_python] *)

(** X5: for an engine name outside 'v8', 'java', 'ie', 'safari-win',
    [derive_privkey_python] returns [None] and creates no object. *)
Theorem derive_privkey_python_unsupported
    (ts : Z) (engine : string) (h : Store.store) :
  engine ∉ Parity.supported_engines ->
  Parity.derive_privkey_python ts engine h = Ret (None, h).
Proof. apply derive_unsupported. Qed.

(** The theorem at the engine name 'safari'. *)
Lemma derive_privkey_python_unsupported_witness :
  ("safari" ∉ Parity.supported_engines) /\
  Parity.derive_privkey_python 1389781800000 "safari" [] = Ret (None, []).
Proof.
  assert (H : "safari" ∉ Parity.supported_engines).
  { unfold Parity.supported_engines. intros Hin.
    repeat (apply elem_of_cons in Hin as [Hin|Hin]; [discriminate Hin|]).
    by apply elem_of_nil in Hin. }
  split; [exact H|].
  exact (derive_privkey_python_unsupported 1389781800000 "safari" [] H).
Defined.

Lemma bits_agree (x y n i : Z) :
  x mod 2 ^ n = y mod 2 ^ n -> 0 <= i < n -> Z.testbit x i = Z.testbit y i.
Proof.
  intros E Hi.
  rewrite <- (Z.mod_pow2_bits_low x n i), <- (Z.mod_pow2_bits_low y n i) by lia.
  by rewrite E.
Qed.

Lemma shiftr_land_congr (x y a b n : Z) :
  0 <= a -> 0 <= b -> a + b <= n ->
  x mod 2 ^ n = y mod 2 ^ n ->
  Z.land (Z.shiftr x a) (Z.ones b) = Z.land (Z.shiftr y a) (Z.ones b).
Proof.
  intros Ha Hb Hab E. apply Z.bits_inj'. intros i Hi.
  rewrite !Z.land_spec, !Z.shiftr_spec by lia.
  destruct (Z.lt_ge_cases i b).
  - rewrite (bits_agree x y n (i + a)) by (done || lia). done.
  - rewrite Z.ones_spec_high by lia. by rewrite !andb_false_r.
Qed.

Lemma land_congr (x y b n : Z) :
  0 <= b <= n -> x mod 2 ^ n = y mod 2 ^ n ->
  Z.land x (Z.ones b) = Z.land y (Z.ones b).
Proof.
  intros Hb E.
  rewrite <- (Z.shiftr_0_r x), <- (Z.shiftr_0_r y).
  apply (shiftr_land_congr x y 0 b n); (done || lia).
Qed.

Lemma whiten_congr (ts ts' : Z) (pool : list Z) :
  ts mod 2 ^ 32 = ts' mod 2 ^ 32 ->
  PoolSpec.whiten ts pool = PoolSpec.whiten ts' pool.
Proof.
  intros E. unfold PoolSpec.whiten. do 2 f_equal.
  unfold PoolSpec.le_bytes. apply map_ext_in. intros k Hk.
  apply in_seq in Hk.
  rewrite <- !shiftr_land_byte.
  change 0xFF with (Z.ones 8).
  apply (shiftr_land_congr ts ts' (8 * Z.of_nat k) 8 32); (done || lia).
Qed.

Lemma mod_pow2_weaken (x y m n : Z) :
  0 <= m <= n -> x mod 2 ^ n = y mod 2 ^ n -> x mod 2 ^ m = y mod 2 ^ m.
Proof.
  intros Hm E.
  rewrite <- !Z.land_ones by lia.
  by apply (land_congr x y m n).
Qed.

Lemma entropy_pool_congr (engine : string) (ts ts' : Z) :
  ts mod 2 ^ ParityRuns.seed_bits engine = ts' mod 2 ^ ParityRuns.seed_bits engine ->
  PoolSpec.entropy_pool engine ts = PoolSpec.entropy_pool engine ts'.
Proof.
  unfold ParityRuns.seed_bits, PoolSpec.entropy_pool, PoolSpec.engine_outputs.
  intros E. f_equal.
  destruct (String.eqb engine "v8"); [|destruct (String.eqb engine "safari-win")].
  - f_equal. unfold V8Mwc1616.init.
    change 0xFFFFFFFF with (Z.ones 32).
    rewrite (land_congr ts ts' 32 64) by (done || lia).
    rewrite (shiftr_land_congr ts ts' 32 32 64) by (done || lia).
    done.
  - f_equal. unfold SafariCrt.init.
    change 0xFFFFFFFF with (Z.ones 32).
    by rewrite (land_congr ts ts' 32 32) by (done || lia).
  - f_equal. unfold JavaLcg.init.
    change (Z.shiftl 1 48 - 1) with (Z.ones 48).
    by rewrite (land_congr ts ts' 48 48) by (done || lia).
Qed.

(** X6: the key depends on the timestamp only through the low bits that
    reach the generator: two timestamps that agree modulo 2^64 ('v8'),
    2^48 ('java', 'ie') or 2^32 ('safari-win') give the same private key. *)
Theorem derive_privkey_python_low_bits
    (ts ts' : Z) (engine : string) (h h' : Store.store) :
  engine ∈ Parity.supported_engines ->
  ts mod 2 ^ ParityRuns.seed_bits engine = ts' mod 2 ^ ParityRuns.seed_bits engine ->
  exists key h1 h2,
    Parity.derive_privkey_python ts engine h = Ret (Some key, h1) /\
    Parity.derive_privkey_python ts' engine h' = Ret (Some key, h2).
Proof.
  intros Hin E.
  assert (K : PoolSpec.private_key engine ts' = PoolSpec.private_key engine ts).
  { unfold PoolSpec.private_key.
    rewrite <- (entropy_pool_congr engine ts ts' E).
    rewrite (whiten_congr ts' ts); [reflexivity|].
    symmetry. apply (mod_pow2_weaken ts ts' 32 (ParityRuns.seed_bits engine)); [|exact E].
    unfold ParityRuns.seed_bits. repeat case_match; lia. }
  destruct (derive_run ts engine h Hin) as (o1 & o2 & H1 & _).
  destruct (derive_run ts' engine h' Hin) as (o1' & o2' & H2 & _).
  exists (PoolSpec.private_key engine ts), (h ++ [o1; o2]), (h' ++ [o1'; o2']).
  split; [exact H1|]. rewrite <- K. exact H2.
Qed.

(** The theorem for 'safari-win' at 1389781800000 and the same timestamp
    plus 2^32. *)
Lemma derive_privkey_python_low_bits_witness :
  ("safari-win" ∈ Parity.supported_engines) /\
  1389781800000 mod 2 ^ ParityRuns.seed_bits "safari-win"
    = (1389781800000 + 2 ^ 32) mod 2 ^ ParityRuns.seed_bits "safari-win" /\
  exists key h1 h2,
    Parity.derive_privkey_python 1389781800000 "safari-win" [] = Ret (Some key, h1) /\
    Parity.derive_privkey_python (1389781800000 + 2 ^ 32) "safari-win" []
      = Ret (Some key, h2).
Proof.
  assert (Hin : "safari-win" ∈ Parity.supported_engines).
  { unfold Parity.supported_engines. do 3 apply list_elem_of_further. constructor. }
  assert (E : 1389781800000 mod 2 ^ ParityRuns.seed_bits "safari-win"
              = (1389781800000 + 2 ^ 32) mod 2 ^ ParityRuns.seed_bits "safari-win")
    by (vm_compute; reflexivity).
  split; [exact Hin|]. split; [exact E|].
  exact (derive_privkey_python_low_bits 1389781800000 (1389781800000 + 2 ^ 32)
           "safari-win" [] [] Hin E).
Defined.

(** * More on the timestamp-hash derivation *)

(** X7: [derive_private_key] raises [OverflowError] exactly when the
    timestamp does not fit 8 unsigned bytes, that is when it is negative
    or at least 2^64, whatever the sequence index. *)
Theorem derive_private_key_overflow
    (sha256 : list Z -> list Z) (ts sequence : Z) :
  VulnerablePRNG.derive_private_key sha256 (VulnerablePRNG.init ts sequence)
    = Raise OverflowError
  <-> (ts < 0 \/ 2 ^ 64 <= ts).
Proof.
  unfold VulnerablePRNG.derive_private_key. split.
  - intros H. destruct (Z.lt_ge_cases ts 0) as [|H0]; [by left|].
    destruct (Z.lt_ge_cases ts (2 ^ 64)) as [H1|]; [|by right].
    rewrite generate_entropy_run in H by lia. discriminate H.
  - intros H. unfold VulnerablePRNG.generate_entropy, VulnerablePRNG.init.
    cbn [VulnerablePRNG.timestamp_ms]. unfold to_bytes_little.
    change (2 ^ (8 * Z.of_nat 8)) with (2 ^ 64).
    destruct (Z.leb_spec 0 ts); [|reflexivity].
    destruct (Z.ltb_spec ts (2 ^ 64)); [lia|reflexivity].
Qed.

Lemma lxor_mod_pow2 (a b b' n : Z) :
  0 <= n -> b mod 2 ^ n = b' mod 2 ^ n ->
  Z.lxor a b mod 2 ^ n = Z.lxor a b' mod 2 ^ n.
Proof.
  intros Hn E. rewrite <- !Z.land_ones by lia.
  apply Z.bits_inj'. intros i Hi.
  rewrite !Z.land_spec, !Z.lxor_spec.
  destruct (Z.lt_ge_cases i n).
  - by rewrite (bits_agree b b' n i) by (done || lia).
  - rewrite Z.ones_spec_high by lia. by rewrite !andb_false_r.
Qed.

Lemma lcg_mod (s s' : Z) :
  s mod 2 ^ 48 = s' mod 2 ^ 48 -> TimestampHashSpec.lcg s = TimestampHashSpec.lcg s'.
Proof.
  intros E. unfold TimestampHashSpec.lcg.
  rewrite (Z.add_mod (s * _)), (Z.mul_mod s) by lia.
  rewrite E.
  rewrite <- (Z.mul_mod s'), <- Z.add_mod by lia. done.
Qed.

(** X8: for one timestamp, two sequence indices that agree modulo 2^48
    give the same private key: the index reaches the key only through the
    48-bit state of the generator. *)
Theorem derive_private_key_sequence_low_bits
    (sha256 : list Z -> list Z) (ts sequence sequence' : Z) :
  0 <= ts < 2 ^ 64 ->
  sequence mod 2 ^ 48 = sequence' mod 2 ^ 48 ->
  exists key self1 self2,
    VulnerablePRNG.derive_private_key sha256 (VulnerablePRNG.init ts sequence)
      = Ret (key, self1) /\
    VulnerablePRNG.derive_private_key sha256 (VulnerablePRNG.init ts sequence')
      = Ret (key, self2).
Proof.
  intros Hts E. unfold VulnerablePRNG.derive_private_key.
  rewrite !generate_entropy_run by done.
  assert (L : TimestampHashSpec.lcg (Z.lxor ts sequence)
              = TimestampHashSpec.lcg (Z.lxor ts sequence')).
  { apply lcg_mod, lxor_mod_pow2; [lia|done]. }
  eexists _, _, _. split; [reflexivity|].
  unfold TimestampHashSpec.entropy_buffer. rewrite <- L. reflexivity.
Qed.

(** The theorem at the timestamp 1389781800000 and the indices 7 and
    7 + 2^48. *)
Lemma derive_private_key_sequence_low_bits_witness :
  0 <= 1389781800000 < 2 ^ 64 /\
  7 mod 2 ^ 48 = (7 + 2 ^ 48) mod 2 ^ 48 /\
  exists key self1 self2,
    VulnerablePRNG.derive_private_key Hashlib.sha256
      (VulnerablePRNG.init 1389781800000 7) = Ret (key, self1) /\
    VulnerablePRNG.derive_private_key Hashlib.sha256
      (VulnerablePRNG.init 1389781800000 (7 + 2 ^ 48)) = Ret (key, self2).
Proof.
  assert (H : 0 <= 1389781800000 < 2 ^ 64) by lia.
  assert (E : 7 mod 2 ^ 48 = (7 + 2 ^ 48) mod 2 ^ 48) by reflexivity.
  split; [exact H|]. split; [exact E|].
  exact (derive_private_key_sequence_low_bits Hashlib.sha256
           1389781800000 7 (7 + 2 ^ 48) H E).
Defined.

(** The correctly rounded quotient of [0 <= a < b < 2 ^ 52] is below 1. *)
Lemma int_truediv_below_one a b :
  0 <= a < b -> b < 2 ^ 52 ->
  exists x, Float.int_truediv a b = Ret x /\
            0 <= Float.mantissa x < 2 ^ Float.scale x /\ 0 <= Float.scale x.
Proof.
  intros Hab Hb. unfold Float.int_truediv.
  destruct (Z.eqb_spec b 0); [lia|].
  destruct (Z.eqb_spec a 0) as [->|Ha].
  { eexists. split; [reflexivity|]. simpl. lia. }
  set (e0 := Z.log2 b - Z.log2 a + 52).
  set (e := if a * 2 ^ e0 / b <? 2 ^ 52 then e0 + 1 else e0).
  assert (He0 : 52 <= e0).
  { pose proof (Z.log2_le_mono a b). lia. }
  assert (He : 52 <= e) by (unfold e; case_match; lia).
  assert (Hpe : 2 ^ 52 <= 2 ^ e) by (apply Z.pow_le_mono_r; lia).
  set (q := a * 2 ^ e / b). set (r := (a * 2 ^ e) mod b).
  assert (Hdm : a * 2 ^ e = b * q + r) by (apply Z.div_mod; lia).
  assert (Hr : 0 <= r < b) by (apply Z.mod_pos_bound; lia).
  assert (Hq0 : 0 <= q) by (apply Z.div_pos; nia).
  assert (Hq : q + 1 < 2 ^ e).
  { assert (q < 2 ^ e - 1); [|lia].
    apply Z.div_lt_upper_bound; [lia|]. nia. }
  eexists. split; [reflexivity|]. simpl.
  split; [|lia]. repeat case_match; lia.
Qed.

Lemma int_truediv_same b :
  0 < b -> Float.int_truediv b b = Ret (Float.Dyadic (2 ^ 52) 52).
Proof.
  intros Hb. unfold Float.int_truediv.
  destruct (Z.eqb_spec b 0); [lia|].
  cbv zeta.
  replace (Z.log2 b - Z.log2 b + 52) with 52 by lia.
  replace (b * 2 ^ 52) with (2 ^ 52 * b) by lia.
  rewrite Z.div_mul by lia.
  rewrite Z.ltb_irrefl. cbv iota.
  replace (b * 2 ^ 52) with (2 ^ 52 * b) by lia.
  rewrite Z.div_mul, Z_mod_mult by lia.
  destruct (Z.ltb_spec (2 * 0) b); [|lia]. reflexivity.
Qed.

(** X9: [next_random] returns a float in [0, 1], and it returns 1.0, so
    that the draw [int(x * 65536)] is 65536, exactly when the new state is
    2^48 - 1; for every other state the draw is at most 65535. *)
Theorem next_random_reaches_one (self : VulnerablePRNG.t) :
  exists x self',
    VulnerablePRNG.next_random self = Ret (x, self') /\
    0 <= VulnerablePRNG.seed self' <= 2 ^ 48 - 1 /\
    0 <= Float.mantissa x <= 2 ^ Float.scale x /\
    (Float.mantissa x = 2 ^ Float.scale x <-> VulnerablePRNG.seed self' = 2 ^ 48 - 1) /\
    0 <= Float.to_int (Float.mul_pow2 x 65536) <= 65536 /\
    (Float.to_int (Float.mul_pow2 x 65536) = 65536
       <-> VulnerablePRNG.seed self' = 2 ^ 48 - 1).
Proof.
  unfold VulnerablePRNG.next_random. rewrite land_modulus, modulus_value.
  set (s := (VulnerablePRNG.seed self * VulnerablePRNG.MULTIPLIER
             + VulnerablePRNG.INCREMENT) mod 2 ^ 48).
  assert (Hs : 0 <= s < 2 ^ 48) by (apply Z.mod_pos_bound; lia).
  destruct (Z.eq_dec s (2 ^ 48 - 1)) as [E|N].
  - rewrite E, int_truediv_same by lia.
    eexists _, _. split; [reflexivity|].
    cbn [VulnerablePRNG.seed Float.mantissa Float.scale].
    unfold Float.to_int, Float.mul_pow2.
    cbn [Float.mantissa Float.scale].
    rewrite Z.mul_comm, Z.div_mul by lia. lia.
  - destruct (int_truediv_below_one s (2 ^ 48 - 1)) as (x & -> & Hm & He); [lia|lia|].
    eexists _, _. split; [reflexivity|].
    cbn [VulnerablePRNG.seed].
    unfold Float.to_int, Float.mul_pow2.
    cbn [Float.mantissa Float.scale].
    assert (Hp : 0 < 2 ^ Float.scale x) by (apply Z.pow_pos_nonneg; lia).
    assert (Hd : 0 <= Float.mantissa x * 65536 / 2 ^ Float.scale x < 65536).
    { split; [apply Z.div_pos; lia|]. apply Z.div_lt_upper_bound; lia. }
    lia.
Qed.

(** * The list of test vectors *)

Lemma writes_then {A B} (m : IO.t A) (k : A -> IO.t B) t1 a t2 r :
  IO.writes m t1 (Ret a) -> IO.writes (k a) t2 r ->
  IO.writes (m ≫= k) (t1 ++ t2) r.
Proof.
  intros H1 H2 out. unfold mbind, IO.io_bind, IO.bind.
  rewrite H1, H2. by rewrite app_assoc.
Qed.

Lemma writes_raise {A B} (m : IO.t A) (k : A -> IO.t B) t1 e :
  IO.writes m t1 (Raise e) -> IO.writes (m ≫= k) t1 (Raise e).
Proof.
  intros H1 out. unfold mbind, IO.io_bind, IO.bind. by rewrite H1.
Qed.

Lemma range_elem lo hi x : x ∈ range lo hi -> lo <= x < hi.
Proof.
  unfold range. intros H. apply list_elem_of_fmap in H as (k & -> & Hk).
  apply elem_of_seq in Hk. lia.
Qed.

Lemma vector_step_run sha256 (i : Z) (acc : list OptionA.vector) :
  0 <= OptionA.base_timestamp_ms + 100 * i < 2 ^ 64 ->
  IO.writes (OptionA.vector_step sha256 i acc) (OptionA.progress_lines [i])
    (Ret (acc ++ [OptionA.vector_at sha256 i])).
Proof.
  intros Hts. unfold OptionA.vector_step, OptionA.vector_at.
  replace (OptionA.base_timestamp_ms + i * 100)
    with (OptionA.base_timestamp_ms + 100 * i) by lia.
  unfold VulnerablePRNG.derive_private_key.
  rewrite generate_entropy_run by done.
  cbn [mbind outcome_bind Py.bind].
  unfold OptionA.progress_lines. rewrite filter_cons, filter_nil.
  intros out. unfold mbind, IO.io_bind, IO.bind, IO.lift.
  destruct (Z.eqb_spec (i mod 100) 0) as [E|E];
    destruct (Z.ltb_spec 0 i) as [L|L]; cbn [andb];
    (destruct (decide (i mod 100 = 0 /\ 0 < i)) as [D|D]; [try lia|try (exfalso; apply D; lia)]);
    cbn [map]; unfold IO.print, mret, IO.io_ret, IO.ret; by rewrite ?app_nil_r.
Qed.

Lemma vector_loop_run sha256 (xs : list Z) :
  forall acc : list OptionA.vector,
    Forall (fun i => 0 <= OptionA.base_timestamp_ms + 100 * i < 2 ^ 64) xs ->
    IO.writes (IO.for_each xs (OptionA.vector_step sha256) acc)
      (OptionA.progress_lines xs)
      (Ret (acc ++ map (OptionA.vector_at sha256) xs)).
Proof.
  induction xs as [|i xs IH]; intros acc Hxs.
  - cbn [IO.for_each map]. rewrite app_nil_r. apply writes_ret.
  - apply Forall_cons in Hxs as [Hi Hxs]. cbn [IO.for_each map].
    replace (OptionA.progress_lines (i :: xs))
      with (OptionA.progress_lines [i] ++ OptionA.progress_lines xs).
    2:{ unfold OptionA.progress_lines. rewrite <- map_app. f_equal.
        by rewrite <- filter_app. }
    eapply writes_then; [by apply vector_step_run|].
    pose proof (IH (acc ++ [OptionA.vector_at sha256 i]) Hxs) as H.
    rewrite <- app_assoc in H. exact H.
Qed.

(** X10: as long as the last timestamp fits 8 bytes,
    [generate_test_vectors(count)] returns [count] vectors (none for a
    count below 1); the vector of index [i] carries the timestamp
    1389781800000 + 100 * i, the hash of the entropy buffer built from
    that timestamp and the sequence index [i], and that key in
    hexadecimal.  It prints three header lines, a progress line after
    every index that is a positive multiple of 100, and a closing line. *)
Theorem generate_test_vectors_run (sha256 : list Z -> list Z) (count : Z) :
  OptionA.base_timestamp_ms + 100 * (count - 1) < 2 ^ 64 ->
  exists header footer,
    IO.writes (OptionA.generate_test_vectors sha256 count)
      (header ++ OptionA.progress_lines (range 0 count) ++ [footer])
      (Ret (map (OptionA.vector_at sha256) (range 0 count))) /\
    length header = 3%nat /\
    length (map (OptionA.vector_at sha256) (range 0 count)) = Z.to_nat count.
Proof.
  intros Hc. eexists [_; _; _], _. split; [|split].
  - unfold OptionA.generate_test_vectors.
    eapply (writes_then _ _ [_]); [apply writes_print|].
    eapply (writes_then _ _ [_]); [apply writes_print|].
    eapply (writes_then _ _ [_]); [apply writes_print|].
    eapply writes_then.
    { apply (vector_loop_run sha256 (range 0 count) []).
      apply Forall_forall. intros i Hi. apply range_elem in Hi.
      unfold OptionA.base_timestamp_ms in *. lia. }
    rewrite app_nil_l.
    eapply (writes_then _ _ [_] _ []); [apply writes_print|].
    apply writes_ret.
  - reflexivity.
  - rewrite length_map, range_length. f_equal. lia.
Qed.

(** The theorem at the reference hash and the count 1000 of [main]. *)
Lemma generate_test_vectors_run_witness :
  OptionA.base_timestamp_ms + 100 * (1000 - 1) < 2 ^ 64 /\
  exists header footer,
    IO.writes (OptionA.generate_test_vectors Hashlib.sha256 1000)
      (header ++ OptionA.progress_lines (range 0 1000) ++ [footer])
      (Ret (map (OptionA.vector_at Hashlib.sha256) (range 0 1000))) /\
    length header = 3%nat /\
    length (map (OptionA.vector_at Hashlib.sha256) (range 0 1000)) = Z.to_nat 1000.
Proof.
  assert (H : OptionA.base_timestamp_ms + 100 * (1000 - 1) < 2 ^ 64)
    by (vm_compute; reflexivity).
  split; [exact H|].
  exact (generate_test_vectors_run Hashlib.sha256 1000 H).
Defined.

(** * More on the 256-bit transform *)

Lemma getitem_beyond {A} (l : list A) (i : Z) :
  Z.of_nat (length l) <= i -> getitem l i = Raise IndexError.
Proof.
  intros Hi. unfold getitem.
  destruct (Z.ltb_spec i 0); [lia|].
  destruct (Z.leb_spec 0 i); [|lia].
  destruct (Z.ltb_spec i (Z.of_nat (length l))); [lia|]. done.
Qed.

Lemma range_split lo mid hi :
  lo <= mid <= hi -> range lo hi = range lo mid ++ range mid hi.
Proof.
  intros H. unfold range.
  replace (Z.to_nat (hi - lo)) with (Z.to_nat (mid - lo) + Z.to_nat (hi - mid))%nat by lia.
  rewrite seq_app, map_app. f_equal.
  replace (seq (0 + Z.to_nat (mid - lo)) (Z.to_nat (hi - mid)))
    with ((fun k => Z.to_nat (mid - lo) + k)%nat <$> seq 0 (Z.to_nat (hi - mid)))
    by (rewrite fmap_add_seq; f_equal; lia).
  rewrite <- list_fmap_compose.
  apply map_ext. intros k. simpl. lia.
Qed.

Lemma range_cons lo hi : lo < hi -> range lo hi = lo :: range (lo + 1) hi.
Proof.
  intros H. unfold range.
  replace (Z.to_nat (hi - lo)) with (S (Z.to_nat (hi - (lo + 1)))) by lia.
  cbn [seq map]. f_equal; [lia|].
  rewrite <- fmap_S_seq, <- list_fmap_compose.
  apply map_ext. intros k. simpl. lia.
Qed.

(** A loop whose body keeps an invariant and never raises under it. *)
Lemma for_each_inv {X S} (xs : list X) (body : X -> S -> outcome S)
    (P : S -> Prop) s :
  (forall x s, x ∈ xs -> P s -> exists s', body x s = Ret s' /\ P s') ->
  P s ->
  exists s', for_each xs body s = Ret s' /\ P s'.
Proof.
  revert s. induction xs as [|x xs IH]; intros s Hb Hs; simpl; [by exists s|].
  destruct (Hb x s) as (s1 & -> & H1); [left|done|]. simpl.
  apply IH; [|done]. intros y s' Hy. apply Hb. by right.
Qed.

Lemma copy_prefix (data : list Z) (n : Z) (m : list Z) :
  0 <= n <= 16 -> n <= Z.of_nat (length data) -> length m = 64%nat ->
  exists m',
    for_each (range 0 n) (fun i m => x ← getitem data i; setitem m i x) m = Ret m' /\
    length m' = 64%nat.
Proof.
  intros Hn Hd Hm. apply (for_each_inv _ _ (fun m => length m = 64%nat)); [|done].
  intros i m0 Hi Hm0. apply range_elem in Hi.
  rewrite getitem_zget by lia. cbn [mbind outcome_bind Py.bind].
  rewrite setitem_insert by lia.
  eexists. split; [reflexivity|]. by rewrite length_insert.
Qed.

Lemma copy_block_short (data : list Z) :
  (length data < 16)%nat ->
  SimSha.copy_block data (replicate 64 0) = Raise IndexError.
Proof.
  intros Hd. unfold SimSha.copy_block.
  rewrite (range_split 0 (Z.of_nat (length data)) 16) by lia.
  rewrite for_each_app.
  destruct (copy_prefix data (Z.of_nat (length data)) (replicate 64 0))
    as (m' & -> & _); [lia|lia|done|].
  cbn [mbind outcome_bind Py.bind].
  rewrite range_cons by lia. cbn [for_each].
  by rewrite getitem_beyond by lia.
Qed.

Lemma extend_schedule_run (m : list Z) :
  length m = 64%nat ->
  exists m', SimSha.extend_schedule m = Ret m' /\ length m' = 64%nat.
Proof.
  intros Hm. apply (for_each_inv _ _ (fun m => length m = 64%nat)); [|done].
  intros i m0 Hi Hm0. apply range_elem in Hi.
  rewrite !getitem_zget by lia. cbn [mbind outcome_bind Py.bind].
  rewrite setitem_insert by lia.
  eexists. split; [reflexivity|]. by rewrite length_insert.
Qed.

Lemma rounds_run (m : list Z) (w0 : SimSha.working) :
  length m = 64%nat ->
  exists w, for_each (range 0 64) (SimSha.round SimSha.K m) w0 = Ret w.
Proof.
  intros Hm.
  destruct (for_each_inv (range 0 64) (SimSha.round SimSha.K m) (fun _ => True) w0)
    as (w & Hw & _); [|done|by exists w].
  intros i w1 Hi _. apply range_elem in Hi. unfold SimSha.round.
  rewrite (getitem_zget SimSha.K) by (change (length SimSha.K) with 64%nat; lia).
  rewrite (getitem_zget m) by lia.
  cbn [mbind outcome_bind Py.bind]. by eexists.
Qed.

Lemma land_word_range x : 0 <= Z.land x 0xffffffff < 2 ^ 32.
Proof.
  change 0xffffffff with (Z.ones 32). rewrite Z.land_ones by lia.
  apply Z.mod_pos_bound. lia.
Qed.

(** X11: [transform] on lists of integers: it raises [IndexError] when
    [data] has fewer than 16 words, otherwise [ValueError] when [state]
    does not have exactly 8 words; in every other case it returns, and
    [state] then holds 8 words in the range [0, 2^32), whatever integers
    (negative or wider than 32 bits) the two lists held. *)
Theorem transform_outcome (state data : list Z) :
  ((length data < 16)%nat /\
     SimSha.transform state data = Raise IndexError) \/
  ((16 <= length data)%nat /\ length state <> 8%nat /\
     SimSha.transform state data = Raise ValueError) \/
  ((16 <= length data)%nat /\ length state = 8%nat /\
     exists state',
       SimSha.transform state data = Ret state' /\
       length state' = 8%nat /\
       Forall (fun w => 0 <= w < 2 ^ 32) state').
Proof.
  unfold SimSha.transform, SimSha.transform_with.
  destruct (Nat.lt_ge_cases (length data) 16) as [Hd|Hd].
  { left. split; [done|]. by rewrite copy_block_short. }
  right.
  destruct (copy_prefix data 16 (replicate 64 0)) as (m0 & Hm0 & Lm0); [lia|lia|done|].
  unfold SimSha.copy_block. rewrite Hm0. cbn [mbind outcome_bind Py.bind].
  destruct (extend_schedule_run m0 Lm0) as (m & -> & Lm).
  cbn [mbind outcome_bind Py.bind].
  destruct (decide (length state = 8%nat)) as [Hs|Hs].
  - right. split; [done|]. split; [done|].
    destruct state as [|s0 [|s1 [|s2 [|s3 [|s4 [|s5 [|s6 [|s7 [|? ?]]]]]]]]];
      try discriminate Hs.
    cbn [SimSha.unpack8 mbind outcome_bind Py.bind].
    destruct (rounds_run m (SimSha.Working s0 s1 s2 s3 s4 s5 s6 s7) Lm) as (w & ->).
    cbn [mbind outcome_bind Py.bind].
    eexists. split; [reflexivity|]. split; [reflexivity|].
    repeat (apply Forall_cons; split; [apply land_word_range|]).
    apply Forall_nil_2.
  - left. split; [done|]. split; [done|].
    destruct state as [|s0 [|s1 [|s2 [|s3 [|s4 [|s5 [|s6 [|s7 [|? ?]]]]]]]]];
      try reflexivity.
    by destruct Hs.
Qed.

Lemma lor_word_range a b :
  0 <= a < 2 ^ 32 -> 0 <= b < 2 ^ 32 -> 0 <= Z.lor a b < 2 ^ 32.
Proof.
  intros Ha Hb.
  assert (H0 : 0 <= Z.lor a b) by (apply Z.lor_nonneg; lia).
  split; [done|].
  destruct (Z.eq_dec (Z.lor a b) 0) as [->|N]; [lia|].
  apply Z.log2_lt_pow2; [lia|].
  rewrite Z.log2_lor by lia.
  destruct (Z.eq_dec a 0) as [->|Na]; destruct (Z.eq_dec b 0) as [->|Nb];
    try (change (Z.log2 0) with 0); rewrite ?Z.max_lub_lt_iff;
    repeat split; try lia; apply Z.log2_lt_pow2; lia.
Qed.

Lemma lxor_word_range a b :
  0 <= a < 2 ^ 32 -> 0 <= b < 2 ^ 32 -> 0 <= Z.lxor a b < 2 ^ 32.
Proof.
  intros Ha Hb.
  assert (H0 : 0 <= Z.lxor a b) by (apply Z.lxor_nonneg; lia).
  split; [done|].
  destruct (Z.eq_dec (Z.lxor a b) 0) as [->|N]; [lia|].
  apply Z.log2_lt_pow2; [lia|].
  eapply Z.le_lt_trans; [apply Z.log2_lxor; lia|].
  destruct (Z.eq_dec a 0) as [->|Na]; destruct (Z.eq_dec b 0) as [->|Nb];
    try (change (Z.log2 0) with 0); rewrite ?Z.max_lub_lt_iff;
    repeat split; try lia; apply Z.log2_lt_pow2; lia.
Qed.

(** X12: for a rotation count between 0 and 32, [rotr(x, n)] is the
    rotation to the right by [n] of the low 32 bits of [x]: a word in
    [0, 2^32) whose bit [i] is bit [(i + n) mod 32] of [x], for every
    integer [x], negative or wider than 32 bits included. *)
Theorem rotr_rotates (x n : Z) :
  0 <= n <= 32 ->
  0 <= SimSha.rotr x n < 2 ^ 32 /\
  forall i, 0 <= i < 32 ->
    Z.testbit (SimSha.rotr x n) i = Z.testbit x ((i + n) mod 32).
Proof.
  intros Hn. unfold SimSha.rotr. split.
  - apply lor_word_range; [|apply land_word_range].
    pose proof (land_word_range x) as Hx.
    rewrite Z.shiftr_div_pow2 by lia.
    assert (0 < 2 ^ n) by (apply Z.pow_pos_nonneg; lia).
    split; [apply Z.div_pos; lia|].
    apply Z.div_lt_upper_bound; [lia|]. nia.
  - intros i Hi.
    change 0xffffffff with (Z.ones 32).
    rewrite Z.lor_spec, Z.shiftr_spec, !Z.land_spec, Z.shiftl_spec by lia.
    rewrite (Z.ones_spec_low 32 i) by lia. rewrite andb_true_r.
    destruct (Z.lt_ge_cases (i + n) 32).
    + rewrite Z.ones_spec_low by lia. rewrite andb_true_r.
      rewrite (Z.testbit_neg_r x (i - (32 - n))) by lia.
      rewrite orb_false_r. by rewrite Z.mod_small by lia.
    + rewrite Z.ones_spec_high by lia. rewrite andb_false_r, orb_false_l.
      f_equal. apply Z.mod_unique with 1; lia.
Qed.

(** The theorem at a negative integer and the rotation count 7 of
    [delta0]. *)
Lemma rotr_rotates_witness :
  0 <= 7 <= 32 /\
  0 <= SimSha.rotr (-0x61626380) 7 < 2 ^ 32 /\
  forall i, 0 <= i < 32 ->
    Z.testbit (SimSha.rotr (-0x61626380) 7) i
      = Z.testbit (-0x61626380) ((i + 7) mod 32).
Proof.
  assert (H : 0 <= 7 <= 32) by lia.
  split; [exact H|].
  exact (rotr_rotates (-0x61626380) 7 H).
Defined.

(** X13: on 32-bit words [y] and [z], [ch(x, y, z)] and [maj(x, y, z)]
    are words in [0, 2^32) although Python's [~x] is negative: each bit
    of [ch] is the bit of [y] where [x] has a 1 and the bit of [z] where
    it has a 0, and each bit of [maj] is the majority of the three
    bits. *)
Theorem ch_maj_bitwise (x y z : Z) :
  0 <= y < 2 ^ 32 -> 0 <= z < 2 ^ 32 ->
  0 <= SimSha.ch x y z < 2 ^ 32 /\
  0 <= SimSha.maj x y z < 2 ^ 32 /\
  forall i, 0 <= i ->
    Z.testbit (SimSha.ch x y z) i
      = (if Z.testbit x i then Z.testbit y i else Z.testbit z i) /\
    Z.testbit (SimSha.maj x y z) i
      = (Z.testbit x i && Z.testbit y i || Z.testbit x i && Z.testbit z i
         || Z.testbit y i && Z.testbit z i).
Proof.
  intros Hy Hz.
  assert (Ly : Z.land y (Z.ones 32) = y)
    by (rewrite Z.land_ones by lia; apply Z.mod_small; lia).
  assert (Lz : Z.land z (Z.ones 32) = z)
    by (rewrite Z.land_ones by lia; apply Z.mod_small; lia).
  assert (R : forall a b, 0 <= b < 2 ^ 32 -> 0 <= Z.land a b < 2 ^ 32).
  { intros a b Hb.
    assert (E : Z.land a b = Z.land (Z.land a b) 0xffffffff).
    { change 0xffffffff with (Z.ones 32).
      rewrite <- Z.land_assoc.
      replace (Z.land b (Z.ones 32)) with b; [done|].
      rewrite Z.land_ones by lia. symmetry. apply Z.mod_small. lia. }
    rewrite E. apply land_word_range. }
  unfold SimSha.ch, SimSha.maj. split; [|split].
  - apply lxor_word_range; apply R; done.
  - apply lxor_word_range; [apply lxor_word_range|]; apply R; done.
  - intros i Hi.
    rewrite !Z.lxor_spec, !Z.land_spec, Z.lnot_spec by lia.
    destruct (Z.testbit x i), (Z.testbit y i), (Z.testbit z i); done.
Qed.

(** The theorem at a negative [x] and two words of the initial state. *)
Lemma ch_maj_bitwise_witness :
  0 <= 0xbb67ae85 < 2 ^ 32 /\ 0 <= 0x3c6ef372 < 2 ^ 32 /\
  0 <= SimSha.ch (-5) 0xbb67ae85 0x3c6ef372 < 2 ^ 32 /\
  0 <= SimSha.maj (-5) 0xbb67ae85 0x3c6ef372 < 2 ^ 32 /\
  forall i, 0 <= i ->
    Z.testbit (SimSha.ch (-5) 0xbb67ae85 0x3c6ef372) i
      = (if Z.testbit (-5) i then Z.testbit 0xbb67ae85 i else Z.testbit 0x3c6ef372 i) /\
    Z.testbit (SimSha.maj (-5) 0xbb67ae85 0x3c6ef372) i
      = (Z.testbit (-5) i && Z.testbit 0xbb67ae85 i
         || Z.testbit (-5) i && Z.testbit 0x3c6ef372 i
         || Z.testbit 0xbb67ae85 i && Z.testbit 0x3c6ef372 i).
Proof.
  assert (Hy : 0 <= 0xbb67ae85 < 2 ^ 32) by lia.
  assert (Hz : 0 <= 0x3c6ef372 < 2 ^ 32) by lia.
  split; [exact Hy|]. split; [exact Hz|].
  exact (ch_maj_bitwise (-5) 0xbb67ae85 0x3c6ef372 Hy Hz).
Defined.

(** * More on the membership index tool *)

Lemma io_for_each_ext {X S} (xs : list X) (f g : X -> S -> IO.t S) :
  (forall x s out, f x s out = g x s out) ->
  forall s out, IO.for_each xs f s out = IO.for_each xs g s out.
Proof.
  intros Hfg. induction xs as [|x xs IH]; intros s out; [reflexivity|].
  cbn [IO.for_each]. unfold mbind, IO.io_bind, IO.bind.
  rewrite Hfg. destruct (g x s out) as [o [s'| |]]; [apply IH|done|done].
Qed.

(** X14: when the filter file loads, [check_address_benchmark_bulk]
    prints, address by address, exactly what one call of [check_address]
    per address prints, and ends as that sequence of calls ends; when the
    file does not load it raises the loading error before printing
    anything, also for an empty list of addresses. *)
Theorem bulk_check_is_repeated_check_address
    (lib : BloomFilter.params) (filter_file : string)
    (addresses : list string) (fs : BloomUtil.files) (out : list string) :
  match BloomUtil.load_filter fs filter_file with
  | Ret _ =>
      BloomBulk.check_address_benchmark_bulk lib filter_file addresses fs out
      = IO.for_each addresses
          (fun address _ =>
             _ ← BloomUtil.check_address lib filter_file address fs; mret tt) tt out
  | Raise e =>
      BloomBulk.check_address_benchmark_bulk lib filter_file addresses fs out
      = (out, Raise e)
  | Diverge => False
  end.
Proof.
  unfold BloomBulk.check_address_benchmark_bulk.
  destruct (BloomUtil.load_filter fs filter_file) as [bf|e|] eqn:Hload.
  - unfold mbind at 1. unfold IO.io_bind, IO.bind, IO.lift.
    apply io_for_each_ext. intros a [] o.
    unfold BloomUtil.check_address.
    unfold mbind, IO.io_bind, IO.bind, IO.lift. rewrite Hload.
    by destruct (BloomFilter.contains lib (BloomUtil.encode a) bf) as [[|]| |].
  - reflexivity.
  - unfold BloomUtil.load_filter in Hload.
    destruct (fs !! filter_file) as [[| |b]|]; try discriminate Hload.
    unfold BloomFilter.load in Hload.
    destruct (BloomFilter.blob_header b) as [|? [|? [|? [|? [|? ?]]]]];
      discriminate Hload.
Qed.

Lemma io_for_each_cons_ret {X S} (x : X) (xs : list X) (f : X -> S -> IO.t S)
    s out o s' :
  f x s out = (o, Ret s') ->
  IO.for_each (x :: xs) f s out = IO.for_each xs f s' o.
Proof.
  intros H. cbn [IO.for_each]. unfold mbind, IO.io_bind, IO.bind. by rewrite H.
Qed.

Lemma io_for_each_cons_raise {X S} (x : X) (xs : list X) (f : X -> S -> IO.t S)
    s out o e :
  f x s out = (o, Raise e) ->
  IO.for_each (x :: xs) f s out = (o, Raise e).
Proof.
  intros H. cbn [IO.for_each]. unfold mbind, IO.io_bind, IO.bind. by rewrite H.
Qed.




(** [check_address_csv] step by step. *)
Lemma check_address_csv_unfold lib (filter_file address_csv_file : string)
    (skip_lines : Z) (fs : BloomUtil.files) (out : list string) :
  BloomUtil.check_address_csv lib filter_file address_csv_file skip_lines fs out
  = match BloomUtil.load_filter fs filter_file with
    | Ret bf =>
        match BloomUtil.read_rows fs address_csv_file with
        | Ret rows =>
            match IO.for_each rows (BloomUtil.csv_row lib bf)
                    (BloomUtil.Counters 0 0 skip_lines)
                    (out ++ ["unpickled bloom filter file"]) with
            | (o, Ret st) =>
                (o ++ ["found " +:+ str_of_int (BloomUtil.found st)
                       +:+ " address hits in total against the bloom filter"],
                 Ret tt)
            | (o, Raise e) => (o, Raise e)
            | (o, Diverge) => (o, Diverge)
            end
        | Raise e => (out ++ ["unpickled bloom filter file"], Raise e)
        | Diverge => (out ++ ["unpickled bloom filter file"], Diverge)
        end
    | Raise e => (out, Raise e)
    | Diverge => (out, Diverge)
    end.
Proof.
  unfold BloomUtil.check_address_csv, BloomUtil.check_address_csv_with.
  unfold mbind, IO.io_bind, IO.bind, IO.lift, IO.print.
  destruct (BloomUtil.load_filter fs filter_file) as [bf|e|]; reflexivity.
Qed.



Lemma extract_dataline (e : BloomBulk.entry) :
  BloomUtil.extract (BloomBulk.dataline e)
  = Ret (Some (BloomBulk.address_id e, BloomBulk.address e)).
Proof.
  unfold BloomUtil.extract, BloomBulk.dataline.
  rewrite (getitem_lookup _ 0 (BloomBulk.address_id e)) by (lia || reflexivity).
  cbn [mbind outcome_bind Py.bind].
  rewrite (getitem_lookup _ 1 (BloomBulk.address e)) by (lia || reflexivity).
  reflexivity.
Qed.

Lemma csv_row_dataline lib bf (e : BloomBulk.entry) (hit : bool)
    (i found : Z) (out : list string) :
  0 <= i -> i + 1 < BloomUtil.status_print_every ->
  BloomFilter.contains lib (BloomUtil.encode (BloomBulk.address e)) bf = Ret hit ->
  BloomUtil.csv_row lib bf (BloomBulk.dataline e) (BloomUtil.Counters i found 0) out
  = (out ++ (if hit then [BloomBulk.address_id e +:+ "," +:+ BloomBulk.address e]
             else []),
     Ret (BloomUtil.Counters (i + 1) (if hit then found + 1 else found) 0)).
Proof.
  unfold BloomUtil.status_print_every. intros Hi Hlt Hc.
  unfold BloomUtil.csv_row.
  cbn [BloomUtil.skip_lines_remaining BloomUtil.i BloomUtil.found].
  change (0 <? 0) with false. cbv iota.
  unfold mbind at 1. unfold IO.io_bind at 1. unfold IO.bind at 1.
  unfold IO.try_except, IO.lift. rewrite extract_dataline.
  unfold mbind at 1. unfold IO.io_bind at 1. unfold IO.bind at 1.
  rewrite Hc.
  unfold mbind, IO.io_bind, IO.bind, IO.print, mret, IO.io_ret, IO.ret.
  destruct hit;
    cbn [BloomUtil.skip_lines_remaining BloomUtil.i BloomUtil.found];
    unfold BloomUtil.status_print_every;
    (destruct (Z.eqb_spec ((i + 1) mod 10000000) 0) as [E|_];
       [rewrite Z.mod_small in E by lia; lia|]);
    by rewrite ?app_nil_r.
Qed.

Lemma csv_loop_entries lib bf (member : string -> bool)
    (entries : list BloomBulk.entry) :
  forall (i found : Z) (out : list string),
    0 <= i ->
    i + Z.of_nat (length entries) < BloomUtil.status_print_every ->
    Forall (fun e =>
              BloomFilter.contains lib (BloomUtil.encode (BloomBulk.address e)) bf
              = Ret (member (BloomBulk.address e))) entries ->
    IO.for_each (map BloomBulk.dataline entries) (BloomUtil.csv_row lib bf)
      (BloomUtil.Counters i found 0) out
    = (out ++ map (fun e => BloomBulk.address_id e +:+ "," +:+ BloomBulk.address e)
                (List.filter (fun e => member (BloomBulk.address e)) entries),
       Ret (BloomUtil.Counters (i + Z.of_nat (length entries))
              (found + Z.of_nat (length
                 (List.filter (fun e => member (BloomBulk.address e)) entries)))
              0)).
Proof.
  induction entries as [|e entries IH]; intros i found out Hi Hlen Hall.
  - cbn. by rewrite app_nil_r, !Z.add_0_r.
  - apply Forall_cons in Hall as [He Hall]. cbn [length] in Hlen.
    cbn [map]. 
    erewrite io_for_each_cons_ret; [|apply csv_row_dataline; [lia|lia|exact He]].
    rewrite IH by (done || lia).
    cbn [List.filter].
    destruct (member (BloomBulk.address e)); cbn [map length].
    + rewrite <- app_assoc. cbn [app]. do 3 f_equal; lia.
    + rewrite app_nil_r. do 3 f_equal; lia.
Qed.

(** X16: on a CSV file of fewer than ten million rows that all have at
    least two fields, [check_address_csv] without skipping prints, after
    the loading notice, one line "id,address" for each row whose address
    the filter reports, in file order, and then the total, which is the
    number of those lines. *)
Theorem check_address_csv_reports_hits
    (lib : BloomFilter.params) (filter_file address_csv_file : string)
    (fs : BloomUtil.files) (bf : BloomFilter.t)
    (entries : list BloomBulk.entry) (member : string -> bool)
    (out : list string) :
  BloomUtil.load_filter fs filter_file = Ret bf ->
  fs !! address_csv_file = Some (BloomUtil.Csv (map BloomBulk.dataline entries)) ->
  Z.of_nat (length entries) < BloomUtil.status_print_every ->
  Forall (fun e =>
            BloomFilter.contains lib (BloomUtil.encode (BloomBulk.address e)) bf
            = Ret (member (BloomBulk.address e))) entries ->
  let hits := List.filter (fun e => member (BloomBulk.address e)) entries in
  BloomUtil.check_address_csv lib filter_file address_csv_file 0 fs out
  = (out ++ ["unpickled bloom filter file"]
         ++ map (fun e => BloomBulk.address_id e +:+ "," +:+ BloomBulk.address e) hits
         ++ ["found " +:+ str_of_int (Z.of_nat (length hits))
             +:+ " address hits in total against the bloom filter"],
     Ret tt).
Proof.
  intros Hload Hcsv Hlen Hall hits.
  rewrite check_address_csv_unfold, Hload.
  unfold BloomUtil.read_rows. rewrite Hcsv.
  rewrite (csv_loop_entries lib bf member) by (done || lia).
  fold hits. cbn [BloomUtil.found]. rewrite Z.add_0_l.
  by rewrite <- !app_assoc.
Qed.

(** The theorem on the example filter and three complete rows, the second
    of which is not in the filter. *)
Lemma check_address_csv_reports_hits_witness :
  let fs := <["full.csv" := BloomUtil.Csv
                (map BloomBulk.dataline
                   [BloomBulk.Entry "1" "1A" []; BloomBulk.Entry "2" "ZZ" ["x"];
                    BloomBulk.Entry "3" "1B" []])]> BloomUtil.toy_files_with_filter in
  let bf := BloomFilter.Build 1180626779 2 3 16
              (list_to_set [26%nat; 32%nat; 2%nat; 25%nat; 33%nat; 3%nat]) in
  let member := fun a => String.eqb a "1A" || String.eqb a "1B" in
  BloomUtil.check_address_csv BloomUtil.toy_library "filter.bin" "full.csv" 0 fs []
  = (["unpickled bloom filter file"; "1,1A"; "3,1B";
      "found 2 address hits in total against the bloom filter"], Ret tt).
Proof.
  intros fs bf member.
  assert (H1 : BloomUtil.load_filter fs "filter.bin" = Ret bf)
    by (vm_compute; reflexivity).
  assert (H2 : fs !! "full.csv" = Some (BloomUtil.Csv
                (map BloomBulk.dataline
                   [BloomBulk.Entry "1" "1A" []; BloomBulk.Entry "2" "ZZ" ["x"];
                    BloomBulk.Entry "3" "1B" []])))
    by (vm_compute; reflexivity).
  assert (H3 : Z.of_nat (length
                   [BloomBulk.Entry "1" "1A" []; BloomBulk.Entry "2" "ZZ" ["x"];
                    BloomBulk.Entry "3" "1B" []]) < BloomUtil.status_print_every)
    by (vm_compute; reflexivity).
  assert (H4 : Forall (fun e =>
            BloomFilter.contains BloomUtil.toy_library
              (BloomUtil.encode (BloomBulk.address e)) bf
            = Ret (member (BloomBulk.address e)))
            [BloomBulk.Entry "1" "1A" []; BloomBulk.Entry "2" "ZZ" ["x"];
             BloomBulk.Entry "3" "1B" []])
    by (repeat constructor; vm_compute; reflexivity).
  exact (check_address_csv_reports_hits BloomUtil.toy_library "filter.bin" "full.csv"
           fs bf _ member [] H1 H2 H3 H4).
Defined.

(** * What [apply_func] computes *)

#[local] Arguments String.append : simpl nomatch.

Lemma append_assoc (a b c : string) : (a +:+ b) +:+ c = a +:+ (b +:+ c).
Proof. induction a as [|x a IH]; simpl; [done|]. by rewrite IH. Qed.

Lemma append_nil_r (a : string) : a +:+ "" = a.
Proof. induction a as [|x a IH]; simpl; [done|]. by rewrite IH. Qed.

Lemma prefix_cons_ne a s1 c s2 :
  a <> c -> String.prefix (String a s1) (String c s2) = false.
Proof. intros H. simpl. by destruct (ascii_dec a c). Qed.

Lemma prefix_cons_eq a s1 s2 :
  String.prefix (String a s1) (String a s2) = String.prefix s1 s2.
Proof. simpl. by destruct (ascii_dec a a). Qed.

Lemma prefix_nil s : String.prefix "" s = true.
Proof. by destruct s. Qed.

Ltac scan_text :=
  repeat first
    [ rewrite prefix_cons_eq
    | rewrite prefix_cons_ne by congruence
    | rewrite prefix_nil
    | progress cbn [append RipemdGen.replace_from String.length Nat.sub] ].

Lemma ascii_eqb_false (a b : ascii) : Ascii.eqb a b = false -> a <> b.
Proof. intros H ->. by rewrite Ascii.eqb_refl in H. Qed.

(** Replacing a single character works character by character. *)
Lemma replace_single (c0 : ascii) (new s : string) :
  RipemdGen.replace (String c0 "") new s
  = RipemdSubst.char_map
      (fun c => if Ascii.eqb c c0 then new else String c EmptyString) s.
Proof.
  unfold RipemdGen.replace.
  induction s as [|c s IH]; [reflexivity|].
  cbn [RipemdGen.replace_from String.length Nat.sub RipemdSubst.char_map].
  destruct (Ascii.eqb_spec c c0) as [->|N].
  - rewrite prefix_cons_eq. destruct s; cbn [String.prefix]; by rewrite IH.
  - rewrite prefix_cons_ne by congruence. by rewrite IH.
Qed.

Lemma char_map_app f (a b : string) :
  RipemdSubst.char_map f (a +:+ b)
  = RipemdSubst.char_map f a +:+ RipemdSubst.char_map f b.
Proof.
  induction a as [|x a IH]; [reflexivity|].
  cbn [append RipemdSubst.char_map]. by rewrite IH, append_assoc.
Qed.

(** The first pass turns the expression into its pieces. *)
Lemma first_pass (expr : string) :
  RipemdGen.replace "d" ("___" +:+ "d" +:+ "___")
    (RipemdGen.replace "c" ("___" +:+ "c" +:+ "___")
       (RipemdGen.replace "b" ("___" +:+ "b" +:+ "___") expr))
  = RipemdSubst.render (RipemdSubst.tokens expr).
Proof.
  rewrite !replace_single. unfold RipemdSubst.tokens.
  induction expr as [|c expr IH]; [reflexivity|].
  cbn [list_ascii_of_string map RipemdSubst.render]. rewrite <- IH.
  cbn [RipemdSubst.char_map]. rewrite !char_map_app. f_equal.
  unfold RipemdSubst.is_var.
  destruct (Ascii.eqb_spec c "b") as [->|Nb]; [reflexivity|].
  cbn [RipemdSubst.char_map].
  destruct (Ascii.eqb_spec c "c") as [->|Nc]; [reflexivity|].
  cbn [RipemdSubst.char_map append].
  destruct (Ascii.eqb_spec c "d") as [->|Nd]; [reflexivity|].
  reflexivity.
Qed.

Lemma separated_well_spaced (expr : string) :
  RipemdSubst.separated expr = true ->
  RipemdSubst.well_spaced (RipemdSubst.tokens expr).
Proof.
  unfold RipemdSubst.tokens.
  induction expr as [|c expr IH]; [done|].
  cbn [RipemdSubst.separated]. intros H.
  apply andb_prop in H as [H Hs]. apply andb_prop in H as [Hu Hv].
  specialize (IH Hs). cbn [list_ascii_of_string map].
  destruct (RipemdSubst.is_var c) eqn:Ev.
  - cbn [RipemdSubst.well_spaced]. split; [done|]. split; [|done].
    destruct expr as [|c' expr]; [done|].
    cbn [list_ascii_of_string map].
    apply negb_true_iff in Hv. by rewrite Hv.
  - cbn [RipemdSubst.well_spaced]. split; [done|]. split; [|done].
    apply negb_true_iff in Hu. by apply ascii_eqb_false.
Qed.

Lemma separated_no_underscore (expr : string) :
  RipemdSubst.separated expr = true -> RipemdSubst.no_underscore expr = true.
Proof.
  induction expr as [|c expr IH]; [done|].
  cbn [RipemdSubst.separated RipemdSubst.no_underscore]. intros H.
  apply andb_prop in H as [H Hs]. apply andb_prop in H as [Hu _].
  by rewrite Hu, IH.
Qed.

(** A text without underscores is passed over by the replacement of a
    placeholder. *)
Lemma replace_from_skip_text (y : ascii) (new v rest : string) :
  RipemdSubst.no_underscore v = true ->
  RipemdGen.replace_from (RipemdSubst.placeholder y) new 0 (v +:+ rest)
  = v +:+ RipemdGen.replace_from (RipemdSubst.placeholder y) new 0 rest.
Proof.
  induction v as [|c v IH]; [done|].
  cbn [RipemdSubst.no_underscore]. intros H.
  apply andb_prop in H as [Hc Hv]. apply negb_true_iff in Hc.
  apply ascii_eqb_false in Hc.
  cbn [append RipemdGen.replace_from].
  unfold RipemdSubst.placeholder at 1. cbn [append].
  rewrite prefix_cons_ne by (unfold RipemdSubst.underscore in Hc; congruence).
  by rewrite IH.
Qed.

Lemma is_var_cases (x : ascii) :
  RipemdSubst.is_var x = true -> x = "b"%char \/ x = "c"%char \/ x = "d"%char.
Proof.
  unfold RipemdSubst.is_var. intros H.
  apply orb_prop in H as [H|H]; [apply orb_prop in H as [H|H]|];
    apply Ascii.eqb_eq in H; auto.
Qed.

(** The replacement of a placeholder on a well-spaced text fills the
    holes of that key and leaves the rest as it is. *)
Lemma replace_fills (y : ascii) (v : string) (ts : list RipemdSubst.token) :
  RipemdSubst.is_var y = true ->
  RipemdSubst.no_underscore v = true ->
  RipemdSubst.well_spaced ts ->
  RipemdGen.replace_from (RipemdSubst.placeholder y) v 0 (RipemdSubst.render ts)
    = RipemdSubst.render (RipemdSubst.fill y v ts) /\
  RipemdSubst.well_spaced (RipemdSubst.fill y v ts).
Proof.
  intros Hy Hv. induction ts as [|t ts IH]; intros Hts; [done|].
  destruct t as [c|x|w].
  - destruct Hts as (Hc & Hu & Hts). destruct (IH Hts) as [IH1 IH2].
    split; [|by cbn].
    cbn [RipemdSubst.render RipemdSubst.render_token RipemdSubst.fill map append].
    cbn [RipemdGen.replace_from].
    unfold RipemdSubst.placeholder at 1. cbn [append].
    rewrite prefix_cons_ne by (unfold RipemdSubst.underscore in Hu; congruence).
    fold (RipemdSubst.fill y v ts). by rewrite IH1.
  - destruct Hts as (Hx & Hnext & Hts). destruct (IH Hts) as [IH1 IH2].
    cbn [RipemdSubst.fill map]. fold (RipemdSubst.fill y v ts).
    destruct (Ascii.eqb_spec x y) as [->|N].
    + split; [|by cbn].
      cbn [RipemdSubst.render RipemdSubst.render_token].
      rewrite <- IH1.
      apply is_var_cases in Hy as [-> | [-> | ->]];
        unfold RipemdSubst.placeholder; by scan_text.
    + split.
      2:{ cbn [RipemdSubst.well_spaced]. split; [done|]. split; [|done].
          destruct ts as [|[c| |] ts]; cbn; done. }
      cbn [RipemdSubst.render RipemdSubst.render_token].
      rewrite <- IH1.
      destruct ts as [|[c|x'|w] ts]; [| |done|done].
      * apply is_var_cases in Hy as [-> | [-> | ->]];
          apply is_var_cases in Hx as [-> | [-> | ->]]; try done;
          unfold RipemdSubst.placeholder; by scan_text.
      * destruct Hts as (Hc & Hu & _).
        cbn [RipemdSubst.render RipemdSubst.render_token append].
        assert (Hcy : y <> c) by (intros <-; congruence).
        unfold RipemdSubst.underscore in Hu.
        apply is_var_cases in Hy as [-> | [-> | ->]];
          apply is_var_cases in Hx as [-> | [-> | ->]]; try done;
          unfold RipemdSubst.placeholder; by scan_text.
  - destruct Hts as (Hw & Hts). destruct (IH Hts) as [IH1 IH2].
    split; [|by cbn].
    cbn [RipemdSubst.render RipemdSubst.render_token RipemdSubst.fill map].
    fold (RipemdSubst.fill y v ts).
    rewrite replace_from_skip_text by done. by rewrite IH1.
Qed.

Lemma filled_is_simultaneous (vb vc vd expr : string) :
  RipemdSubst.render
    (RipemdSubst.fill "d" vd
       (RipemdSubst.fill "c" vc
          (RipemdSubst.fill "b" vb (RipemdSubst.tokens expr))))
  = RipemdSubst.simultaneous vb vc vd expr.
Proof.
  unfold RipemdSubst.tokens, RipemdSubst.fill, RipemdSubst.simultaneous.
  induction expr as [|c expr IH]; [reflexivity|].
  cbn [list_ascii_of_string map RipemdSubst.render RipemdSubst.char_map].
  rewrite IH. f_equal. unfold RipemdSubst.is_var.
  destruct (Ascii.eqb_spec c "b") as [->|Nb]; [reflexivity|].
  destruct (Ascii.eqb_spec c "c") as [->|Nc]; [reflexivity|].
  destruct (Ascii.eqb_spec c "d") as [->|Nd]; [reflexivity|].
  reflexivity.
Qed.

(** X17: on an expression without underscores in which no two of the
    letters b, c, d are adjacent, and for replacement texts without
    underscores, [apply_func] with the keys b, c, d is the simultaneous
    substitution: every b, c, d of the expression is replaced by its own
    value and a value that was put in is never replaced again. *)
Theorem apply_func_is_simultaneous (expr vb vc vd : string) :
  RipemdSubst.separated expr = true ->
  RipemdSubst.no_underscore vb = true ->
  RipemdSubst.no_underscore vc = true ->
  RipemdSubst.no_underscore vd = true ->
  RipemdGen.apply_func expr [("b", vb); ("c", vc); ("d", vd)]
  = RipemdSubst.simultaneous vb vc vd expr.
Proof.
  intros Hs Hb Hc Hd. unfold RipemdGen.apply_func.
  cbn [foldl fst snd].
  rewrite first_pass.
  pose proof (separated_well_spaced expr Hs) as W0.
  destruct (replace_fills "b" vb _ eq_refl Hb W0) as [E1 W1].
  destruct (replace_fills "c" vc _ eq_refl Hc W1) as [E2 W2].
  destruct (replace_fills "d" vd _ eq_refl Hd W2) as [E3 _].
  change (RipemdGen.replace ("___" +:+ "b" +:+ "___") vb)
    with (RipemdGen.replace_from (RipemdSubst.placeholder "b") vb 0).
  change (RipemdGen.replace ("___" +:+ "c" +:+ "___") vc)
    with (RipemdGen.replace_from (RipemdSubst.placeholder "c") vc 0).
  change (RipemdGen.replace ("___" +:+ "d" +:+ "___") vd)
    with (RipemdGen.replace_from (RipemdSubst.placeholder "d") vd 0).
  rewrite E1, E2, E3. apply filled_is_simultaneous.
Qed.

(** The theorem at the expression of F2 and the variable order
    [E,A,B,C,D], whose values are the keys shifted by one. *)
Lemma apply_func_is_simultaneous_witness :
  RipemdSubst.separated "((b & c) | ((~b) & d))" = true /\
  RipemdSubst.no_underscore "a" = true /\
  RipemdSubst.no_underscore "b" = true /\
  RipemdSubst.no_underscore "c" = true /\
  RipemdGen.apply_func "((b & c) | ((~b) & d))" [("b", "a"); ("c", "b"); ("d", "c")]
  = RipemdSubst.simultaneous "a" "b" "c" "((b & c) | ((~b) & d))".
Proof.
  assert (H0 : RipemdSubst.separated "((b & c) | ((~b) & d))" = true) by reflexivity.
  assert (H1 : RipemdSubst.no_underscore "a" = true) by reflexivity.
  assert (H2 : RipemdSubst.no_underscore "b" = true) by reflexivity.
  assert (H3 : RipemdSubst.no_underscore "c" = true) by reflexivity.
  split; [exact H0|]. split; [exact H1|]. split; [exact H2|]. split; [exact H3|].
  exact (apply_func_is_simultaneous "((b & c) | ((~b) & d))" "a" "b" "c" H0 H1 H2 H3).
Defined.

(** * The text of a round and of the whole kernel *)

Lemma unpack5_five (l : list string) :
  length l = 5%nat -> exists a b c d e, l = [a; b; c; d; e].
Proof.
  intros H. destruct l as [|a [|b [|c [|d [|e [|? ?]]]]]]; try discriminate H.
  by exists a, b, c, d, e.
Qed.

Lemma unpack5_other (l : list string) :
  length l <> 5%nat -> RipemdGen.unpack5 l = Raise ValueError.
Proof.
  intros H. destruct l as [|a [|b [|c [|d [|e [|? ?]]]]]]; try reflexivity.
  by destruct H.
Qed.

(** A row with five names and known selectors appends two lines. *)
Lemma generate_row_appends (fl_name kl fr_name kr : string) (rw : RipemdGen.row)
    (lines : list string) (fl fr : string) :
  length (RipemdGen.split "," (RipemdGen.vars rw)) = 5%nat ->
  RipemdGen.dict_get RipemdGen.f_functions fl_name = Ret fl ->
  RipemdGen.dict_get RipemdGen.f_functions fr_name = Ret fr ->
  exists l r,
    RipemdGen.generate_row fl_name kl fr_name kr rw lines = Ret (lines ++ [l; r]).
Proof.
  intros H5 Hl Hr. unfold RipemdGen.generate_row.
  apply unpack5_five in H5 as (a & b & c & d & e & ->).
  cbn [map RipemdGen.unpack5 mbind outcome_bind Py.bind].
  rewrite Hl, Hr. cbn [mbind outcome_bind Py.bind].
  by eexists _, _.
Qed.

(** X18: for a round whose rows all name exactly five variables and whose
    two selectors are keys of [f_functions], [generate_round] returns the
    comment line of the round followed by two lines per row, joined by
    newlines. *)
Theorem generate_round_lines (r : RipemdGen.round_spec) (fl fr : string) :
  Forall (fun rw => length (RipemdGen.split "," (RipemdGen.vars rw)) = 5%nat)
         (RipemdGen.round_data r) ->
  RipemdGen.dict_get RipemdGen.f_functions (RipemdGen.f_left r) = Ret fl ->
  RipemdGen.dict_get RipemdGen.f_functions (RipemdGen.f_right r) = Ret fr ->
  exists body,
    RipemdGen.generate_round r
      = Ret (RipemdGen.join RipemdGen.newline
               (("    // " +:+ RipemdGen.capitalize (RipemdGen.round_name r) +:+ ": "
                 +:+ RipemdGen.f_left r +:+ " left, " +:+ RipemdGen.f_right r
                 +:+ " right") :: body)) /\
    length body = (2 * length (RipemdGen.round_data r))%nat.
Proof.
  intros Hrows Hl Hr. unfold RipemdGen.generate_round.
  set (header := "    // " +:+ _).
  assert (L : forall rows lines,
    Forall (fun rw => length (RipemdGen.split "," (RipemdGen.vars rw)) = 5%nat) rows ->
    exists body,
      for_each rows
        (RipemdGen.generate_row (RipemdGen.f_left r) (RipemdGen.k_left r)
           (RipemdGen.f_right r) (RipemdGen.k_right r)) lines
      = Ret (lines ++ body) /\
      length body = (2 * length rows)%nat).
  { induction rows as [|rw rows IH]; intros lines Hall.
    - exists []. by rewrite app_nil_r.
    - apply Forall_cons in Hall as [H5 Hall].
      destruct (generate_row_appends (RipemdGen.f_left r) (RipemdGen.k_left r)
                  (RipemdGen.f_right r) (RipemdGen.k_right r) rw lines fl fr H5 Hl Hr)
        as (l & rt & Hrow).
      cbn [for_each]. rewrite Hrow. cbn [mbind outcome_bind Py.bind].
      destruct (IH (lines ++ [l; rt]) Hall) as (body & -> & Hlen).
      exists (l :: rt :: body). rewrite <- app_assoc. split; [done|].
      cbn [length]. lia. }
  destruct (L (RipemdGen.round_data r) [header] Hrows) as (body & -> & Hlen).
  exists body. by cbn [mbind outcome_bind Py.bind app].
Qed.

(** The theorem at the first two rows of round 2. *)
Lemma generate_round_lines_witness :
  let r := RipemdGen.Round "round2" "F2" "0x5a827999u" "F4" "0x5c4dd124u"
             [RipemdGen.Row "E,A,B,C,D" 7 7 6 9; RipemdGen.Row "D,E,A,B,C" 4 6 11 13] in
  exists body,
    RipemdGen.generate_round r
      = Ret (RipemdGen.join RipemdGen.newline
               (("    // " +:+ RipemdGen.capitalize (RipemdGen.round_name r) +:+ ": "
                 +:+ RipemdGen.f_left r +:+ " left, " +:+ RipemdGen.f_right r
                 +:+ " right") :: body)) /\
    length body = (2 * length (RipemdGen.round_data r))%nat.
Proof.
  intros r.
  assert (H1 : Forall (fun rw => length (RipemdGen.split "," (RipemdGen.vars rw)) = 5%nat)
                 (RipemdGen.round_data r))
    by (repeat constructor).
  assert (H2 : RipemdGen.dict_get RipemdGen.f_functions (RipemdGen.f_left r)
               = Ret "((b & c) | ((~b) & d))") by reflexivity.
  assert (H3 : RipemdGen.dict_get RipemdGen.f_functions (RipemdGen.f_right r)
               = Ret "((b & d) | (c & (~d)))") by reflexivity.
  exact (generate_round_lines r _ _ H1 H2 H3).
Defined.

(** How a single row fails. *)
Lemma generate_row_raises (fl_name kl fr_name kr : string) (rw : RipemdGen.row)
    (lines : list string) :
  (length (RipemdGen.split "," (RipemdGen.vars rw)) <> 5%nat ->
   RipemdGen.generate_row fl_name kl fr_name kr rw lines = Raise ValueError) /\
  (length (RipemdGen.split "," (RipemdGen.vars rw)) = 5%nat ->
   forall e, RipemdGen.dict_get RipemdGen.f_functions fl_name = Raise e ->
   RipemdGen.generate_row fl_name kl fr_name kr rw lines = Raise e) /\
  (length (RipemdGen.split "," (RipemdGen.vars rw)) = 5%nat ->
   forall fl e, RipemdGen.dict_get RipemdGen.f_functions fl_name = Ret fl ->
   RipemdGen.dict_get RipemdGen.f_functions fr_name = Raise e ->
   RipemdGen.generate_row fl_name kl fr_name kr rw lines = Raise e).
Proof.
  unfold RipemdGen.generate_row. split; [|split].
  - intros H5. rewrite (unpack5_other (map RipemdGen.lower _)) by (by rewrite length_map).
    reflexivity.
  - intros H5 e Hl. apply unpack5_five in H5 as (a & b & c & d & e' & ->).
    cbn [map RipemdGen.unpack5 mbind outcome_bind Py.bind]. by rewrite Hl.
  - intros H5 fl e Hl Hr. apply unpack5_five in H5 as (a & b & c & d & e' & ->).
    cbn [map RipemdGen.unpack5 mbind outcome_bind Py.bind]. by rewrite Hl, Hr.
Qed.

(** X19: what [generate_round] does with the first row decides how a
    faulty round ends.  Without rows it returns the comment line alone,
    whatever the selectors are; a first row that does not name exactly
    five variables raises [ValueError] before any selector is looked up;
    otherwise a selector that is no key of [f_functions] raises
    [KeyError], the left one first. *)
Theorem generate_round_first_row (r : RipemdGen.round_spec) :
  match RipemdGen.round_data r with
  | [] =>
      RipemdGen.generate_round r
      = Ret ("    // " +:+ RipemdGen.capitalize (RipemdGen.round_name r) +:+ ": "
             +:+ RipemdGen.f_left r +:+ " left, " +:+ RipemdGen.f_right r +:+ " right")
  | rw :: _ =>
      if decide (length (RipemdGen.split "," (RipemdGen.vars rw)) = 5%nat) then
        match RipemdGen.dict_get RipemdGen.f_functions (RipemdGen.f_left r),
              RipemdGen.dict_get RipemdGen.f_functions (RipemdGen.f_right r) with
        | Ret _, Ret _ => True
        | Ret _, _ => RipemdGen.generate_round r = Raise KeyError
        | _, _ => RipemdGen.generate_round r = Raise KeyError
        end
      else RipemdGen.generate_round r = Raise ValueError
  end.
Proof.
  unfold RipemdGen.generate_round.
  destruct (RipemdGen.round_data r) as [|rw rows]; [reflexivity|].
  assert (K : forall name, match RipemdGen.dict_get RipemdGen.f_functions name with
                           | Ret _ => True
                           | Raise e => e = KeyError
                           | Diverge => False
                           end).
  { intros name. unfold RipemdGen.f_functions. cbn [RipemdGen.dict_get].
    repeat (destruct (String.eqb _ name); [done|]). done. }
  destruct (generate_row_raises (RipemdGen.f_left r) (RipemdGen.k_left r)
              (RipemdGen.f_right r) (RipemdGen.k_right r) rw
              ["    // " +:+ RipemdGen.capitalize (RipemdGen.round_name r) +:+ ": "
               +:+ RipemdGen.f_left r +:+ " left, " +:+ RipemdGen.f_right r
               +:+ " right"]) as (R1 & R2 & R3).
  destruct (decide _) as [H5|H5].
  - pose proof (K (RipemdGen.f_left r)) as Kl.
    pose proof (K (RipemdGen.f_right r)) as Kr.
    destruct (RipemdGen.dict_get RipemdGen.f_functions (RipemdGen.f_left r))
      as [fl|el|] eqn:El; [|subst el|done].
    + destruct (RipemdGen.dict_get RipemdGen.f_functions (RipemdGen.f_right r))
        as [fr|er|] eqn:Er; [done|subst er|done].
      cbn [for_each]. by rewrite (R3 H5 fl KeyError eq_refl eq_refl).
    + destruct (RipemdGen.dict_get RipemdGen.f_functions (RipemdGen.f_right r));
        cbn [for_each]; by rewrite (R2 H5 KeyError eq_refl).
  - cbn [for_each]. by rewrite (R1 H5).
Qed.

Lemma generate_unfold (table : list RipemdGen.round_spec) (out : list string) :
  RipemdGen.generate table out
  = match IO.for_each table
            (fun r _ =>
               text ← IO.lift (RipemdGen.generate_round r);
               _ ← IO.print text;
               IO.print "") tt
            (out ++ take 4 (RipemdGen.generate [] []).1) with
    | (o, Ret _) => (o ++ drop 4 (RipemdGen.generate [] []).1, Ret tt)
    | (o, Raise e) => (o, Raise e)
    | (o, Diverge) => (o, Diverge)
    end.
Proof.
  remember (take 4 (RipemdGen.generate [] []).1) as header eqn:Hh.
  remember (drop 4 (RipemdGen.generate [] []).1) as footer eqn:Hf.
  vm_compute in Hh, Hf. subst header footer.
  unfold RipemdGen.generate.
  unfold mbind, IO.io_bind, IO.bind, IO.print.
  rewrite <- !app_assoc. cbn [app].
  destruct (IO.for_each table _ tt _) as [o [[]|e|]]; [|reflexivity|reflexivity].
  rewrite <- !app_assoc. reflexivity.
Qed.

Lemma rounds_loop_run (table : list RipemdGen.round_spec) (texts : list string) :
  Forall2 (fun r t => RipemdGen.generate_round r = Ret t) table texts ->
  forall out,
    IO.for_each table
      (fun r _ =>
         text ← IO.lift (RipemdGen.generate_round r);
         _ ← IO.print text;
         IO.print "") tt out
    = (out ++ flat_map (fun t => [t; ""]) texts, Ret tt).
Proof.
  induction 1 as [|r t table texts Hr _ IH]; intros out.
  - cbn. by rewrite app_nil_r.
  - erewrite io_for_each_cons_ret.
    2:{ unfold mbind, IO.io_bind, IO.bind, IO.lift, IO.print. rewrite Hr. reflexivity. }
    rewrite IH. cbn [flat_map]. by rewrite <- !app_assoc.
Qed.

(** X20: the generator in terms of [generate_round].  Let the header be
    the first four lines and the footer the other twelve lines that the
    generator prints for an empty table.  When every round of a table has
    a text, the generator prints the header, each text followed by an
    empty line, and the footer.  When a round raises after rounds that
    have texts, it prints the header and those texts and ends with that
    exception: the footer with the closing brace is never printed. *)
Theorem generate_prints_rounds_until_failure
    (table : list RipemdGen.round_spec) (texts : list string) :
  Forall2 (fun r t => RipemdGen.generate_round r = Ret t) table texts ->
  IO.writes (RipemdGen.generate table)
    (take 4 (RipemdGen.generate [] []).1
       ++ flat_map (fun t => [t; ""]) texts
       ++ drop 4 (RipemdGen.generate [] []).1)
    (Ret tt) /\
  forall (r : RipemdGen.round_spec) (later : list RipemdGen.round_spec) (e : exn),
    RipemdGen.generate_round r = Raise e ->
    IO.writes (RipemdGen.generate (table ++ r :: later))
      (take 4 (RipemdGen.generate [] []).1 ++ flat_map (fun t => [t; ""]) texts)
      (Raise e).
Proof.
  intros Hok. split.
  - intros out. rewrite generate_unfold, (rounds_loop_run table texts Hok).
    by rewrite <- !app_assoc.
  - intros r later e Hr out. rewrite generate_unfold.
    assert (E : forall o,
      IO.for_each (table ++ r :: later)
        (fun r _ =>
           text ← IO.lift (RipemdGen.generate_round r);
           _ ← IO.print text;
           IO.print "") tt o
      = (o ++ flat_map (fun t => [t; ""]) texts, Raise e)).
    { clear out. induction Hok as [|r0 t table texts Hr0 _ IH]; intros o.
      - cbn [app flat_map]. rewrite app_nil_r.
        apply io_for_each_cons_raise.
        unfold mbind, IO.io_bind, IO.bind, IO.lift. by rewrite Hr.
      - cbn [app]. erewrite io_for_each_cons_ret.
        2:{ unfold mbind, IO.io_bind, IO.bind, IO.lift, IO.print.
            rewrite Hr0. reflexivity. }
        rewrite IH. cbn [flat_map]. by rewrite <- !app_assoc. }
    rewrite E. by rewrite <- !app_assoc.
Qed.

(** The theorem at a table of one round without rows, followed by a round
    whose selector F9 is no key. *)
Lemma generate_prints_rounds_until_failure_witness :
  Forall2 (fun r t => RipemdGen.generate_round r = Ret t)
    [RipemdGen.Round "round1" "F1" "0x00000000u" "F5" "0x50a28be6u" []]
    ["    // Round1: F1 left, F5 right"] /\
  RipemdGen.generate_round
    (RipemdGen.Round "round2" "F9" "0x5a827999u" "F4" "0x5c4dd124u"
       [RipemdGen.Row "E,A,B,C,D" 7 7 6 9]) = Raise KeyError /\
  IO.writes
    (RipemdGen.generate
       ([RipemdGen.Round "round1" "F1" "0x00000000u" "F5" "0x50a28be6u" []]
          ++ RipemdGen.Round "round2" "F9" "0x5a827999u" "F4" "0x5c4dd124u"
               [RipemdGen.Row "E,A,B,C,D" 7 7 6 9] :: []))
    (take 4 (RipemdGen.generate [] []).1
       ++ flat_map (fun t => [t; ""]) ["    // Round1: F1 left, F5 right"])
    (Raise KeyError).
Proof.
  assert (H1 : Forall2 (fun r t => RipemdGen.generate_round r = Ret t)
    [RipemdGen.Round "round1" "F1" "0x00000000u" "F5" "0x50a28be6u" []]
    ["    // Round1: F1 left, F5 right"])
    by (repeat constructor).
  assert (H2 : RipemdGen.generate_round
    (RipemdGen.Round "round2" "F9" "0x5a827999u" "F4" "0x5c4dd124u"
       [RipemdGen.Row "E,A,B,C,D" 7 7 6 9]) = Raise KeyError)
    by reflexivity.
  split; [exact H1|]. split; [exact H2|].
  exact (proj2 (generate_prints_rounds_until_failure _ _ H1) _ [] KeyError H2).
Defined.

(** * More on the validation run *)

Lemma loop_skips (vs : list ParityMain.vector) :
  forall (total i : Z) (st : ParityMain.locals) (h : Store.store),
    Forall (fun v => ParityMain.vulnerability v <> "randstorm" \/
                     ParityMain.engine v ∉ Parity.supported_engines) vs ->
    ParityMain.loop total i vs st h = Ret ((st, []), h).
Proof.
  induction vs as [|v vs IH]; intros total i st h Hall; [reflexivity|].
  apply Forall_cons in Hall as [Hv Hall].
  cbn [ParityMain.loop].
  destruct (String.eqb_spec (ParityMain.vulnerability v) "randstorm") as [E|N];
    cbn [negb]; [|by apply IH].
  destruct Hv as [Hv|Hv]; [done|].
  erewrite M_bind_run; [|by apply derive_unsupported].
  cbv beta iota. by apply IH.
Qed.

(** X21: when no vector of the fixture is replayed, because each one
    belongs to another vulnerability or names an unsupported engine,
    [main] verifies nothing and still reports perfect parity: it prints
    the summary with 0 passed and 0 failed, then the perfect-parity line,
    exits with status 0 and creates no object. *)
Theorem main_perfect_parity_without_replay
    (vectors : list ParityMain.vector) (h : Store.store) :
  Forall (fun v => ParityMain.vulnerability v <> "randstorm" \/
                   ParityMain.engine v ∉ Parity.supported_engines) vectors ->
  ParityMain.main (Some vectors) h
  = Ret (ParityMain.Run 0
           (ParityMain.Locals 0 0
              [ParityMain.Starting;
               ParityMain.Complete (Z.of_nat (length vectors)) 0 0;
               ParityMain.PerfectParity])
           [], h).
Proof.
  intros Hall. unfold ParityMain.main.
  erewrite M_bind_run; [|by apply loop_skips]. reflexivity.
Qed.

(** The theorem at a fixture of two vectors: one of another
    vulnerability, one for the engine 'safari'. *)
Lemma main_perfect_parity_without_replay_witness :
  Forall (fun v => ParityMain.vulnerability v <> "randstorm" \/
                   ParityMain.engine v ∉ Parity.supported_engines)
    [ParityMain.Vector "milksad" 1389781800000 "v8" "00";
     ParityMain.Vector "randstorm" 1389781800000 "safari" "00"] /\
  ParityMain.main
    (Some [ParityMain.Vector "milksad" 1389781800000 "v8" "00";
           ParityMain.Vector "randstorm" 1389781800000 "safari" "00"]) []
  = Ret (ParityMain.Run 0
           (ParityMain.Locals 0 0
              [ParityMain.Starting; ParityMain.Complete (Z.of_nat 2) 0 0;
               ParityMain.PerfectParity])
           [], []).
Proof.
  assert (H : Forall (fun v => ParityMain.vulnerability v <> "randstorm" \/
                               ParityMain.engine v ∉ Parity.supported_engines)
    [ParityMain.Vector "milksad" 1389781800000 "v8" "00";
     ParityMain.Vector "randstorm" 1389781800000 "safari" "00"]).
  { apply Forall_cons. split; [left; discriminate|].
    apply Forall_cons. split; [|apply Forall_nil_2].
    right. unfold Parity.supported_engines. cbn [ParityMain.engine]. intros Hin.
    repeat (apply elem_of_cons in Hin as [Hin|Hin]; [discriminate Hin|]).
    by apply elem_of_nil in Hin. }
  split; [exact H|].
  exact (main_perfect_parity_without_replay _ [] H).
Defined.

Lemma hex_digit_lowercase (n : Z) :
  0 <= n < 16 ->
  ParityMain.hex_digit n ∈ list_ascii_of_string "0123456789abcdef".
Proof.
  intros Hn. replace n with (Z.of_nat (Z.to_nat n)) by lia.
  assert (Hk : (Z.to_nat n < 16)%nat) by lia.
  generalize dependent (Z.to_nat n). intros k Hk.
  do 16 (destruct k as [|k]; [vm_compute; repeat constructor|]). lia.
Qed.

Lemma hexlify_shape (bs : list Z) :
  Forall (fun x => 0 <= x < 256) bs ->
  String.length (ParityMain.hexlify bs) = (2 * length bs)%nat /\
  Forall (fun c => c ∈ list_ascii_of_string "0123456789abcdef")
         (list_ascii_of_string (ParityMain.hexlify bs)).
Proof.
  induction 1 as [|b bs Hb _ [IH1 IH2]]; [by split|].
  cbn [ParityMain.hexlify foldr String.length list_ascii_of_string length].
  fold (ParityMain.hexlify bs). split; [lia|].
  apply Forall_cons. split.
  { apply hex_digit_lowercase.
    split; [apply Z.div_pos; lia|apply Z.div_lt_upper_bound; lia]. }
  apply Forall_cons. split; [|done].
  apply hex_digit_lowercase. apply Z.mod_pos_bound. lia.
Qed.

(** X22: the comparison with [expected_privkey_hex] is exact.  The key
    [main] derives is printed as 64 lowercase hexadecimal digits, so a
    replayed vector whose expected key has another length, or a character
    outside 0-9 and a-f (an uppercase digit, say), is counted as a
    failure: a fixture of that one vector ends with 0 passed, 1 failed
    and exit status 1. *)
Theorem main_rejects_non_canonical_hex (v : ParityMain.vector) (h : Store.store) :
  ParityMain.vulnerability v = "randstorm" ->
  ParityMain.engine v ∈ Parity.supported_engines ->
  String.length (ParityMain.expected_privkey_hex v) <> 64%nat \/
    ~ Forall (fun c => c ∈ list_ascii_of_string "0123456789abcdef")
        (list_ascii_of_string (ParityMain.expected_privkey_hex v)) ->
  exists (r : ParityMain.run) (h' : Store.store),
    ParityMain.main (Some [v]) h = Ret (r, h') /\
    ParityMain.passed (ParityMain.final r) = 0 /\
    ParityMain.failed (ParityMain.final r) = 1 /\
    ParityMain.exit_status r = 1 /\
    ParityMain.unreached r = [].
Proof.
  intros Hv Hin Hbad.
  destruct (derive_run (ParityMain.timestamp_ms v) (ParityMain.engine v) h Hin)
    as (o1 & o2 & Hd & Hlen & Hbytes).
  destruct (hexlify_shape _ Hbytes) as [S1 S2]. rewrite Hlen in S1.
  assert (Hne : String.eqb
                  (ParityMain.hexlify
                     (PoolSpec.private_key (ParityMain.engine v) (ParityMain.timestamp_ms v)))
                  (ParityMain.expected_privkey_hex v) = false).
  { apply String.eqb_neq. intros E. rewrite E in S1, S2.
    destruct Hbad as [Hbad|Hbad]; [by apply Hbad|by apply Hbad]. }
  assert (L : exists st,
    ParityMain.loop (Z.of_nat (length [v])) 0 [v]
      (ParityMain.Locals 0 0 [ParityMain.Starting]) h
    = Ret ((st, []), h ++ [o1; o2]) /\
    ParityMain.passed st = 0 /\ ParityMain.failed st = 1).
  { cbn [ParityMain.loop]. rewrite Hv.
    change (negb (String.eqb "randstorm" "randstorm")) with false. cbv iota.
    erewrite M_bind_run; [|exact Hd]. cbv beta iota. rewrite Hne.
    eexists. split; [reflexivity|]. split; reflexivity. }
  destruct L as (st & L & Hp & Hf).
  unfold ParityMain.main.
  erewrite M_bind_run; [|exact L]. cbv beta iota. rewrite Hf.
  change (1 =? 0) with false. cbv iota.
  eexists _, _. split; [reflexivity|].
  cbn [ParityMain.final ParityMain.passed ParityMain.failed
       ParityMain.exit_status ParityMain.unreached].
  split; [exact Hp|]. split; [reflexivity|]. split; reflexivity.
Qed.

(** The theorem at a vector whose expected key is too short. *)
Lemma main_rejects_non_canonical_hex_witness :
  ParityMain.vulnerability
    (ParityMain.Vector "randstorm" 1389781800000 "v8" "ABC") = "randstorm" /\
  ParityMain.engine
    (ParityMain.Vector "randstorm" 1389781800000 "v8" "ABC")
    ∈ Parity.supported_engines /\
  exists (r : ParityMain.run) (h' : Store.store),
    ParityMain.main
      (Some [ParityMain.Vector "randstorm" 1389781800000 "v8" "ABC"]) [] = Ret (r, h') /\
    ParityMain.passed (ParityMain.final r) = 0 /\
    ParityMain.failed (ParityMain.final r) = 1 /\
    ParityMain.exit_status r = 1 /\
    ParityMain.unreached r = [].
Proof.
  assert (H1 : ParityMain.vulnerability
    (ParityMain.Vector "randstorm" 1389781800000 "v8" "ABC") = "randstorm")
    by reflexivity.
  assert (H2 : ParityMain.engine
    (ParityMain.Vector "randstorm" 1389781800000 "v8" "ABC")
    ∈ Parity.supported_engines) by (cbn; unfold Parity.supported_engines; constructor).
  assert (H3 : String.length (ParityMain.expected_privkey_hex
                 (ParityMain.Vector "randstorm" 1389781800000 "v8" "ABC")) <> 64%nat \/
    ~ Forall (fun c => c ∈ list_ascii_of_string "0123456789abcdef")
        (list_ascii_of_string (ParityMain.expected_privkey_hex
           (ParityMain.Vector "randstorm" 1389781800000 "v8" "ABC"))))
    by (left; cbn; lia).
  split; [exact H1|]. split; [exact H2|].
  exact (main_rejects_non_canonical_hex _ [] H1 H2 H3).
Defined.
